(** * VagasScrap: the post-scraping pipeline

    A shallow embedding of [recruiter.py], [filters.py] and [database.py]:
    enrichment of the scraped postings with recruiter contact data, the
    filter pipeline, and the SQLite history.

    - Python text is a list of Unicode code points ([pystr]).
    - A DataFrame is its column labels plus one finite map per row; the
      columns hold Python objects (dtype [object]), the row index is not
      represented.
    - [re] is modelled by a backtracking matcher over the syntax tree of a
      compiled pattern; [re.IGNORECASE] is a flag of the matcher, which
      compares characters as the compiler of [re] arranges it. The tables of
      the Unicode database are written out for Basic Latin and Latin-1 and
      are parameters from U+0100 on.
    - The table [vagas] is the list of its rows in insertion order; a row
      whose parameters cannot be bound is not inserted. *)

From Stdlib Require Import QArith Ascii.
From stdpp Require Import gmap strings list fin_maps sorting.

Set Default Proof Using "Type".
Local Open Scope N_scope.

(** ** Python text *)

Module Py.

Definition pystr := list N.

(** Text written in the source as an ASCII literal. *)
Definition py (s : string) : pystr :=
  List.map Ascii.N_of_ascii (String.list_ascii_of_string s).

(** A character written in the source as an ASCII literal. *)
Definition chr (a : Ascii.ascii) : N := Ascii.N_of_ascii a.
Arguments chr a%_char.

(** [str.isspace] on one code point: the characters [str.strip] removes and
    the pattern [\s] matches. *)
Definition is_space (c : N) : bool :=
  ((9 <=? c) && (c <=? 13)) || ((28 <=? c) && (c <=? 32))
  || (c =? 133) || (c =? 160) || (c =? 5760)
  || ((8192 <=? c) && (c <=? 8202)) || (c =? 8232) || (c =? 8233)
  || (c =? 8239) || (c =? 8287) || (c =? 12288).

Fixpoint lstrip (s : pystr) : pystr :=
  match s with
  | c :: t => if is_space c then lstrip t else s
  | [] => []
  end.

Definition rstrip (s : pystr) : pystr := rev (lstrip (rev s)).

Definition strip (s : pystr) : pystr := rstrip (lstrip s).

Fixpoint startswith (p s : pystr) : bool :=
  match p, s with
  | [], _ => true
  | a :: p', b :: s' => (a =? b) && startswith p' s'
  | _ :: _, [] => false
  end.

Definition endswith (p s : pystr) : bool := startswith (rev p) (rev s).

Definition pystr_eqb (a b : pystr) : bool := bool_decide (a = b).

(** *** Values found in a DataFrame cell *)

Inductive pyfloat :=
| FNan
| FInf (negative : bool)
| FFin (q : Q).

Inductive Cell :=
| CNone
| CBool (b : bool)
| CInt (z : Z)
| CFloat (f : pyfloat)
| CStr (s : pystr).

Inductive pyexc := TypeError | ValueError | OverflowError | UnicodeEncodeError.

Inductive result (A : Type) :=
| Ok (a : A)
| Raise (e : pyexc).
Arguments Ok {A} a.
Arguments Raise {A} e.

#[global] Instance result_ret : MRet result := @Ok.

#[global] Instance result_bind : MBind result := fun A B f x =>
  match x with
  | Ok a => f a
  | Raise e => Raise e
  end.

(** What is built into the interpreter. The conversions between numbers and
    text: [repr] of a finite float, [float] of a string ([None] is the
    ValueError) and [float] of an integer ([None] is the OverflowError). And
    the Unicode database from U+0100 on (below, the tables are written out):
    the lower-case mapping of a code point ([_sre.unicode_tolower]), whether
    it is cased ([_sre.unicode_iscased]), the further characters [re] lets a
    lower-case character stand for when case is ignored
    ([re._casefix._EXTRA_CASES]), and the classes [\w] without the underscore
    ([str.isalnum]) and [\d] ([str.isdecimal]). White space has no case. *)
Class Builtins := {
  float_repr : Q -> pystr;
  float_of_str : pystr -> option pyfloat;
  float_of_int : Z -> option pyfloat;
  lower_high : N -> N;
  cased_high : N -> bool;
  fixes_high : N -> list N;
  alnum_high : N -> bool;
  decimal_high : N -> bool;
  lower_high_space : forall c, is_space c = true -> lower_high c = c;
}.

(** The digits of a numeral. *)
Definition ascii_digit (c : N) : bool := (48 <=? c) && (c <=? 57).

Section Unicode.
Context {B : Builtins}.

(** Lower case of a code point: the Basic Latin and Latin-1 letters move by
    32. *)
Definition lower (c : N) : N :=
  if c <? 256 then
    if ((65 <=? c) && (c <=? 90)) || ((192 <=? c) && (c <=? 222) && negb (c =? 215))
    then c + 32 else c
  else lower_high c.

(** A code point is cased when its lower case or its upper case differs from
    it: of Latin-1 the letters and the micro sign. *)
Definition cased (c : N) : bool :=
  if c <? 256 then
    ((65 <=? c) && (c <=? 90)) || ((97 <=? c) && (c <=? 122)) || (c =? 181)
    || ((192 <=? c) && (c <=? 255) && negb (c =? 215) && negb (c =? 247))
  else cased_high c.

(** [_EXTRA_CASES]: [i] also stands for the dotless i, [s] for the long s and
    the micro sign for the Greek mu. *)
Definition fixes (c : N) : list N :=
  if c <? 256 then
    if c =? 105 then [305] else if c =? 115 then [383] else if c =? 181 then [956]
    else []
  else fixes_high c.

(** [\d] and [\w]. *)
Definition is_digit (c : N) : bool :=
  if c <? 256 then ascii_digit c else decimal_high c.

Definition is_word (c : N) : bool :=
  if c <? 256 then
    ascii_digit c || (c =? 95)
    || ((65 <=? c) && (c <=? 90)) || ((97 <=? c) && (c <=? 122))
    || (c =? 170) || (c =? 178) || (c =? 179) || (c =? 181) || (c =? 185)
    || (c =? 186) || ((188 <=? c) && (c <=? 190))
    || ((192 <=? c) && (c <=? 255) && negb (c =? 215) && negb (c =? 247))
  else alnum_high c.

End Unicode.

Fixpoint digits_of_pos (fuel : nat) (n : N) (acc : pystr) : pystr :=
  match fuel with
  | O => acc
  | S fuel' =>
      let acc' := (48 + n mod 10) :: acc in
      if n <? 10 then acc' else digits_of_pos fuel' (n / 10) acc'
  end.

(** [str] of an integer: decimal digits, with a sign. *)
Definition int_repr (z : Z) : pystr :=
  let n := Z.abs_N z in
  let ds := digits_of_pos (S (N.to_nat (N.log2 n))) n [] in
  if (z <? 0)%Z then 45 :: ds else ds.

Section Conversions.
Context {B : Builtins}.

Definition str_ (v : Cell) : pystr :=
  match v with
  | CNone => py "None"
  | CBool true => py "True"
  | CBool false => py "False"
  | CInt z => int_repr z
  | CFloat FNan => py "nan"
  | CFloat (FInf false) => py "inf"
  | CFloat (FInf true) => py "-inf"
  | CFloat (FFin q) => float_repr q
  | CStr s => s
  end.

(** Truth value of an object ([if x], [x or y], [bool(x)]). *)
Definition truthy (v : Cell) : bool :=
  match v with
  | CNone => false
  | CBool b => b
  | CInt z => negb (z =? 0)%Z
  | CFloat (FFin q) => negb (Qeq_bool q 0)
  | CFloat _ => true
  | CStr s => negb (pystr_eqb s [])
  end.

Definition float_ (v : Cell) : result pyfloat :=
  match v with
  | CNone => Raise TypeError
  | CBool b => Ok (FFin (if b then 1 else 0)%Q)
  | CInt z => match float_of_int z with Some f => Ok f | None => Raise OverflowError end
  | CFloat f => Ok f
  | CStr s => match float_of_str s with Some f => Ok f | None => Raise ValueError end
  end.

End Conversions.

(** *** An interpreter for closed examples

    Integers convert exactly, text converts when it is a decimal numeral, and
    a float prints as a decimal numeral; rounding and exponents are not
    represented. Its alphabet is Latin-1: the code points above are neither
    letters nor digits. *)

Fixpoint digits_value (s : pystr) (acc : N) : option N :=
  match s with
  | [] => Some acc
  | c :: t => if ascii_digit c then digits_value t (10 * acc + (c - 48)) else None
  end.

Fixpoint span_digits (s : pystr) : pystr * pystr :=
  match s with
  | c :: t => if ascii_digit c then let '(ds, rest) := span_digits t in (c :: ds, rest)
              else ([], s)
  | [] => ([], [])
  end.

Definition numeral (s : pystr) : option Q :=
  let '(ip, rest) := span_digits s in
  match rest with
  | [] => match ip with
          | [] => None
          | _ => (fun n => inject_Z (Z.of_N n)) <$> digits_value ip 0
          end
  | 46 :: fp =>
      match ip ++ fp with
      | [] => None
      | ds => (fun n => Qmake (Z.of_N n) (Z.to_pos (10 ^ Z.of_nat (length fp))))
              <$> digits_value ds 0
      end
  | _ => None
  end.

Definition simple_float_of_str (s : pystr) : option pyfloat :=
  match strip s with
  | 45 :: t => (fun q => FFin (Qopp q)) <$> numeral t
  | 43 :: t => FFin <$> numeral t
  | t => FFin <$> numeral t
  end.

Fixpoint fraction_digits (fuel : nat) (r den : N) : pystr :=
  match fuel with
  | O => []
  | S fuel' =>
      if r =? 0 then []
      else (48 + (10 * r) / den) :: fraction_digits fuel' ((10 * r) mod den) den
  end.

Definition simple_float_repr (q : Q) : pystr :=
  let n := Z.abs_N (Qnum q) in
  let d := Npos (Qden q) in
  let fp := fraction_digits 17 (n mod d) d in
  (if (Qnum q <? 0)%Z then [45] else [])
  ++ int_repr (Z.of_N (n / d)) ++ [46] ++ match fp with [] => [48] | _ => fp end.

Definition simple_builtins : Builtins := {|
  float_repr := simple_float_repr;
  float_of_str := simple_float_of_str;
  float_of_int z := if (Z.abs z <? 2 ^ 1024)%Z then Some (FFin (inject_Z z)) else None;
  lower_high c := c;
  cased_high _ := false;
  fixes_high _ := [];
  alnum_high _ := false;
  decimal_high _ := false;
  lower_high_space _ _ := eq_refl;
|}.

(** [pandas.isna] on a cell. *)
Definition isna (v : Cell) : bool :=
  match v with
  | CNone | CFloat FNan => true
  | _ => false
  end.

(** Numeric value of a cell, for [==] between numbers of different types. *)
Definition num_of (v : Cell) : option pyfloat :=
  match v with
  | CBool b => Some (FFin (if b then 1 else 0)%Q)
  | CInt z => Some (FFin (inject_Z z))
  | CFloat f => Some f
  | _ => None
  end.

Definition pyfloat_eqb (nan_equal : bool) (a b : pyfloat) : bool :=
  match a, b with
  | FNan, FNan => nan_equal
  | FInf x, FInf y => Bool.eqb x y
  | FFin p, FFin q => Qeq_bool p q
  | _, _ => false
  end.

End Py.
Export Py.

(** ** The [re] module

    A compiled pattern is its syntax tree. The matcher is the backtracking
    search of [re]: alternatives are tried left to right, repetitions are
    greedy, and the first way through wins. *)

Module Re.

Inductive cset_item :=
| CChar (c : N)          (* one character *)
| CRange (lo hi : N)     (* lo-hi *)
| CSpace                 (* \s *)
| CDigit.                (* \d *)

Inductive regex :=
| Eps                                              (* the empty pattern *)
| Lit (s : pystr)                                  (* literal text *)
| In_ (cs : list cset_item)                        (* [...] *)
| Cat (r1 r2 : regex)                              (* r1r2 *)
| Or (r1 r2 : regex)                               (* r1|r2 *)
| Many (lo : nat) (hi : option nat) (cs : list cset_item)
                                                   (* [...]* [...]+ [...]{lo,} *)
| Upto (lo hi : nat) (r : regex)                   (* (?:r){lo,hi}  r? *)
| Group (i : nat) (r : regex)                      (* capturing group number i *)
| Boundary.                                        (* \b *)

(** ["|".join(patterns)], compiled. *)
Fixpoint alts (rs : list regex) : regex :=
  match rs with
  | [] => Eps
  | [r] => r
  | r :: rs' => Or r (alts rs')
  end.

Fixpoint cat (rs : list regex) : regex :=
  match rs with
  | [] => Eps
  | [r] => r
  | r :: rs' => Cat r (cat rs')
  end.

(** [re.escape(s)], compiled: the pattern that matches [s] literally. *)
Definition escape (s : pystr) : regex := Lit s.

(** Position of the matcher in the subject: the text behind it (nearest
    character first), the text ahead, and the groups captured so far. *)
Record mstate := MState {
  behind : pystr;
  ahead : pystr;
  caps : list (nat * pystr);
}.

Definition in_range (lo hi c : N) : bool := (lo <=? c) && (c <=? hi).

(** The code points [lo], [lo + 1], ... ([n] of them). *)
Fixpoint codes (lo : N) (n : nat) : list N :=
  match n with
  | O => []
  | S n' => lo :: codes (lo + 1) n'
  end.

Definition range_codes (lo hi : N) : list N := codes lo (N.to_nat (hi + 1 - lo)).

Section Classes.
Context {B : Builtins}.

(** What the compiler puts into the pattern for the character [x] when case
    is ignored: its lower case and the extra cases of that. *)
Definition folds (x : N) : list N := lower x :: fixes (lower x).

(** One subject character against one pattern character. When case is
    ignored a cased pattern character is compared with the lower case of the
    subject character, an uncased one with the character itself. *)
Definition char_eq (ic : bool) (c x : N) : bool :=
  if ic && cased x then bool_decide (lower c ∈ folds x) else c =? x.

(** Membership in one item of a compiled set; [fold] says that the set was
    compiled to ignore case. *)
Definition item_match (fold : bool) (it : cset_item) (c : N) : bool :=
  match it with
  | CChar x => if fold then bool_decide (c ∈ folds x) else c =? x
  | CRange lo hi =>
      if fold then existsb (fun x => bool_decide (c ∈ folds x)) (range_codes lo hi)
      else in_range lo hi c
  | CSpace => is_space c
  | CDigit => is_digit c
  end.

Definition item_cased (it : cset_item) : bool :=
  match it with
  | CChar x => cased x
  | CRange lo hi => existsb cased (range_codes lo hi)
  | CSpace | CDigit => false
  end.

(** A set that names a cased character is tested on the lower case of the
    subject character. *)
Definition cs_match (ic : bool) (cs : list cset_item) (c : N) : bool :=
  if ic then
    if existsb item_cased cs
    then existsb (fun it => item_match true it (lower c)) cs
    else existsb (fun it => item_match true it c) cs
  else existsb (fun it => item_match false it c) cs.

Definition word_at (s : pystr) : bool :=
  match s with
  | c :: _ => is_word c
  | [] => false
  end.

Definition at_boundary (s : mstate) : bool :=
  xorb (word_at (behind s)) (word_at (ahead s)).

(** Consume the literal [l] at the head of the subject. *)
Fixpoint eat (ic : bool) (l : pystr) (bh ah : pystr) : option (pystr * pystr) :=
  match l with
  | [] => Some (bh, ah)
  | x :: l' =>
      match ah with
      | c :: ah' => if char_eq ic c x then eat ic l' (c :: bh) ah' else None
      | [] => None
      end
  end.

End Classes.

(** The text consumed between two positions of one run. *)
Definition consumed (s s' : mstate) : pystr :=
  take (length (ahead s) - length (ahead s')) (ahead s).

Section Matcher.
Context {B : Builtins} {A : Type}.
Variable ic : bool.

(** Greedy repetition of a character set: take as many characters as the set
    and the upper bound allow, then give them back one at a time. *)
Fixpoint many (cs : list cset_item) (lo : nat) (hi : option nat)
    (k : mstate -> option A) (n : nat) (bh ah : pystr) (g : list (nat * pystr))
    : option A :=
  let stop := if (lo <=? n)%nat then k (MState bh ah g) else None in
  match ah with
  | c :: ah' =>
      if cs_match ic cs c && match hi with Some h => (n <? h)%nat | None => true end
      then match many cs lo hi k (S n) (c :: bh) ah' g with
           | Some x => Some x
           | None => stop
           end
      else stop
  | [] => stop
  end.

Fixpoint run (r : regex) (k : mstate -> option A) (s : mstate) : option A :=
  match r with
  | Eps => k s
  | Lit l =>
      match eat ic l (behind s) (ahead s) with
      | Some (bh, ah) => k (MState bh ah (caps s))
      | None => None
      end
  | In_ cs =>
      match ahead s with
      | c :: ah' =>
          if cs_match ic cs c then k (MState (c :: behind s) ah' (caps s)) else None
      | [] => None
      end
  | Cat r1 r2 => run r1 (run r2 k) s
  | Or r1 r2 =>
      match run r1 k s with
      | Some x => Some x
      | None => run r2 k s
      end
  | Many lo hi cs => many cs lo hi k 0 (behind s) (ahead s) (caps s)
  | Upto lo hi r' =>
      (fix rep (left done : nat) (s0 : mstate) {struct left} : option A :=
         let stop := if (lo <=? done)%nat then k s0 else None in
         match left with
         | O => stop
         | S left' =>
             match run r' (rep left' (S done)) s0 with
             | Some x => Some x
             | None => stop
             end
         end) hi 0%nat s
  | Group i r' =>
      run r' (fun s' => k (MState (behind s') (ahead s') ((i, consumed s s') :: caps s'))) s
  | Boundary => if at_boundary s then k s else None
  end.

End Matcher.

(** A match object: where it starts, the text it spans, its groups. *)
Record rmatch := RMatch {
  m_start : nat;
  m_text : pystr;
  m_caps : list (nat * pystr);
}.

Section Search.
Context {B : Builtins}.

(** [pattern.match] at one position of the subject. *)
Definition match_here (ic : bool) (r : regex) (bh ah : pystr) : option mstate :=
  run ic r Some (MState bh ah []).

(** [pattern.search(text)]: the first position at which the pattern matches. *)
Fixpoint search_from (ic : bool) (r : regex) (bh ah : pystr) : option rmatch :=
  match match_here ic r bh ah with
  | Some s' => Some (RMatch (length bh) (consumed (MState bh ah []) s') (caps s'))
  | None =>
      match ah with
      | c :: ah' => search_from ic r (c :: bh) ah'
      | [] => None
      end
  end.

Definition search (ic : bool) (r : regex) (text : pystr) : option rmatch :=
  search_from ic r [] text.

(** The value of group [i] ([None] when it took no part in the match). *)
Fixpoint group (i : nat) (g : list (nat * pystr)) : option pystr :=
  match g with
  | [] => None
  | (j, w) :: g' => if (i =? j)%nat then Some w else group i g'
  end.

(** [m.groups()] of a pattern with [n] groups. *)
Definition groups (n : nat) (m : rmatch) : list (option pystr) :=
  List.map (fun i => group i (m_caps m)) (seq 1 n).

(** [pattern.findall(text)] for a pattern without groups: the matched texts,
    left to right, each search resuming where the previous match ended.
    [skip] counts the characters still inside the previous match. *)
Fixpoint findall_from (ic : bool) (r : regex) (skip : nat) (bh ah : pystr)
    : list pystr :=
  match skip with
  | S skip' =>
      match ah with
      | c :: ah' => findall_from ic r skip' (c :: bh) ah'
      | [] => []
      end
  | O =>
      match match_here ic r bh ah with
      | Some s' =>
          let w := consumed (MState bh ah []) s' in
          w :: match ah with
               | c :: ah' => findall_from ic r (pred (length w)) (c :: bh) ah'
               | [] => []
               end
      | None =>
          match ah with
          | c :: ah' => findall_from ic r 0 (c :: bh) ah'
          | [] => []
          end
      end
  end.

Definition findall (ic : bool) (r : regex) (text : pystr) : list pystr :=
  findall_from ic r 0 [] text.

End Search.

End Re.
Export Re.

(** ** DataFrames *)

Module Frame.

Record DataFrame := Df {
  columns : list string;
  rows : list (gmap string Cell);
}.

(** [df.empty]: no rows or no columns. *)
Definition empty (df : DataFrame) : bool :=
  match rows df, columns df with
  | [], _ | _, [] => true
  | _, _ => false
  end.

Definition has_column (c : string) (df : DataFrame) : bool :=
  bool_decide (c ∈ columns df).

(** [row.get(c)] and [row.get(c, d)]. *)
Definition get (r : gmap string Cell) (c : string) : Cell := default CNone (r !! c).
Definition get_or (r : gmap string Cell) (c : string) (d : Cell) : Cell :=
  default d (r !! c).

(** [df[mask]] for a mask computed row by row. *)
Definition select (mask : gmap string Cell -> bool) (df : DataFrame) : DataFrame :=
  Df (columns df) (List.filter mask (rows df)).

(** [df[c] = df.apply(f, axis=1)]: a new column goes last. *)
Definition assign (c : string) (f : gmap string Cell -> Cell) (df : DataFrame)
    : DataFrame :=
  Df (if has_column c df then columns df else columns df ++ [c])
     (List.map (fun r => <[c := f r]> r) (rows df)).

(** [df.drop(columns=[c])]. *)
Definition drop (c : string) (df : DataFrame) : DataFrame :=
  Df (List.filter (fun c' => negb (bool_decide (c' = c))) (columns df))
     (List.map (delete c) (rows df)).

(** [pd.concat([a, b], ignore_index=True, sort=False)]: the rows of [a], then
    those of [b]; the columns of [a], then the ones only [b] has, and a row
    reads as NaN in a column it did not have. *)
Definition concat (a b : DataFrame) : DataFrame :=
  let cols := columns a ++
              List.filter (fun c => negb (bool_decide (c ∈ columns a))) (columns b) in
  let pad (own : list string) (r : gmap string Cell) :=
    foldr (fun c r' => if bool_decide (c ∈ own) then r'
                       else <[c := CFloat FNan]> r') r cols in
  Df cols (List.map (pad (columns a)) (rows a) ++ List.map (pad (columns b)) (rows b)).

Definition of_option (o : option pystr) : Cell :=
  match o with
  | Some s => CStr s
  | None => CNone
  end.

End Frame.
Export Frame.

(** ** recruiter.py *)

Module Recruiter.

Definition az := CRange (chr "a") (chr "z").
Definition AZ := CRange (chr "A") (chr "Z").
Definition d09 := CRange (chr "0") (chr "9").

(** [[a-zA-Z0-9._%+\-]+@[a-zA-Z0-9.\-]+\.[a-zA-Z]{2,}] *)
Definition _EMAIL_RE : regex :=
  cat [ Many 1 None [az; AZ; d09; CChar (chr "."); CChar (chr "_");
                     CChar (chr "%"); CChar (chr "+"); CChar (chr "-")];
        Lit (py "@");
        Many 1 None [az; AZ; d09; CChar (chr "."); CChar (chr "-")];
        Lit (py ".");
        Many 2 None [az; AZ] ].

(** [[A-ZÀ-Ú]] and [[a-zà-ú]]: À is U+00C0, Ú is U+00DA, à is U+00E0, ú is
    U+00FA. *)
Definition upper_set := [AZ; CRange 192 218].
Definition lower_set := [az; CRange 224 250].

(** [[A-ZÀ-Ú][a-zà-ú]+] *)
Definition name_word : regex := Cat (In_ upper_set) (Many 1 None lower_set).

(** [([A-ZÀ-Ú][a-zà-ú]+(?:\s+[A-ZÀ-Ú][a-zà-ú]+){1,3})], as group [i]. *)
Definition NAME (i : nat) : regex :=
  Group i (Cat name_word (Upto 1 3 (Cat (Many 1 None [CSpace]) name_word))).

Definition ws0 := Many 0 None [CSpace].   (* \s* *)
Definition ws1 := Many 1 None [CSpace].   (* \s+ *)
(** [[:：]]: the colon and the full-width colon U+FF1A. *)
Definition colon := In_ [CChar 58; CChar 65306].

Definition _NAME_PATTERNS : list regex :=
  [ (* recrut[ao]dor[a]?\s*[:：]\s*(NAME) *)
    cat [Lit (py "recrut"); In_ [CChar (chr "a"); CChar (chr "o")]; Lit (py "dor");
         Upto 0 1 (In_ [CChar (chr "a")]); ws0; colon; ws0; NAME 1];
    (* contato\s*[:：]\s*(NAME) *)
    cat [Lit (py "contato"); ws0; colon; ws0; NAME 2];
    (* posted\s+by\s+(NAME) *)
    cat [Lit (py "posted"); ws1; Lit (py "by"); ws1; NAME 3];
    (* hiring\s+manager\s*[:：]\s*(NAME) *)
    cat [Lit (py "hiring"); ws1; Lit (py "manager"); ws0; colon; ws0; NAME 4];
    (* contact\s+(NAME)\s+at\b *)
    cat [Lit (py "contact"); ws1; NAME 5; ws1; Lit (py "at"); Boundary];
    (* recruiter\s*[:：]\s*(NAME) *)
    cat [Lit (py "recruiter"); ws0; colon; ws0; NAME 6];
    (* respons[aá]vel\s*[:：]\s*(NAME) *)
    cat [Lit (py "respons"); In_ [CChar (chr "a"); CChar 225]; Lit (py "vel");
         ws0; colon; ws0; NAME 7];
    (* apply\s+to\s+(NAME) *)
    cat [Lit (py "apply"); ws1; Lit (py "to"); ws1; NAME 8] ].

(** [re.compile("|".join(_NAME_PATTERNS), re.IGNORECASE)] *)
Definition _NAME_RE : regex := alts _NAME_PATTERNS.

Definition image_suffixes : list pystr :=
  [py ".png"; py ".jpg"; py ".gif"; py ".svg"].

Section Enrich.
Context {B : Builtins}.

(** [e.endswith((".png", ".jpg", ".gif", ".svg"))] *)
Definition is_image (e : pystr) : bool :=
  existsb (fun suf => endswith suf e) image_suffixes.

Definition _extract_email_from_text (text : pystr) : option pystr :=
  match text with
  | [] => None
  | _ =>
      let found := findall true _EMAIL_RE text in
      let filtered := List.filter (fun e => negb (is_image e)) found in
      head filtered
  end.

(** The first group of [m.groups()] that is neither [None] nor empty. *)
Fixpoint first_group (gs : list (option pystr)) : option pystr :=
  match gs with
  | [] => None
  | Some (c :: w) :: _ => Some (strip (c :: w))
  | _ :: gs' => first_group gs'
  end.

Definition _extract_name_from_text (text : pystr) : option pystr :=
  match text with
  | [] => None
  | _ =>
      match search true _NAME_RE text with
      | None => None
      | Some m => first_group (groups 8 m)
      end
  end.


(** [str(row.get("descricao") or "")] *)
Definition description_text (row : gmap string Cell) : pystr :=
  let d := get row "descricao" in
  str_ (if truthy d then d else CStr []).

Definition _get_email (row : gmap string Cell) : option pystr :=
  let raw := get row "emails" in
  if truthy raw
     && negb (bool_decide (str_ raw ∈ [py ""; py "nan"; py "None"]))
  then Some (strip (str_ raw))
  else _extract_email_from_text (description_text row).

Definition _get_name (row : gmap string Cell) : option pystr :=
  _extract_name_from_text (description_text row).

Definition enrich_recruiter_info (df : DataFrame) : DataFrame :=
  let df := assign "email_recrutador" (fun r => of_option (_get_email r)) df in
  let df := assign "nome_recrutador" (fun r => of_option (_get_name r)) df in
  if has_column "emails" df then drop "emails" df else df.

End Enrich.

End Recruiter.

(** ** filters.py *)

Module Filters.

(** Equality of two cells as keys of pandas' duplicate table: Python [==],
    with NaN equal to NaN. *)
Definition same_key (a b : Cell) : bool :=
  match a, b with
  | CNone, CNone => true
  | CStr x, CStr y => pystr_eqb x y
  | _, _ =>
      match num_of a, num_of b with
      | Some f, Some g => pyfloat_eqb true f g
      | _, _ => false
      end
  end.

(** [df.drop_duplicates(subset=[c], keep="first")] on the rows: a row is kept
    when its key is not yet in the table of keys seen. *)
Fixpoint drop_duplicates (c : string) (seen : list Cell)
    (l : list (gmap string Cell)) : list (gmap string Cell) :=
  match l with
  | [] => []
  | r :: l' =>
      let k := get r c in
      if existsb (same_key k) seen then drop_duplicates c seen l'
      else r :: drop_duplicates c (k :: seen) l'
  end.

Definition deduplicate (df : DataFrame) : DataFrame :=
  if empty df then df
  else if has_column "link" df
       then Df (columns df) (drop_duplicates "link" [] (rows df))
       else df.

(** [df[c] == True], cell by cell. *)
Definition eq_true (v : Cell) : bool :=
  match num_of v with
  | Some f => pyfloat_eqb false f (FFin 1)
  | None => false
  end.

Definition filter_remote (df : DataFrame) : DataFrame :=
  if empty df then df
  else if negb (has_column "remoto" df) then df
  else select (fun r => eq_true (get r "remoto")) df.

(** [s.str.startswith("post_", na=False)], cell by cell. The column [site]
    holds texts, as every scraper writes it: on a column whose values are all
    numbers or all truth values pandas refuses the [.str] accessor with an
    AttributeError, which is outside this model. *)
Definition is_post (v : Cell) : bool :=
  match v with
  | CStr s => startswith (py "post_") s
  | _ => false
  end.

Section WithBuiltins.
Context {B : Builtins}.

(** [df[c].fillna("").astype(str)], cell by cell. *)
Definition text_of (v : Cell) : pystr := if isna v then [] else str_ v.

(** The mask both keyword filters build: the pattern is searched in the
    columns [titulo] and [descricao] that the frame has. *)
Definition contains_mask (re : regex) (df : DataFrame) (r : gmap string Cell) : bool :=
  foldl (fun mask col =>
           if has_column col df
           then mask || bool_decide (is_Some (search true re (text_of (get r col))))
           else mask)
        false ["titulo"; "descricao"].

Definition filter_by_skills (df : DataFrame) (skills : list pystr) : DataFrame :=
  if empty df || bool_decide (skills = []) then df
  else
    let pattern :=
      List.map (fun s => escape (strip s))
               (List.filter (fun s => negb (pystr_eqb (strip s) [])) skills) in
    match pattern with
    | [] => df
    | _ => select (contains_mask (alts pattern) df) df
    end.

End WithBuiltins.

Definition B_ := Boundary.
Definition L (s : string) := Lit (py s).
Definition opt (r : regex) := Upto 0 1 r.
Definition one (cs : list N) := In_ (List.map CChar cs).
Definition s0 := Many 0 None [CSpace].                       (* \s* *)
Definition s1 := Many 1 None [CSpace].                       (* \s+ *)
Definition sep := opt (In_ [CSpace; CChar (chr "-")]).       (* [\s\-]? *)
Definition a_ := one [chr "a"; 225].                         (* [aá] *)
Definition a' := one [chr "a"; 224].                         (* [aà] *)
Definition e_ := one [chr "e"; 233].                         (* [eé] *)
Definition e' := one [chr "e"; 234].                         (* [eê] *)
Definition i_ := one [chr "i"; 237].                         (* [ií] *)
Definition u_ := one [chr "u"; 250].                         (* [uú] *)
Definition oa := one [chr "o"; chr "a"].                     (* [oa] *)
Definition anos := Cat (L "ano") (opt (L "s")).              (* anos? *)

Definition trainee : list regex :=
  [ cat [B_; L "trainee"; B_];
    cat [B_; L "estagi"; a_; L "ri"; opt oa; B_];
    cat [B_; L "est"; a_; L "gio"; B_];
    cat [B_; L "stage"; B_];
    cat [B_; L "intern"; opt (L "ship"); B_];
    cat [B_; L "aprendiz"; B_];
    cat [B_; L "jovem"; s1; L "aprendiz"; B_];
    cat [B_; L "programa"; s1; L "de"; s1; L "est"; a_; L "gio"; B_] ].

Definition junior : list regex :=
  [ cat [B_; L "j"; u_; L "nior"; B_];
    cat [B_; L "jr"; opt (L "."); B_];
    cat [B_; L "entry"; sep; L "level"; B_];
    cat [B_; L "rec"; e_; L "m"; sep; L "formad"; oa; B_];
    cat [B_; L "sem"; s1; L "experi"; e'; L "ncia"; B_];
    cat [B_; L "pouca"; s1; L "experi"; e'; L "ncia"; B_];
    cat [B_; L "iniciante"; B_];
    cat [B_; L "primeiro"; s1; L "emprego"; B_];
    cat [B_; L "n"; i_; L "vel"; s1; L "inicial"; B_];
    cat [B_; L "n"; i_; L "vel"; s1; L "j"; u_; L "nior"; B_];
    cat [B_; L "0"; s0; a'; s0; L "2"; s1; anos; B_];
    cat [B_; L "at"; e_; s1; L "2"; s1; anos; B_];
    cat [B_; L "at"; e_; s1; L "1"; s1; L "ano"; B_];
    cat [B_; L "jovem"; s1; L "profissional"; B_];
    cat [B_; L "jovem"; s1; L "talento"; B_];
    cat [B_; L "early"; sep; L "career"; B_];
    cat [B_; L "formand"; oa; B_];
    cat [B_; L "junior"; s1; L "developer"; B_];
    cat [B_; L "junior"; s1; L "dev"; B_];
    cat [B_; L "dev"; s1; L "j"; u_; L "nior"; B_] ].

Definition pleno : list regex :=
  [ cat [B_; L "pleno"; B_];
    cat [B_; Lit (py "n" ++ [237] ++ py "vel"); s1; L "pleno"; B_];
    cat [B_; L "mid"; sep; L "level"; B_];
    cat [B_; L "middle"; B_];
    cat [B_; L "intermedi"; a_; L "ri"; oa; B_];
    cat [B_; one [chr "2"; chr "3"]; s0; a'; s0; L "5"; s1; anos; B_];
    cat [B_; L "2+"; s0; anos; B_];
    cat [B_; L "analista"; B_] ].

Definition senior : list regex :=
  [ cat [B_; L "s"; e'; L "nior"; B_];
    cat [B_; L "sr"; opt (L "."); B_];
    cat [B_; L "n"; i_; L "vel"; s1; L "s"; e'; L "nior"; B_];
    cat [B_; L "especialista"; B_];
    cat [B_; L "tech"; s1; L "lead"; B_];
    cat [B_; L "engenheiro"; s1; L "s"; e'; L "nior"; B_];
    cat [B_; L "5"; s0; L "+"; s0; anos; B_];
    cat [B_; L "mais"; s1; L "de"; s1; L "5"; s1; anos; B_];
    cat [B_; L "6"; s0; a'; s0; Many 1 None [CDigit]; s1; anos; B_];
    cat [B_; L "principal"; s1; L "engineer"; B_];
    cat [B_; L "staff"; s1; L "engineer"; B_];
    cat [B_; L "architect"; B_];
    cat [B_; L "arquiteto"; B_];
    cat [B_; L "lead"; s1; L "developer"; B_];
    cat [B_; L "lead"; s1; L "dev"; B_] ].

Definition SENIORITY_KEYWORDS : gmap pystr (list regex) :=
  <[py "trainee" := trainee]> (<[py "junior" := junior]>
  (<[py "pleno" := pleno]> (<[py "senior" := senior]> ∅))).

Section Pipeline.
Context {B : Builtins}.

Definition seniority_patterns (levels : list pystr) : list regex :=
  List.concat (List.map (fun level => default [] (SENIORITY_KEYWORDS !! level)) levels).

Definition filter_by_seniority (df : DataFrame) (levels : list pystr) : DataFrame :=
  if empty df || bool_decide (levels = []) then df
  else
    match seniority_patterns levels with
    | [] => df
    | patterns => select (contains_mask (alts patterns) df) df
    end.

(** The first block of [apply_all_filters]: job boards and posts are
    deduplicated apart and put together again. *)
Definition dedup_stage (df : DataFrame) : DataFrame :=
  if has_column "site" df then
    let post r := is_post (get r "site") in
    let df_jobs := deduplicate (select (fun r => negb (post r)) df) in
    let df_posts := deduplicate (select post df) in
    concat df_jobs df_posts
  else deduplicate df.

(** [if xs:] on an optional list argument. *)
Definition active (xs : option (list pystr)) : option (list pystr) :=
  match xs with
  | Some (x :: l) => xs
  | _ => None
  end.

Definition apply_all_filters (df : DataFrame) (skills : option (list pystr))
    (remote_only : bool) (seniority : option (list pystr)) : DataFrame :=
  let df := dedup_stage df in
  let df := if remote_only then filter_remote df else df in
  let df := match active skills with
            | Some ks => filter_by_skills df ks
            | None => df
            end in
  let df := match active seniority with
            | Some ls => filter_by_seniority df ls
            | None => df
            end in
  df.

End Pipeline.

End Filters.

(** ** database.py *)

Module Database.

(** A row of the table [vagas], without the surrogate key [id] that SQLite
    chooses. [NULL] is [None]. *)
Record vaga := Vaga {
  v_link : option pystr;
  v_site : option pystr;
  v_titulo : option pystr;
  v_empresa : option pystr;
  v_localizacao : option pystr;
  v_remoto : Z;
  v_tipo_vaga : option pystr;
  v_salario_min : option pyfloat;
  v_salario_max : option pyfloat;
  v_moeda : option pystr;
  v_data_postagem : option pystr;
  v_email_recrutador : option pystr;
  v_nome_recrutador : option pystr;
  v_termo_busca : pystr;
  v_data_coleta : pystr;
}.

(** The database file: [None] until the table exists, then its rows in
    insertion order. *)
Definition db := option (list vaga).

(** [CREATE TABLE IF NOT EXISTS vagas (...)] *)
Definition init_db (d : db) : list vaga := default [] d.

(** [SELECT COUNT( * ) FROM vagas] *)
Definition total (t : list vaga) : nat := length t.

(** [link TEXT UNIQUE]: a new row conflicts with a stored row that has the
    same link; NULL conflicts with nothing. *)
Definition conflicts (t : list vaga) (v : vaga) : bool :=
  match v_link v with
  | None => false
  | Some l => existsb (fun w => bool_decide (v_link w = Some l)) t
  end.

(** [INSERT OR IGNORE INTO vagas ...], with the value of [changes()]. *)
Definition insert_or_ignore (t : list vaga) (v : vaga) : list vaga * nat :=
  if conflicts t v then (t, 0%nat) else (t ++ [v], 1%nat).

(** A float bound to a statement: SQLite stores NaN as NULL. *)
Definition bind_real (o : option pyfloat) : option pyfloat :=
  match o with
  | Some FNan => None
  | _ => o
  end.

(** A text can be bound to a statement when it encodes as UTF-8, that is,
    when it holds no surrogate code point (U+D800 to U+DFFF). *)
Definition encodable (s : pystr) : bool :=
  forallb (fun c => negb ((55296 <=? c) && (c <=? 57343))) s.

(** The texts of a row that come from the frame. *)
Definition row_texts (v : vaga) : list (option pystr) :=
  [ v_link v; v_site v; v_titulo v; v_empresa v; v_localizacao v; v_tipo_vaga v;
    v_moeda v; v_data_postagem v; v_email_recrutador v; v_nome_recrutador v ].

Definition bindable (v : vaga) : bool :=
  forallb (fun o : option pystr => match o with Some s => encodable s | None => true end)
          (row_texts v)
  && encodable (v_termo_busca v) && encodable (v_data_coleta v).

Section WithBuiltins.
Context {B : Builtins}.

Definition _str (val : Cell) : option pystr :=
  match val with
  | CNone => None
  | _ =>
      let s := strip (str_ val) in
      if bool_decide (s ∈ [py ""; py "nan"; py "None"]) then None else Some s
  end.

Definition _float (val : Cell) : result (option pyfloat) :=
  match float_ val with
  | Ok f => Ok (Some f)
  | Raise TypeError | Raise ValueError => Ok None
  | Raise e => Raise e
  end.

(** The parameter tuple of the insert statement, as the row it stores. *)
Definition params (row : gmap string Cell) (search_term coleta : pystr)
    : result vaga :=
  smin ← _float (get row "salario_min");
  smax ← _float (get row "salario_max");
  Ok {| v_link := _str (get row "link");
        v_site := _str (get row "site");
        v_titulo := _str (get row "titulo");
        v_empresa := _str (get row "empresa");
        v_localizacao := _str (get row "localizacao");
        v_remoto := Z.b2z (truthy (get_or row "remoto" (CBool false)));
        v_tipo_vaga := _str (get row "tipo_vaga");
        v_salario_min := bind_real smin;
        v_salario_max := bind_real smax;
        v_moeda := _str (get row "moeda");
        v_data_postagem := _str (get row "data_postagem");
        v_email_recrutador := _str (get row "email_recrutador");
        v_nome_recrutador := _str (get row "nome_recrutador");
        v_termo_busca := search_term;
        v_data_coleta := coleta |}.

(** [conn.execute] of the insert statement with these parameters: binding a
    text that cannot be encoded raises, before anything is written. *)
Definition execute_insert (t : list vaga) (v : vaga) : result (list vaga * nat) :=
  if bindable v then Ok (insert_or_ignore t v) else Raise UnicodeEncodeError.

(** One turn of the loop of [save_jobs]: an exception, in building the
    parameters or in [execute], skips the row. *)
Definition save_row (search_term coleta : pystr) (acc : list vaga * nat)
    (row : gmap string Cell) : list vaga * nat :=
  match params row search_term coleta ≫= execute_insert acc.1 with
  | Ok (t, changes) => (t, if bool_decide (changes = 0%nat) then acc.2 else S acc.2)
  | Raise _ => acc
  end.

(** [coleta] is the reading of the clock, [datetime.now()], formatted. *)
Definition save_jobs (df : DataFrame) (search_term coleta : pystr) (d : db)
    : list vaga * nat :=
  let t := init_db d in
  if empty df then (t, 0%nat)
  else foldl (save_row search_term coleta) (t, 0%nat) (rows df).

End WithBuiltins.

End Database.

(** ** Facts about the matcher *)

Module ReFacts.

Section Facts.
Context {B : Builtins}.

(** The character [c] of a text is the character [x] of a keyword, letter
    case ignored: a cased [x] stands for the characters whose lower case is
    the lower case of [x] or one of its extra cases, an uncased [x] for
    itself. *)
Definition ci_eq (c x : N) : Prop :=
  if cased x then lower c = lower x ∨ lower c ∈ fixes (lower x) else c = x.

(** [k] occurs in [t], letter case ignored. *)
Definition occurs_ci (k t : pystr) : Prop :=
  ∃ pre mid post, t = pre ++ mid ++ post ∧ Forall2 ci_eq mid k.

Lemma char_eq_ci c x : char_eq true c x = true ↔ ci_eq c x.
Proof.
  unfold char_eq, ci_eq, folds. cbn [andb]. destruct (cased x).
  - rewrite bool_decide_eq_true, elem_of_cons. done.
  - apply N.eqb_eq.
Qed.

Lemma eat_Some ic l bh ah bh' ah' :
  eat ic l bh ah = Some (bh', ah') →
  ∃ mid, ah = mid ++ ah' ∧ bh' = rev mid ++ bh ∧
         Forall2 (fun c x => char_eq ic c x = true) mid l.
Proof.
  revert bh ah. induction l as [|x l IH]; intros bh ah H; simpl in H.
  - inversion H; subst. by exists [].
  - destruct ah as [|c ah]; [done|].
    destruct (char_eq ic c x) eqn:E; [|done].
    apply IH in H as (mid & -> & -> & Hm).
    exists (c :: mid). split_and!; [done| |by constructor].
    simpl. by rewrite <- app_assoc.
Qed.

Lemma eat_complete ic l bh mid ah :
  Forall2 (fun c x => char_eq ic c x = true) mid l →
  eat ic l bh (mid ++ ah) = Some (rev mid ++ bh, ah).
Proof.
  intros H. revert bh. induction H as [|c x mid l Hc _ IH]; intros bh; simpl; [done|].
  rewrite Hc, IH. by rewrite <- app_assoc.
Qed.

(** A literal matches at a position exactly when the text ahead starts with
    it, letter case ignored. *)
Lemma match_here_Lit l bh ah :
  is_Some (match_here true (Lit l) bh ah) ↔
  ∃ mid post, ah = mid ++ post ∧ Forall2 ci_eq mid l.
Proof.
  unfold match_here; simpl. split.
  - destruct (eat true l bh ah) as [[bh' ah']|] eqn:E; [|by intros [? ?]].
    intros _. apply eat_Some in E as (mid & -> & _ & Hm).
    exists mid, ah'. split; [done|].
    eapply Forall2_impl; [exact Hm|]. intros c x Hcx. by apply char_eq_ci.
  - intros (mid & post & -> & Hm).
    rewrite (eat_complete true l bh mid post); [by eexists|].
    eapply Forall2_impl; [exact Hm|]. intros c x Hcx. by apply char_eq_ci.
Qed.

(** An alternation matches where one of its branches does. *)
Lemma match_here_alts ic rs bh ah :
  rs ≠ [] →
  is_Some (match_here ic (alts rs) bh ah) ↔
  ∃ r, r ∈ rs ∧ is_Some (match_here ic r bh ah).
Proof.
  unfold match_here. induction rs as [|r rs IH]; [done|]. intros _.
  destruct rs as [|r' rs].
  - simpl. split; [intros H; exists r; split; [left|done]|].
    intros (r0 & Hin & H). apply list_elem_of_singleton in Hin. by subst.
  - change (alts (r :: r' :: rs)) with (Or r (alts (r' :: rs))).
    cbn [run]. destruct (run ic r Some (MState bh ah [])) eqn:E.
    + split; [intros _; exists r; split; [left|by rewrite E]|by eexists].
    + rewrite IH by done. split.
      * intros (r0 & Hin & H). exists r0. split; [by right|done].
      * intros (r0 & Hin & H). apply elem_of_cons in Hin as [->|Hin].
        -- rewrite E in H. by destruct H.
        -- by exists r0.
Qed.

(** [search] succeeds exactly when the pattern matches at some position. *)
Lemma search_from_is_Some ic r bh ah :
  is_Some (search_from ic r bh ah) ↔
  ∃ pre post, ah = pre ++ post ∧ is_Some (match_here ic r (rev pre ++ bh) post).
Proof.
  revert bh. induction ah as [|c ah IH]; intros bh; cbn [search_from].
  - destruct (match_here ic r bh []) eqn:E.
    + split; [intros _; exists [], []; split; [done|]|by eexists].
      change (rev [] ++ bh) with bh. by rewrite E.
    + split; [by intros [? ?]|].
      intros (pre & post & Hp & H). symmetry in Hp.
      apply app_eq_nil in Hp as [-> ->].
      change (rev [] ++ bh) with bh in H. rewrite E in H. by destruct H.
  - destruct (match_here ic r bh (c :: ah)) eqn:E.
    + split; [intros _; exists [], (c :: ah); split; [done|]|by eexists].
      change (rev [] ++ bh) with bh. by rewrite E.
    + rewrite IH. split.
      * intros (pre & post & -> & H). exists (c :: pre), post. split; [done|].
        cbn [rev]. by rewrite <- app_assoc.
      * intros (pre & post & Hp & H). destruct pre as [|c' pre].
        -- change (rev [] ++ bh) with bh in H. cbn [app] in Hp. subst post.
           rewrite E in H. by destruct H.
        -- cbn [app] in Hp. inversion Hp; subst. exists pre, post. split; [done|].
           cbn [rev] in H. by rewrite <- app_assoc in H.
Qed.

(** Searching for an alternation of escaped keywords finds a keyword that
    occurs in the text as it is written, letter case ignored. *)
Lemma search_escaped ks t :
  ks ≠ [] →
  is_Some (search true (alts (List.map escape ks)) t) ↔ ∃ k, k ∈ ks ∧ occurs_ci k t.
Proof.
  intros Hks. unfold search. rewrite search_from_is_Some. split.
  - intros (pre & post & -> & H).
    apply match_here_alts in H as (r & Hr & H); [|by destruct ks].
    apply list_elem_of_In, in_map_iff in Hr as (k & <- & Hk).
    apply match_here_Lit in H as (mid & post' & -> & Hm).
    exists k. split; [by apply list_elem_of_In|]. by exists pre, mid, post'.
  - intros (k & Hk & pre & mid & post & -> & Hm).
    exists pre, (mid ++ post). split; [done|].
    apply match_here_alts; [by destruct ks|].
    exists (escape k). split.
    + apply list_elem_of_In, in_map. by apply list_elem_of_In.
    + apply match_here_Lit. by exists mid, post.
Qed.

End Facts.

End ReFacts.

(** ** Properties of the filters *)

Module FiltersFacts.
Import Filters ReFacts.

Lemma filter_sublist {A} (f : A → bool) (l : list A) : List.filter f l `sublist_of` l.
Proof.
  induction l as [|x l IH]; simpl; [constructor|].
  destruct (f x); by constructor.
Qed.

Lemma empty_false_rows df : empty df = false → rows df ≠ [].
Proof. unfold empty. by destruct (rows df). Qed.

Lemma empty_true df : empty df = true → columns df ≠ [] → rows df = [].
Proof. unfold empty. destruct (rows df), (columns df); done. Qed.

Section Skills.
Context {B : Builtins}.

(** The keywords that take part in the pattern: trimmed, and not empty. *)
Definition keywords (skills : list pystr) : list pystr :=
  List.map strip (List.filter (fun s => negb (pystr_eqb (strip s) [])) skills).

Lemma keywords_elem k skills :
  k ∈ keywords skills ↔ ∃ s, s ∈ skills ∧ strip s ≠ [] ∧ k = strip s.
Proof.
  unfold keywords. rewrite list_elem_of_In, in_map_iff. split.
  - intros (s & <- & Hs). apply filter_In in Hs as [Hs Hne].
    exists s. split_and!; [by apply list_elem_of_In| |done].
    unfold pystr_eqb in Hne. apply negb_true_iff, bool_decide_eq_false in Hne. done.
  - intros (s & Hs & Hne & ->). exists s. split; [done|].
    apply filter_In. split; [by apply list_elem_of_In|].
    unfold pystr_eqb. by apply negb_true_iff, bool_decide_eq_false.
Qed.

Lemma keywords_nil skills :
  keywords skills = [] ↔ Forall (fun s => strip s = []) skills.
Proof.
  split.
  - intros Hk. apply Forall_forall. intros s Hs.
    destruct (decide (strip s = [])) as [|Hne]; [done|].
    assert (strip s ∈ keywords skills) as Hin by (apply keywords_elem; eauto).
    rewrite Hk in Hin. by apply elem_of_nil in Hin.
  - intros Hall. destruct (keywords skills) as [|k ks] eqn:E; [done|].
    assert (k ∈ keywords skills) as Hin by (rewrite E; left).
    apply keywords_elem in Hin as (s & Hs & Hne & _).
    rewrite Forall_forall in Hall. by apply Hall in Hs.
Qed.

Lemma skills_pattern skills :
  List.map (fun s => escape (strip s))
           (List.filter (fun s => negb (pystr_eqb (strip s) [])) skills)
  = List.map escape (keywords skills).
Proof. unfold keywords. by rewrite List.map_map. Qed.

Lemma contains_mask_unfold re df r :
  contains_mask re df r =
  (has_column "titulo" df
   && bool_decide (is_Some (search true re (text_of (get r "titulo")))))
  || (has_column "descricao" df
      && bool_decide (is_Some (search true re (text_of (get r "descricao"))))).
Proof.
  unfold contains_mask. cbn [foldl orb].
  destruct (has_column "titulo" df), (has_column "descricao" df); cbn [andb orb];
    by rewrite ?orb_false_r.
Qed.

Lemma contains_mask_true re df r :
  contains_mask re df r = true ↔
  ∃ col, col ∈ ["titulo"; "descricao"] ∧ col ∈ columns df ∧
         is_Some (search true re (text_of (get r col))).
Proof.
  rewrite contains_mask_unfold. unfold has_column.
  rewrite orb_true_iff, !andb_true_iff, !bool_decide_eq_true. split.
  - intros [[H1 H2]|[H1 H2]]; [exists "titulo"|exists "descricao"];
      (split_and!; [set_solver|done|done]).
  - intros (col & Hcol & Hin & Hs).
    apply elem_of_cons in Hcol as [->|Hcol]; [by left|].
    apply list_elem_of_singleton in Hcol as ->. by right.
Qed.

(** The text in which the filter searches a cell: of a missing value
    ([None], NaN) the empty text, of a text the text itself, of another
    value what [str] makes of it. *)
Inductive cell_text : Cell → pystr → Prop :=
| text_none : cell_text CNone []
| text_nan : cell_text (CFloat FNan) []
| text_str s : cell_text (CStr s) s
| text_bool b : cell_text (CBool b) (if b then py "True" else py "False")
| text_int z : cell_text (CInt z) (int_repr z)
| text_inf neg : cell_text (CFloat (FInf neg)) (if neg then py "-inf" else py "inf")
| text_fin q : cell_text (CFloat (FFin q)) (float_repr q).

Lemma cell_text_fun v t t' : cell_text v t → cell_text v t' → t = t'.
Proof. intros H H'. destruct H; by inversion H'. Qed.

Lemma cell_text_of v : cell_text v (text_of v).
Proof.
  destruct v as [|[]|z|[|[]|q]|s]; unfold text_of; cbn [isna str_];
    first [exact (text_bool true)|exact (text_bool false)
          |exact (text_inf true)|exact (text_inf false)|constructor].
Qed.

(** C7. [filter_by_skills] keeps exactly the rows in which a keyword occurs,
    letter case ignored, as literal text in the text of the title or of the
    description; a keyword is an entry of the list with the white space
    around it removed, and an entry that is then empty is no keyword. An
    empty list, a list of blank entries and a frame without columns leave
    the frame as it is. *)
Theorem filter_by_skills_keeps_matching (df : DataFrame) (skills : list pystr) :
  (skills = [] → filter_by_skills df skills = df) ∧
  (Forall (fun s => strip s = []) skills → filter_by_skills df skills = df) ∧
  (columns df = [] → filter_by_skills df skills = df) ∧
  (columns df ≠ [] → ¬ Forall (fun s => strip s = []) skills →
   columns (filter_by_skills df skills) = columns df ∧
   ∃ mask : gmap string Cell → bool,
     rows (filter_by_skills df skills) = List.filter mask (rows df) ∧
     ∀ r, mask r = true ↔
          ∃ s col t, s ∈ skills ∧ strip s ≠ [] ∧
                     col ∈ ["titulo"; "descricao"] ∧ col ∈ columns df ∧
                     cell_text (get r col) t ∧ occurs_ci (strip s) t).
Proof.
  unfold filter_by_skills. rewrite skills_pattern. split_and!.
  - intros ->. by rewrite orb_true_r.
  - intros Hall. apply keywords_nil in Hall. rewrite Hall.
    by destruct (empty df || bool_decide (skills = [])).
  - intros Hc. assert (empty df = true) as ->; [|done].
    unfold empty. rewrite Hc. by destruct (rows df).
  - intros Hcols Hsome.
    assert (keywords skills ≠ []) as Hk by (by rewrite keywords_nil).
    assert (skills ≠ []) as Hs by (intros ->; by apply Hsome).
    rewrite (bool_decide_eq_false_2 _ Hs), orb_false_r.
    assert (∀ df', (match List.map escape (keywords skills) with
                    | [] => df
                    | _ => df' end) = df') as Hm.
    { intros df'. destruct (keywords skills); done. }
    split; [destruct (empty df); [done|]; by rewrite Hm|].
    exists (contains_mask (alts (List.map escape (keywords skills))) df).
    split.
    + destruct (empty df) eqn:E.
      * by rewrite (empty_true df E Hcols).
      * by rewrite Hm.
    + intros r. rewrite contains_mask_true. split.
      * intros (col & Hcol & Hin & Hsr).
        apply search_escaped in Hsr as (k & Hkin & Hocc); [|done].
        apply keywords_elem in Hkin as (s & Hsin & Hne & ->).
        exists s, col, (text_of (get r col)). split_and!; [done..|apply cell_text_of|done].
      * intros (s & col & t & Hsin & Hne & Hcol & Hin & Ht & Hocc).
        rewrite (cell_text_fun _ _ _ Ht (cell_text_of _)) in Hocc.
        exists col. split_and!; [done..|].
        apply search_escaped; [done|]. exists (strip s). split; [|done].
        apply keywords_elem. eauto.
Qed.

End Skills.

Section Seniority.
Context {B : Builtins}.

(** The level tags [SENIORITY_KEYWORDS] has an entry for. *)
Definition vocabulary : list pystr :=
  [py "trainee"; py "junior"; py "pleno"; py "senior"].

Lemma SENIORITY_KEYWORDS_unknown level :
  level ∉ vocabulary → SENIORITY_KEYWORDS !! level = None.
Proof.
  unfold vocabulary. rewrite !not_elem_of_cons. intros (H1 & H2 & H3 & H4 & _).
  unfold SENIORITY_KEYWORDS.
  rewrite !lookup_insert_ne by done. apply lookup_empty.
Qed.

Lemma seniority_patterns_unknown levels :
  Forall (fun level => level ∉ vocabulary) levels → seniority_patterns levels = [].
Proof.
  unfold seniority_patterns. induction 1 as [|level levels Hl _ IH]; [done|].
  cbn [List.map List.concat]. by rewrite (SENIORITY_KEYWORDS_unknown level Hl), IH.
Qed.

(** C10. When the list of requested levels is not empty and none of its tags
    is in the vocabulary, the tags contribute no pattern and
    [filter_by_seniority] returns the frame it was given. *)
Theorem filter_by_seniority_unknown_levels (df : DataFrame) (levels : list pystr) :
  levels ≠ [] →
  Forall (fun level => level ∉ vocabulary) levels →
  Forall (fun level => default [] (SENIORITY_KEYWORDS !! level) = []) levels ∧
  seniority_patterns levels = [] ∧
  filter_by_seniority df levels = df.
Proof.
  intros _ Hall. split_and!.
  - eapply Forall_impl; [exact Hall|]. intros level Hl. cbv beta in Hl.
    by rewrite (SENIORITY_KEYWORDS_unknown level Hl).
  - by apply seniority_patterns_unknown.
  - unfold filter_by_seniority. rewrite (seniority_patterns_unknown levels Hall).
    by destruct (empty df || bool_decide (levels = [])).
Qed.

End Seniority.

(** *** Deduplication *)

Lemma pyfloat_eqb_refl f : pyfloat_eqb true f f = true.
Proof.
  destruct f as [|[]|q]; simpl; try done. apply Qeq_bool_iff. reflexivity.
Qed.

Lemma pyfloat_eqb_sym f g : pyfloat_eqb true f g = pyfloat_eqb true g f.
Proof.
  destruct f as [|[]|p], g as [|[]|q]; simpl; try done.
  apply eq_true_iff_eq. rewrite !Qeq_bool_iff. split; intros H; by symmetry.
Qed.

Lemma pyfloat_eqb_trans f g h :
  pyfloat_eqb true f g = true → pyfloat_eqb true g h = true →
  pyfloat_eqb true f h = true.
Proof.
  destruct f as [|[]|p], g as [|[]|q], h as [|[]|r]; simpl; try done.
  rewrite !Qeq_bool_iff. intros H1 H2. by rewrite H1.
Qed.

Lemma same_key_refl a : same_key a a = true.
Proof.
  destruct a; cbn [same_key num_of]; try done; try apply pyfloat_eqb_refl.
  unfold pystr_eqb. by apply bool_decide_eq_true.
Qed.

Lemma same_key_sym a b : same_key a b = same_key b a.
Proof.
  destruct a, b; cbn [same_key num_of]; try done; try apply pyfloat_eqb_sym.
  unfold pystr_eqb. apply eq_true_iff_eq. rewrite !bool_decide_eq_true. naive_solver.
Qed.

Lemma same_key_trans a b c :
  same_key a b = true → same_key b c = true → same_key a c = true.
Proof.
  destruct a, b, c; cbn [same_key num_of]; try done; try apply pyfloat_eqb_trans.
  unfold pystr_eqb. rewrite !bool_decide_eq_true. congruence.
Qed.

(** The rows that are the first with their key, by the code's comparison.
    [earlier] holds the rows already passed, kept or not. *)
Fixpoint first_seen (earlier l : list (gmap string Cell))
    : list (gmap string Cell) :=
  match l with
  | [] => []
  | r :: l' =>
      if existsb (fun e => same_key (get r "link") (get e "link")) earlier
      then first_seen (earlier ++ [r]) l'
      else r :: first_seen (earlier ++ [r]) l'
  end.

Definition with_key (k : Cell) (l : list (gmap string Cell)) : list (gmap string Cell) :=
  List.filter (fun r => same_key (get r "link") k) l.

Definition has_key (k : Cell) (l : list (gmap string Cell)) : bool :=
  existsb (fun r => same_key (get r "link") k) l.

Lemma drop_duplicates_sublist c seen l : drop_duplicates c seen l `sublist_of` l.
Proof.
  revert seen. induction l as [|r l IH]; intros seen; simpl; [constructor|].
  destruct (existsb _ seen); constructor; apply IH.
Qed.

(** The table of seen keys stands for all the rows passed: a dropped row
    repeats a key that is in the table already. *)
Lemma drop_duplicates_first seen earlier l :
  (∀ k, existsb (same_key k) seen
        = existsb (fun e => same_key k (get e "link")) earlier) →
  drop_duplicates "link" seen l = first_seen earlier l.
Proof.
  revert seen earlier. induction l as [|r l IH]; intros seen earlier Hinv; [done|].
  cbn [drop_duplicates first_seen]. rewrite <- (Hinv (get r "link")).
  destruct (existsb (same_key (get r "link")) seen) eqn:E.
  - apply IH. intros k. rewrite existsb_app, <- Hinv. cbn [existsb].
    rewrite orb_false_r.
    destruct (same_key k (get r "link")) eqn:Ek; [|by rewrite orb_false_r].
    rewrite orb_true_r. apply existsb_exists in E as (x & Hx & Hrx).
    apply existsb_exists. exists x. split; [done|]. by eapply same_key_trans.
  - f_equal. apply IH. intros k. rewrite existsb_app, <- Hinv. cbn [existsb].
    rewrite orb_false_r. apply orb_comm.
Qed.

Lemma count_first_seen k earlier l :
  length (with_key k (first_seen earlier l)) =
  if has_key k earlier then 0%nat
  else if has_key k l then 1%nat else 0%nat.
Proof.
  unfold with_key, has_key.
  revert earlier. induction l as [|r l IH]; intros earlier.
  { simpl. by destruct (existsb _ earlier). }
  cbn [first_seen existsb].
  set (dup := existsb (fun e => same_key (get r "link") (get e "link")) earlier).
  assert (length (List.filter (fun r0 => same_key (get r0 "link") k)
            (if dup then first_seen (earlier ++ [r]) l
             else r :: first_seen (earlier ++ [r]) l))
          = ((if negb dup && same_key (get r "link") k then 1 else 0)
             + length (List.filter (fun r0 => same_key (get r0 "link") k)
                         (first_seen (earlier ++ [r]) l)))%nat) as ->.
  { destruct dup; [done|]. cbn [List.filter negb andb].
    by destruct (same_key (get r "link") k). }
  rewrite IH, existsb_app. cbn [existsb]. rewrite orb_false_r.
  destruct (existsb (fun e => same_key (get e "link") k) earlier) eqn:E1.
  - cbn [orb]. destruct dup eqn:Ed; [done|]. cbn [negb andb].
    destruct (same_key (get r "link") k) eqn:Erk; [|done].
    exfalso. apply existsb_exists in E1 as (e & He & Hek).
    assert (dup = true) as Hd; [|by rewrite Hd in Ed].
    apply existsb_exists. exists e. split; [done|].
    eapply same_key_trans; [exact Erk|]. by rewrite same_key_sym.
  - cbn [orb]. destruct (same_key (get r "link") k) eqn:Erk; cbn [orb].
    + destruct dup eqn:Ed; [|done]. exfalso.
      apply existsb_exists in Ed as (e & He & Hre).
      assert (existsb (fun e => same_key (get e "link") k) earlier = true) as Hd;
        [|by rewrite Hd in E1].
      apply existsb_exists. exists e. split; [done|].
      eapply same_key_trans; [|exact Erk]. by rewrite same_key_sym.
    + by rewrite andb_false_r.
Qed.

Lemma deduplicate_rows df :
  has_column "link" df = true →
  deduplicate df = Df (columns df) (drop_duplicates "link" [] (rows df)).
Proof.
  intros Hl. unfold deduplicate. rewrite Hl. destruct (empty df) eqn:E; [|done].
  destruct df as [cols rs]. unfold empty in E. cbn in *.
  destruct rs as [|r rs]; [done|]. destruct cols; [|done].
  unfold has_column in Hl. cbn in Hl. apply bool_decide_eq_true in Hl.
  by apply elem_of_nil in Hl.
Qed.

Lemma filter_not_in_nil (own cs : list string) :
  Forall (fun c => c ∈ own) cs →
  List.filter (fun c => negb (bool_decide (c ∈ own))) cs = [].
Proof.
  induction 1 as [|c cs Hc _ IH]; [done|]. simpl.
  by rewrite (bool_decide_eq_true_2 _ Hc).
Qed.

Lemma pad_own (own cs : list string) (r : gmap string Cell) :
  Forall (fun c => c ∈ own) cs →
  foldr (fun c r' => if bool_decide (c ∈ own) then r' else <[c := CFloat FNan]> r')
        r cs = r.
Proof.
  induction 1 as [|c cs Hc _ IH]; [done|]. simpl.
  by rewrite (bool_decide_eq_true_2 _ Hc).
Qed.

(** Frames with the same columns are put together row after row. *)
Lemma concat_same_columns a b :
  columns a = columns b → concat a b = Df (columns a) (rows a ++ rows b).
Proof.
  intros Hab. unfold concat. rewrite <- Hab.
  assert (Forall (fun c => c ∈ columns a) (columns a)) as Hall.
  { by apply Forall_forall. }
  rewrite (filter_not_in_nil _ _ Hall), app_nil_r. f_equal.
  f_equal; (rewrite <- (map_id (rows _)) at 2; apply map_ext; intros r;
            by apply pad_own).
Qed.

Lemma deduplicate_columns df : columns (deduplicate df) = columns df.
Proof.
  unfold deduplicate. by destruct (empty df), (has_column "link" df).
Qed.

Section Dedup.

(** *** The claim's reading of deduplication *)

(** What a link cell holds: nothing, a text, or a number (a truth value and
    an integer are the numbers they equal). *)
Inductive link_value :=
| LNone
| LText (s : pystr)
| LNan
| LInf (negative : bool)
| LNum (q : Q).

Definition link_value_of (v : Cell) : link_value :=
  match v with
  | CNone => LNone
  | CStr s => LText s
  | CBool b => LNum (if b then 1 else 0)
  | CInt z => LNum (inject_Z z)
  | CFloat FNan => LNan
  | CFloat (FInf neg) => LInf neg
  | CFloat (FFin q) => LNum q
  end.

(** Equal links: the same text, or nothing on both sides, or equal numbers;
    NaN is equal to NaN. *)
Definition same_link (a b : Cell) : Prop :=
  match link_value_of a, link_value_of b with
  | LText s, LText t => s = t
  | LNum p, LNum q => (p == q)%Q
  | LInf x, LInf y => x = y
  | LNone, LNone | LNan, LNan => True
  | _, _ => False
  end.

#[global] Instance same_link_dec a b : Decision (same_link a b).
Proof.
  unfold same_link. destruct (link_value_of a), (link_value_of b); try apply _.
  apply Qeq_dec.
Defined.

(** A site of the posts: a text that begins with [post_]. *)
Definition post_site (v : Cell) : Prop :=
  match v with
  | CStr s => take 5 s = py "post_"
  | _ => False
  end.

#[global] Instance post_site_dec v : Decision (post_site v).
Proof. destruct v; apply _. Defined.

(** A row stays when no row before it has an equal link. [earlier] holds
    the rows already passed, kept or not. *)
Fixpoint first_occurrences (earlier l : list (gmap string Cell))
    : list (gmap string Cell) :=
  match l with
  | [] => []
  | r :: l' =>
      if bool_decide (Exists (fun e => same_link (get r "link") (get e "link")) earlier)
      then first_occurrences (earlier ++ [r]) l'
      else r :: first_occurrences (earlier ++ [r]) l'
  end.

(** The rows of [l] whose link equals [k]. *)
Definition with_link (k : Cell) (l : list (gmap string Cell)) : list (gmap string Cell) :=
  List.filter (fun r => bool_decide (same_link (get r "link") k)) l.

Definition has_link (k : Cell) (l : list (gmap string Cell)) : bool :=
  bool_decide (Exists (fun r => same_link (get r "link") k) l).

(** A row belongs to the posts when the frame has a [site] column and the
    row's site begins with [post_]. *)
Definition post_row (df : DataFrame) (r : gmap string Cell) : bool :=
  has_column "site" df && bool_decide (post_site (get r "site")).

Definition job_rows (df : DataFrame) : list (gmap string Cell) :=
  List.filter (fun r => negb (post_row df r)) (rows df).

Definition post_rows (df : DataFrame) : list (gmap string Cell) :=
  List.filter (post_row df) (rows df).

(** *** The code against that reading *)

Lemma same_key_link a b : same_key a b = bool_decide (same_link a b).
Proof.
  apply eq_true_iff_eq. rewrite bool_decide_eq_true. unfold same_link.
  destruct a as [|[]|z|[|[]|q]|s], b as [|[]|z'|[|[]|q']|s'];
    cbn [same_key num_of pyfloat_eqb link_value_of Bool.eqb];
    rewrite ?Qeq_bool_iff; unfold pystr_eqb; rewrite ?bool_decide_eq_true;
    try done; split; try done; intros H; try done.
Qed.

Lemma startswith_take p s : startswith p s = true ↔ take (length p) s = p.
Proof.
  revert s. induction p as [|a p IH]; intros s; [done|].
  destruct s as [|b s]; cbn [startswith take length]; [done|].
  rewrite andb_true_iff, N.eqb_eq, IH. split.
  - by intros [-> ->].
  - intros [= -> ->]. done.
Qed.

Lemma is_post_site v : is_post v = bool_decide (post_site v).
Proof.
  apply eq_true_iff_eq. rewrite bool_decide_eq_true.
  destruct v; try done. cbn [is_post post_site]. apply (startswith_take (py "post_")).
Qed.

Lemma existsb_Exists {A} (f : A → bool) (P : A → Prop) `{∀ x, Decision (P x)} l :
  (∀ x, f x = bool_decide (P x)) → existsb f l = bool_decide (Exists P l).
Proof.
  intros Hf. apply eq_true_iff_eq. rewrite bool_decide_eq_true, existsb_exists, Exists_exists.
  split; intros (x & Hx & Hp); exists x.
  - split; [by apply list_elem_of_In|]. rewrite Hf in Hp. by apply bool_decide_eq_true in Hp.
  - split; [by apply list_elem_of_In|]. rewrite Hf. by apply bool_decide_eq_true.
Qed.

Lemma first_occurrences_seen earlier l : first_occurrences earlier l = first_seen earlier l.
Proof.
  revert earlier. induction l as [|r l IH]; intros earlier; [done|].
  cbn [first_occurrences first_seen]. rewrite IH.
  by rewrite (existsb_Exists _ (fun e => same_link (get r "link") (get e "link")))
    by (intros e; apply same_key_link).
Qed.

Lemma with_link_key k l : with_link k l = with_key k l.
Proof.
  unfold with_link, with_key. apply filter_ext. intros r. by rewrite same_key_link.
Qed.

Lemma has_link_key k l : has_link k l = has_key k l.
Proof.
  unfold has_link, has_key. symmetry. apply existsb_Exists. intros r. apply same_key_link.
Qed.

Lemma dedup_stage_rows df :
  has_column "link" df = true →
  rows (dedup_stage df)
  = drop_duplicates "link" [] (job_rows df) ++ drop_duplicates "link" [] (post_rows df).
Proof.
  intros Hl.
  assert (job_rows df
          = List.filter (fun r => negb (has_column "site" df && is_post (get r "site")))
                        (rows df)) as ->.
  { apply filter_ext. intros r. unfold post_row. by rewrite is_post_site. }
  assert (post_rows df
          = List.filter (fun r => has_column "site" df && is_post (get r "site"))
                        (rows df)) as ->.
  { apply filter_ext. intros r. unfold post_row. by rewrite is_post_site. }
  unfold dedup_stage.
  destruct (has_column "site" df) eqn:Hs; cbn [andb negb].
  - rewrite !deduplicate_rows by done. by rewrite concat_same_columns.
  - rewrite deduplicate_rows by done. cbn [rows].
    assert (∀ l : list (gmap string Cell), List.filter (fun _ => true) l = l) as ->.
    { induction l; simpl; congruence. }
    assert (∀ l : list (gmap string Cell), List.filter (fun _ => false) l = []) as ->.
    { induction l; simpl; congruence. }
    by rewrite app_nil_r.
Qed.

(** C3. Deduplication keeps exactly the first occurrence of each link and
    drops the later rows with an equal link, apart among the rows of the
    job boards and among the posts (site starting with [post_]), job boards
    first in the result; a link therefore survives once for each of the two
    parts it occurs in, so a job-board row and a post with the same link both
    survive. *)
Theorem dedup_stage_keeps_first_per_partition (df : DataFrame) :
  has_column "link" df = true →
  rows (dedup_stage df)
  = first_occurrences [] (job_rows df) ++ first_occurrences [] (post_rows df) ∧
  (∀ k, length (with_link k (drop_duplicates "link" [] (job_rows df)))
        = if has_link k (job_rows df) then 1%nat else 0%nat) ∧
  (∀ k, length (with_link k (drop_duplicates "link" [] (post_rows df)))
        = if has_link k (post_rows df) then 1%nat else 0%nat) ∧
  (∀ k, length (with_link k (rows (dedup_stage df)))
        = ((if has_link k (job_rows df) then 1 else 0)
           + (if has_link k (post_rows df) then 1 else 0))%nat).
Proof.
  intros Hl.
  assert (∀ l, drop_duplicates "link" [] l = first_seen [] l) as Hfirst.
  { intros l. by apply drop_duplicates_first. }
  rewrite (dedup_stage_rows df Hl), !first_occurrences_seen, !Hfirst. split_and!; [done|..].
  - intros k. by rewrite with_link_key, has_link_key, count_first_seen.
  - intros k. by rewrite with_link_key, has_link_key, count_first_seen.
  - intros k. rewrite with_link_key, !has_link_key. unfold with_key.
    rewrite List.filter_app, length_app.
    fold (with_key k (first_seen [] (job_rows df))).
    fold (with_key k (first_seen [] (post_rows df))).
    by rewrite !count_first_seen.
Qed.

End Dedup.

(** *** The stages only remove rows *)

Local Close Scope N_scope.

Section Monotone.
Context {B : Builtins}.

Lemma deduplicate_sublist df : rows (deduplicate df) `sublist_of` rows df.
Proof.
  unfold deduplicate. destruct (empty df), (has_column "link" df); try done.
  apply drop_duplicates_sublist.
Qed.

Lemma filter_remote_sublist df : rows (filter_remote df) `sublist_of` rows df.
Proof.
  unfold filter_remote. destruct (empty df), (has_column "remoto" df); try done.
  apply filter_sublist.
Qed.

Lemma filter_by_skills_sublist df ks : rows (filter_by_skills df ks) `sublist_of` rows df.
Proof.
  unfold filter_by_skills. destruct (empty df || bool_decide (ks = [])); [done|].
  destruct (List.map _ _); [done|]. apply filter_sublist.
Qed.

Lemma filter_by_seniority_sublist df ls :
  rows (filter_by_seniority df ls) `sublist_of` rows df.
Proof.
  unfold filter_by_seniority. destruct (empty df || bool_decide (ls = [])); [done|].
  destruct (seniority_patterns ls); [done|]. apply filter_sublist.
Qed.

Lemma filter_split {A} (f : A → bool) (l : list A) :
  List.filter (fun x => negb (f x)) l ++ List.filter f l ≡ₚ l.
Proof.
  induction l as [|x l IH]; [done|]. simpl. destruct (f x); cbn [negb].
  - rewrite <- Permutation_middle. by constructor.
  - by constructor.
Qed.

Lemma dedup_stage_submseteq df : rows (dedup_stage df) ⊆+ rows df.
Proof.
  unfold dedup_stage. destruct (has_column "site" df).
  - rewrite concat_same_columns by (by rewrite !deduplicate_columns). cbn [rows].
    etrans; [|apply Permutation_submseteq, (filter_split (fun r => is_post (get r "site")))].
    apply submseteq_app; apply sublist_submseteq;
      (etrans; [apply deduplicate_sublist|done]).
  - apply sublist_submseteq, deduplicate_sublist.
Qed.

Lemma apply_all_filters_submseteq df skills remote_only seniority :
  rows (apply_all_filters df skills remote_only seniority) ⊆+ rows df.
Proof.
  unfold apply_all_filters.
  etrans; [|apply dedup_stage_submseteq].
  set (d0 := dedup_stage df).
  set (d1 := if remote_only then filter_remote d0 else d0).
  set (d2 := match active skills with Some ks => filter_by_skills d1 ks | None => d1 end).
  assert (rows d1 `sublist_of` rows d0) as H1.
  { subst d1. destruct remote_only; [apply filter_remote_sublist|done]. }
  assert (rows d2 `sublist_of` rows d1) as H2.
  { subst d2. destruct (active skills); [apply filter_by_skills_sublist|done]. }
  apply sublist_submseteq. etrans; [|exact H1]. etrans; [|exact H2].
  destruct (active seniority); [apply filter_by_seniority_sublist|done].
Qed.

(** C8. Each stage returns rows of its input, in their order, and no more of
    them; the deduplication of the pipeline and the whole pipeline return
    rows of the input (job boards before posts) and no more of them; a stage
    whose option is not set leaves the frame as it is. *)
Theorem filters_only_remove_rows (df : DataFrame) (skills seniority : option (list pystr))
    (remote_only : bool) :
  (rows (deduplicate df) `sublist_of` rows df
   ∧ length (rows (deduplicate df)) ≤ length (rows df)) ∧
  (rows (filter_remote df) `sublist_of` rows df
   ∧ length (rows (filter_remote df)) ≤ length (rows df)) ∧
  (∀ ks, rows (filter_by_skills df ks) `sublist_of` rows df
         ∧ length (rows (filter_by_skills df ks)) ≤ length (rows df)) ∧
  (∀ ls, rows (filter_by_seniority df ls) `sublist_of` rows df
         ∧ length (rows (filter_by_seniority df ls)) ≤ length (rows df)) ∧
  (rows (dedup_stage df) ⊆+ rows df
   ∧ length (rows (dedup_stage df)) ≤ length (rows df)) ∧
  (rows (apply_all_filters df skills remote_only seniority) ⊆+ rows df
   ∧ length (rows (apply_all_filters df skills remote_only seniority))
     ≤ length (rows df)) ∧
  filter_by_skills df [] = df ∧
  filter_by_seniority df [] = df ∧
  (active skills = None → active seniority = None →
   apply_all_filters df skills false seniority = dedup_stage df) ∧
  (active skills = None →
   apply_all_filters df skills remote_only seniority
   = apply_all_filters df None remote_only seniority) ∧
  (active seniority = None →
   apply_all_filters df skills remote_only seniority
   = apply_all_filters df skills remote_only None).
Proof.
  split_and!.
  - apply deduplicate_sublist.
  - apply sublist_length, deduplicate_sublist.
  - apply filter_remote_sublist.
  - apply sublist_length, filter_remote_sublist.
  - intros ks. split; [|apply sublist_length]; apply filter_by_skills_sublist.
  - intros ls. split; [|apply sublist_length]; apply filter_by_seniority_sublist.
  - apply dedup_stage_submseteq.
  - apply submseteq_length, dedup_stage_submseteq.
  - apply apply_all_filters_submseteq.
  - apply submseteq_length, apply_all_filters_submseteq.
  - unfold filter_by_skills. by rewrite orb_true_r.
  - unfold filter_by_seniority. by rewrite orb_true_r.
  - intros Hs Hl. unfold apply_all_filters. by rewrite Hs, Hl.
  - intros Hs. unfold apply_all_filters. by rewrite Hs.
  - intros Hl. unfold apply_all_filters. by rewrite Hl.
Qed.

End Monotone.

(** *** Closed examples *)

Definition titled (site link titulo : string) : gmap string Cell :=
  <["site" := CStr (py site)]> (<["link" := CStr (py link)]>
  (<["titulo" := CStr (py titulo)]> ∅)).

(** Three job-board rows and two posts; one link is on both sides. *)
Definition df_sources : DataFrame :=
  Df ["site"; "link"; "titulo"]
     [ titled "gupy" "https://a.example/job/1" "Engenheiro Senior Backend";
       titled "post_twitter" "https://a.example/job/1" "Vaga Django REST";
       titled "remoteok" "https://a.example/job/1" "Backend";
       titled "post_reddit" "https://a.example/job/1" "Hiring";
       titled "gupy" "https://a.example/job/2" "Estagio em Desenvolvimento" ].

Lemma filter_by_skills_witness :
  columns df_sources ≠ [] ∧
  ¬ Forall (fun s => strip s = []) [py " python "; py "django"; py ""] ∧
  rows (@filter_by_skills simple_builtins df_sources [py " python "; py "django"; py ""])
  = [titled "post_twitter" "https://a.example/job/1" "Vaga Django REST"] ∧
  ∃ mask : gmap string Cell → bool,
    rows (@filter_by_skills simple_builtins df_sources
            [py " python "; py "django"; py ""])
    = List.filter mask (rows df_sources) ∧
    ∀ r, mask r = true ↔
         ∃ s col t, s ∈ [py " python "; py "django"; py ""] ∧ strip s ≠ [] ∧
                    col ∈ ["titulo"; "descricao"] ∧ col ∈ columns df_sources ∧
                    @cell_text simple_builtins (get r col) t ∧
                    @ReFacts.occurs_ci simple_builtins (strip s) t.
Proof.
  assert (columns df_sources ≠ []) as Hc by done.
  assert (¬ Forall (fun s => strip s = []) [py " python "; py "django"; py ""]) as Hs.
  { intros H. apply Forall_cons in H as [H _]. vm_compute in H. discriminate H. }
  split; [exact Hc|]. split; [exact Hs|]. split; [reflexivity|].
  exact (proj2 (proj2 (proj2 (proj2 (@filter_by_skills_keeps_matching simple_builtins
           df_sources [py " python "; py "django"; py ""]))) Hc Hs)).
Defined.

Definition one_title (titulo : string) : DataFrame :=
  Df ["titulo"] [<["titulo" := CStr (py titulo)]> ∅].

(** C7, as stated, fails: an entry of the list is not searched as it is
    written. The row titled [Python] is kept for the entry [ python], which
    does not occur in it; and the row titled [Java] goes although the empty
    entry occurs in every text. *)
Lemma skill_entries_are_trimmed :
  @filter_by_skills simple_builtins (one_title "Python") [py " python"]
  = one_title "Python" ∧
  ¬ @ReFacts.occurs_ci simple_builtins (py " python") (py "Python") ∧
  rows (@filter_by_skills simple_builtins (one_title "Java") [py "python"; py ""]) = [] ∧
  @ReFacts.occurs_ci simple_builtins (py "") (py "Java").
Proof.
  split; [reflexivity|]. split; [|split; [reflexivity|]].
  - intros (pre & mid & post & Ht & Hm). apply Forall2_length in Hm.
    apply (f_equal length) in Ht. rewrite !length_app, Hm in Ht.
    change (length (py "Python")) with 6%nat in Ht.
    change (length (py " python")) with 7%nat in Ht. lia.
  - exists [], [], (py "Java"). split; [done|constructor].
Qed.

Lemma filter_by_seniority_witness :
  [py "Senior"; py "expert"] ≠ [] ∧
  Forall (fun level => level ∉ vocabulary) [py "Senior"; py "expert"] ∧
  @filter_by_seniority simple_builtins df_sources [py "Senior"; py "expert"] = df_sources.
Proof.
  assert (Forall (fun level => level ∉ vocabulary) [py "Senior"; py "expert"]) as Hall.
  { repeat constructor; intros H; vm_compute in H;
      repeat (apply elem_of_cons in H as [H|H]; [discriminate H|]);
      by apply elem_of_nil in H. }
  split; [done|]. split; [exact Hall|].
  apply (@filter_by_seniority_unknown_levels simple_builtins df_sources
           [py "Senior"; py "expert"]); [done|exact Hall].
Defined.

Lemma dedup_stage_witness :
  has_column "link" df_sources = true ∧
  rows (dedup_stage df_sources)
  = [ titled "gupy" "https://a.example/job/1" "Engenheiro Senior Backend";
      titled "gupy" "https://a.example/job/2" "Estagio em Desenvolvimento";
      titled "post_twitter" "https://a.example/job/1" "Vaga Django REST" ] ∧
  first_occurrences [] (job_rows df_sources) ++ first_occurrences [] (post_rows df_sources)
  = [ titled "gupy" "https://a.example/job/1" "Engenheiro Senior Backend";
      titled "gupy" "https://a.example/job/2" "Estagio em Desenvolvimento";
      titled "post_twitter" "https://a.example/job/1" "Vaga Django REST" ] ∧
  length (with_link (CStr (py "https://a.example/job/1")) (rows (dedup_stage df_sources)))
  = 2.
Proof.
  destruct (dedup_stage_keeps_first_per_partition df_sources eq_refl)
    as (Hrows & _ & _ & Hcount).
  split; [reflexivity|]. split; [reflexivity|]. split; [by rewrite <- Hrows|].
  rewrite Hcount. reflexivity.
Defined.

(** The scenarios of the specification, run. *)
Definition described (titulo descricao : pystr) : gmap string Cell :=
  <["titulo" := CStr titulo]> (<["descricao" := CStr descricao]> ∅).

Definition df_scenarios : DataFrame :=
  Df ["titulo"; "descricao"]
     [ described (py "Engenheiro S" ++ [234] ++ py "nior Backend") (py "Django REST");
       described (py "Est" ++ [225] ++ py "gio em Desenvolvimento") (py "Suporte") ]%N.

Example skills_scenario :
  rows (@filter_by_skills simple_builtins df_scenarios [py "python"; py "django"])
  = [described (py "Engenheiro S" ++ [234] ++ py "nior Backend") (py "Django REST")]%N.
Proof. by vm_compute. Qed.

Example seniority_scenario :
  rows (@filter_by_seniority simple_builtins df_scenarios [py "senior"])
  = [described (py "Engenheiro S" ++ [234] ++ py "nior Backend") (py "Django REST")]%N
  ∧ rows (@filter_by_seniority simple_builtins df_scenarios [py "trainee"])
    = [described (py "Est" ++ [225] ++ py "gio em Desenvolvimento") (py "Suporte")]%N.
Proof. split; by vm_compute. Qed.

End FiltersFacts.

(** ** Properties of the enrichment *)

Module RecruiterFacts.
Import Recruiter.

Lemma head_filter_Some {A} (f : A → bool) (l : list A) (e : A) :
  head (List.filter f l) = Some e ↔
  ∃ l1 l2, l = l1 ++ e :: l2 ∧ Forall (fun x => f x = false) l1 ∧ f e = true.
Proof.
  induction l as [|x l IH]; simpl.
  - split; [done|]. intros (l1 & l2 & H & _). by destruct l1.
  - destruct (f x) eqn:E; simpl.
    + split.
      * intros [= ->]. exists [], l. by split_and!.
      * intros (l1 & l2 & H & Hall & He). destruct l1 as [|y l1].
        -- by inversion H.
        -- inversion H; subst. inversion Hall; subst. congruence.
    + rewrite IH. split.
      * intros (l1 & l2 & -> & Hall & He). exists (x :: l1), l2.
        split_and!; [done|by constructor|done].
      * intros (l1 & l2 & H & Hall & He). destruct l1 as [|y l1].
        -- inversion H; subst. congruence.
        -- inversion H; subst. inversion Hall; subst. by exists l1, l2.
Qed.

Lemma head_filter_None {A} (f : A → bool) (l : list A) :
  head (List.filter f l) = None ↔ Forall (fun x => f x = false) l.
Proof.
  induction l as [|x l IH]; simpl; [by split|].
  destruct (f x) eqn:E; simpl.
  - split; [done|]. intros H. inversion H; subst. congruence.
  - rewrite IH. split; [by constructor|]. intros H. by inversion H.
Qed.

Section Enrich.
Context {B : Builtins}.

Lemma findall_empty : findall true _EMAIL_RE [] = [].
Proof. reflexivity. Qed.

(** What the enrichment makes of one row of a frame with columns [cols]. *)
Definition enrich_row (cols : list string) (r : gmap string Cell) : gmap string Cell :=
  let r' := <["nome_recrutador" := of_option (_get_name r)]>
              (<["email_recrutador" := of_option (_get_email r)]> r) in
  if bool_decide ("emails" ∈ cols) then delete "emails" r' else r'.

Lemma _get_name_insert_email r v :
  _get_name (<["email_recrutador" := v]> r) = _get_name r.
Proof.
  unfold _get_name, description_text, get. by rewrite lookup_insert_ne.
Qed.

Lemma enrich_rows df :
  rows (enrich_recruiter_info df) = enrich_row (columns df) <$> rows df.
Proof.
  unfold enrich_recruiter_info.
  set (d1 := assign "email_recrutador" _ df).
  set (d2 := assign "nome_recrutador" _ d1).
  assert (has_column "emails" d2 = bool_decide ("emails" ∈ columns df)) as Hc.
  { unfold has_column, d2, d1, assign. cbn [columns].
    apply bool_decide_ext.
    destruct (has_column "nome_recrutador" _), (has_column "email_recrutador" df);
      rewrite ?elem_of_app, ?list_elem_of_singleton; intuition discriminate. }
  rewrite Hc. unfold enrich_row.
  destruct (bool_decide ("emails" ∈ columns df)); unfold d2, d1, drop, assign;
    cbn [rows]; rewrite ?List.map_map; apply map_ext; intros r;
    by rewrite _get_name_insert_email.
Qed.

Lemma enrich_row_other cols r c :
  c ∉ ["email_recrutador"; "nome_recrutador"; "emails"] →
  enrich_row cols r !! c = r !! c.
Proof.
  rewrite !not_elem_of_cons. intros (H1 & H2 & H3 & _). unfold enrich_row.
  destruct (bool_decide ("emails" ∈ cols));
    rewrite ?lookup_delete_ne, ?lookup_insert_ne; done.
Qed.

(** C9. The enrichment of a posting depends on the posting alone: the row
    made of [P] is the same in [enrich([P])], in [enrich([P, P])] and at any
    place among other rows. Apart from [email_recrutador] and
    [nome_recrutador], which are set, and [emails], which is removed with its
    column, every field of a row is as it was. *)
Theorem enrich_depends_on_own_row (cols : list string) (P : gmap string Cell) :
  rows (enrich_recruiter_info (Df cols [P])) !! 0%nat
  = rows (enrich_recruiter_info (Df cols [P; P])) !! 0%nat ∧
  (∀ before after,
     rows (enrich_recruiter_info (Df cols (before ++ P :: after))) !! length before
     = rows (enrich_recruiter_info (Df cols [P])) !! 0%nat) ∧
  (∃ P', rows (enrich_recruiter_info (Df cols [P])) = [P'] ∧
         (∀ c, c ∉ ["email_recrutador"; "nome_recrutador"; "emails"] →
               P' !! c = P !! c) ∧
         P' !! "email_recrutador" = Some (of_option (_get_email P)) ∧
         P' !! "nome_recrutador" = Some (of_option (_get_name P)) ∧
         ("emails" ∈ cols → P' !! "emails" = None) ∧
         ("emails" ∉ cols → P' !! "emails" = P !! "emails")) ∧
  (∀ df, length (rows (enrich_recruiter_info df)) = length (rows df)) ∧
  (∀ df, "emails" ∉ columns (enrich_recruiter_info df)).
Proof.
  split_and!.
  - by rewrite !enrich_rows.
  - intros before after. rewrite !enrich_rows. cbn [rows columns].
    rewrite fmap_app, fmap_cons.
    rewrite lookup_app_r by (by rewrite length_fmap).
    by rewrite length_fmap, Nat.sub_diag.
  - exists (enrich_row cols P). rewrite enrich_rows. split_and!; [done|..].
    + intros c Hc. by apply enrich_row_other.
    + unfold enrich_row. destruct (bool_decide ("emails" ∈ cols));
        rewrite ?lookup_delete_ne by done;
        by rewrite lookup_insert_ne, lookup_insert_eq.
    + unfold enrich_row. destruct (bool_decide ("emails" ∈ cols));
        rewrite ?lookup_delete_ne by done; by rewrite lookup_insert_eq.
    + intros Hc. unfold enrich_row. rewrite (bool_decide_eq_true_2 _ Hc).
      apply lookup_delete_eq.
    + intros Hc. unfold enrich_row. rewrite (bool_decide_eq_false_2 _ Hc).
      by rewrite !lookup_insert_ne.
  - intros df. by rewrite enrich_rows, length_fmap.
  - intros df. unfold enrich_recruiter_info.
    set (d2 := assign "nome_recrutador" _ _).
    destruct (has_column "emails" d2) eqn:E.
    + unfold drop. cbn [columns]. rewrite list_elem_of_In, filter_In.
      intros [_ H]. by rewrite bool_decide_eq_true_2 in H.
    + unfold has_column in E. by apply bool_decide_eq_false in E.
Qed.

Lemma _extract_email_Some text e :
  _extract_email_from_text text = Some e ↔
  ∃ l1 l2, findall true _EMAIL_RE text = l1 ++ e :: l2 ∧
           Forall (fun x => is_image x = true) l1 ∧ is_image e = false.
Proof.
  assert (head (List.filter (fun x => negb (is_image x)) (findall true _EMAIL_RE text))
          = _extract_email_from_text text) as <-.
  { destruct text; [by rewrite findall_empty|done]. }
  rewrite head_filter_Some. split; intros (l1 & l2 & H & Hall & He); exists l1, l2;
    (split_and!; [done| |]).
  - eapply Forall_impl; [exact Hall|]. intros x. apply negb_false_iff.
  - by apply negb_true_iff.
  - eapply Forall_impl; [exact Hall|]. intros x. apply negb_false_iff.
  - by apply negb_true_iff.
Qed.

Lemma _extract_email_None text :
  _extract_email_from_text text = None ↔
  Forall (fun x => is_image x = true) (findall true _EMAIL_RE text).
Proof.
  assert (head (List.filter (fun x => negb (is_image x)) (findall true _EMAIL_RE text))
          = _extract_email_from_text text) as <-.
  { destruct text; [by rewrite findall_empty|done]. }
  rewrite head_filter_None. split; intros Hall;
    (eapply Forall_impl; [exact Hall|]); intros x; apply negb_false_iff.
Qed.

(** C6, as the code has it. [recruiter_email] is the text of the hint with
    the white space around it removed whenever the hint is true as a
    condition and its text is none of the empty text, [nan] and [None];
    otherwise it is the first email-shaped match in the description that does
    not end in [.png], [.jpg], [.gif] or [.svg], and null when there is none.
    A description with [jane@acme.com] and [logo@cdn.example.png] gives
    [jane@acme.com], in either order. *)
Theorem recruiter_email_hint_then_description (r : gmap string Cell) :
  (truthy (get r "emails") = true →
   str_ (get r "emails") ∉ [py ""; py "nan"; py "None"] →
   _get_email r = Some (strip (str_ (get r "emails")))) ∧
  (truthy (get r "emails") = false ∨ str_ (get r "emails") ∈ [py ""; py "nan"; py "None"] →
   _get_email r = _extract_email_from_text (description_text r)) ∧
  (∀ text e,
     _extract_email_from_text text = Some e ↔
     ∃ l1 l2, findall true _EMAIL_RE text = l1 ++ e :: l2 ∧
              Forall (fun x => is_image x = true) l1 ∧ is_image e = false) ∧
  (∀ text,
     _extract_email_from_text text = None ↔
     Forall (fun x => is_image x = true) (findall true _EMAIL_RE text)) ∧
  (∀ text e suf,
     _extract_email_from_text text = Some e →
     suf ∈ [py ".png"; py ".jpg"; py ".gif"; py ".svg"] → endswith suf e = false) ∧
  (∀ cols, ∃ r', rows (enrich_recruiter_info (Df cols [r])) = [r'] ∧
                 get r' "email_recrutador" = of_option (_get_email r)) ∧
  _extract_email_from_text (py "jane@acme.com logo@cdn.example.png")
  = Some (py "jane@acme.com") ∧
  _extract_email_from_text (py "logo@cdn.example.png jane@acme.com")
  = Some (py "jane@acme.com").
Proof.
  split_and!.
  - intros Ht Hs. unfold _get_email. rewrite Ht.
    by rewrite (bool_decide_eq_false_2 _ Hs).
  - intros [Ht|Hs]; unfold _get_email.
    + by rewrite Ht.
    + by rewrite (bool_decide_eq_true_2 _ Hs), andb_false_r.
  - apply _extract_email_Some.
  - apply _extract_email_None.
  - intros text e suf He Hsuf.
    apply _extract_email_Some in He as (_ & _ & _ & _ & He).
    unfold is_image in He.
    destruct (endswith suf e) eqn:E; [|done].
    assert (existsb (fun suf => endswith suf e) image_suffixes = true) as Hex;
      [|by rewrite Hex in He].
    apply existsb_exists. exists suf. split; [|done]. by apply list_elem_of_In.
  - intros cols. exists (enrich_row cols r). rewrite enrich_rows. split; [done|].
    unfold enrich_row, get. destruct (bool_decide ("emails" ∈ cols));
      rewrite ?lookup_delete_ne by done;
      by rewrite lookup_insert_ne, lookup_insert_eq.
  - by vm_compute.
  - by vm_compute.
Qed.

End Enrich.

(** A frame of one posting with a contact hint and a description. *)
Definition hinted (hint description : string) : DataFrame :=
  Df ["emails"; "descricao"]
     [ <["emails" := CStr (py hint)]> (<["descricao" := CStr (py description)]> ∅) ].

Definition emails_of (df : DataFrame) : list Cell :=
  List.map (fun r => get r "email_recrutador") (rows df).

(** C6, as stated, fails: a hint that is present and not empty is not copied
    as it is (the white space around it goes), and a hint that reads [None]
    is passed over for the description. *)
Lemma recruiter_email_is_not_the_raw_hint :
  emails_of (@enrich_recruiter_info simple_builtins (hinted " jane@acme.com " ""))
  = [CStr (py "jane@acme.com")] ∧
  CStr (py "jane@acme.com") ≠ CStr (py " jane@acme.com ") ∧
  emails_of (@enrich_recruiter_info simple_builtins (hinted "None" "bob@acme.com"))
  = [CStr (py "bob@acme.com")].
Proof. split_and!; [by vm_compute|by vm_compute|by vm_compute]. Qed.

End RecruiterFacts.

(** ** Properties of the history *)

Module DatabaseFacts.
Import Database.
Local Close Scope N_scope.

(** The links stored in a table, NULL included. *)
Definition links (t : list vaga) : list (option pystr) := v_link <$> t.

Lemma conflicts_true t v :
  conflicts t v = true ↔ ∃ x, v_link v = Some x ∧ Some x ∈ links t.
Proof.
  unfold conflicts, links. destruct (v_link v) as [x|].
  - rewrite existsb_exists. split.
    + intros (w & Hw & Hx). apply bool_decide_eq_true in Hx.
      exists x. split; [done|]. rewrite <- Hx. apply list_elem_of_fmap.
      exists w. split; [done|]. by apply list_elem_of_In.
    + intros (y & [= <-] & Hin). apply list_elem_of_fmap in Hin as (w & Hx & Hw).
      exists w. split; [by apply list_elem_of_In|]. by apply bool_decide_eq_true.
  - split; [done|]. by intros (x & ? & _).
Qed.

Lemma conflicts_app t added v :
  conflicts t v = true → conflicts (t ++ added) v = true.
Proof.
  rewrite !conflicts_true. intros (x & Hx & Hin). exists x. split; [done|].
  unfold links. rewrite fmap_app. apply elem_of_app. by left.
Qed.

Section Save.
Context {B : Builtins}.

Lemma params_Ok r term coleta v :
  params r term coleta = Ok v →
  v_link v = _str (get r "link") ∧
  v_termo_busca v = term ∧ v_data_coleta v = coleta ∧
  (∃ smin, _float (get r "salario_min") = Ok smin ∧ v_salario_min v = bind_real smin) ∧
  (∃ smax, _float (get r "salario_max") = Ok smax ∧ v_salario_max v = bind_real smax).
Proof.
  unfold params. destruct (_float (get r "salario_min")) as [smin|e] eqn:E1; [|done].
  destruct (_float (get r "salario_max")) as [smax|e] eqn:E2; [|done].
  cbn. intros [= <-]. cbn. eauto 10.
Qed.

(** Whether a row is stored does not depend on the search term or the clock. *)
Lemma params_any_stamp r term coleta term' coleta' v :
  params r term coleta = Ok v →
  ∃ v', params r term' coleta' = Ok v' ∧ v_link v' = v_link v ∧
        row_texts v' = row_texts v.
Proof.
  unfold params. destruct (_float (get r "salario_min")) as [smin|e]; [|done].
  destruct (_float (get r "salario_max")) as [smax|e]; [|done].
  cbn. intros [= <-]. eexists. split; [done|]. done.
Qed.

(** The row as the insert statement takes it: the parameters, when building
    them does not raise and they can be bound. *)
Definition bound (r : gmap string Cell) (term coleta : pystr) : result vaga :=
  v ← params r term coleta;
  if bindable v then Ok v else Raise UnicodeEncodeError.

Lemma bound_Ok r term coleta v :
  bound r term coleta = Ok v ↔ params r term coleta = Ok v ∧ bindable v = true.
Proof.
  unfold bound. destruct (params r term coleta) as [w|e]; cbn.
  - destruct (bindable w) eqn:E; split.
    + by intros [= ->].
    + by intros [[= ->] _].
    + done.
    + intros [[= ->] H]. congruence.
  - split; [done|]. by intros [? _].
Qed.

Lemma save_row_bound term coleta acc r :
  save_row term coleta acc r
  = match bound r term coleta with
    | Ok v => if conflicts acc.1 v then acc else (acc.1 ++ [v], S acc.2)
    | Raise _ => acc
    end.
Proof.
  unfold save_row, bound, execute_insert, insert_or_ignore.
  destruct (params r term coleta) as [v|e]; cbn; [|done].
  destruct (bindable v); cbn; [|done]. destruct acc as [t n]. cbn.
  by destruct (conflicts t v).
Qed.

Lemma save_row_Ok term coleta t n r v :
  bound r term coleta = Ok v →
  save_row term coleta (t, n) r
  = if conflicts t v then (t, n) else (t ++ [v], S n).
Proof. intros Hp. by rewrite save_row_bound, Hp. Qed.

Lemma save_row_Raise term coleta acc r e :
  bound r term coleta = Raise e → save_row term coleta acc r = acc.
Proof. intros Hp. by rewrite save_row_bound, Hp. Qed.

(** The loop of [save_jobs] from a table [t] and a count [n]: it appends the
    rows it inserts and counts them. *)
Lemma save_rows_spec term coleta l t n :
  ∃ added,
    foldl (save_row term coleta) (t, n) l = (t ++ added, n + length added) ∧
    (∀ v, v ∈ added → ∃ r, r ∈ l ∧ bound r term coleta = Ok v) ∧
    (∀ r v, r ∈ l → bound r term coleta = Ok v → v_link v ≠ None →
            conflicts (t ++ added) v = true) ∧
    (∀ x, Some x ∈ links added → Some x ∉ links t) ∧
    NoDup (omap v_link added).
Proof.
  revert t n. induction l as [|r l IH]; intros t n.
  { exists []. rewrite app_nil_r, Nat.add_0_r. split_and!; try done.
    - intros v Hv. by apply elem_of_nil in Hv.
    - intros r v Hr. by apply elem_of_nil in Hr.
    - intros x Hx. by apply elem_of_nil in Hx.
    - constructor. }
  cbn [foldl]. destruct (bound r term coleta) as [v|e] eqn:Hp.
  - rewrite (save_row_Ok _ _ _ _ _ _ Hp). destruct (conflicts t v) eqn:Hc.
    + destruct (IH t n) as (added & Hf & H1 & H2 & H3 & H4). exists added.
      split_and!; [done| | |done|done].
      * intros w Hw. destruct (H1 w Hw) as (r' & Hr' & Hp'). exists r'.
        split; [by right|done].
      * intros r' w Hr' Hp' Hl. apply elem_of_cons in Hr' as [->|Hr'].
        -- rewrite Hp in Hp'. injection Hp' as <-. by apply conflicts_app.
        -- by eapply H2.
    + destruct (IH (t ++ [v]) (S n)) as (added & Hf & H1 & H2 & H3 & H4).
      exists (v :: added). rewrite Hf, <- app_assoc. cbn [app length].
      split_and!.
      * f_equal. lia.
      * intros w Hw. apply elem_of_cons in Hw as [->|Hw].
        -- exists r. split; [left|done].
        -- destruct (H1 w Hw) as (r' & Hr' & Hp'). exists r'. split; [by right|done].
      * intros r' w Hr' Hp' Hl. apply elem_of_cons in Hr' as [->|Hr'].
        -- rewrite Hp in Hp'. injection Hp' as <-.
           apply conflicts_true. destruct (v_link v) as [x|] eqn:Hx; [|done].
           exists x. split; [done|]. unfold links. rewrite fmap_app, fmap_cons.
           apply elem_of_app. right. rewrite Hx. left.
        -- specialize (H2 r' w Hr' Hp' Hl). by rewrite <- app_assoc in H2.
      * intros x Hx Hin. unfold links in Hx. rewrite fmap_cons in Hx.
        apply elem_of_cons in Hx as [Hx|Hx].
        -- assert (conflicts t v = true) as Hc'; [|by rewrite Hc' in Hc].
           apply conflicts_true. exists x. by split.
        -- apply (H3 x Hx). unfold links. rewrite fmap_app.
           apply elem_of_app. by left.
      * change (omap v_link (v :: added))
          with (match v_link v with
                | Some y => y :: omap v_link added
                | None => omap v_link added
                end).
        destruct (v_link v) as [x|] eqn:Hx; [|done].
        constructor; [|done]. intros Hin.
        apply list_elem_of_omap in Hin as (w & Hw & Hwx).
        apply (H3 x).
        -- unfold links. apply list_elem_of_fmap. by exists w.
        -- unfold links. rewrite fmap_app, fmap_cons. apply elem_of_app. right.
           rewrite Hx. left.
  - rewrite (save_row_Raise _ _ _ _ _ Hp).
    destruct (IH t n) as (added & Hf & H1 & H2 & H3 & H4). exists added.
    split_and!; [done| | |done|done].
    + intros w Hw. destruct (H1 w Hw) as (r' & Hr' & Hp'). exists r'.
      split; [by right|done].
    + intros r' w Hr' Hp' Hl. apply elem_of_cons in Hr' as [->|Hr'].
      * by rewrite Hp in Hp'.
      * by eapply H2.
Qed.

(** A count that starts at [n] ends [n] higher than one that starts at 0. *)
Lemma save_rows_count term coleta l t n :
  foldl (save_row term coleta) (t, n) l
  = ((foldl (save_row term coleta) (t, 0) l).1,
     n + (foldl (save_row term coleta) (t, 0) l).2).
Proof.
  destruct (save_rows_spec term coleta l t n) as (a1 & H1 & _).
  revert t n a1 H1. induction l as [|r l IH]; intros t n a1 H1.
  { cbn. by rewrite Nat.add_0_r. }
  cbn [foldl]. destruct (bound r term coleta) as [v|e] eqn:Hp.
  - rewrite !(save_row_Ok _ _ _ _ _ _ Hp). destruct (conflicts t v).
    + destruct (save_rows_spec term coleta l t n) as (a & Ha & _). by eapply IH.
    + destruct (save_rows_spec term coleta l (t ++ [v]) (S n)) as (a & Ha & _).
      rewrite (IH _ _ _ Ha).
      destruct (save_rows_spec term coleta l (t ++ [v]) 1) as (a' & Ha' & _).
      rewrite (IH _ 1 _ Ha'). cbn [fst snd]. f_equal. lia.
  - rewrite !(save_row_Raise _ _ _ _ _ Hp).
    destruct (save_rows_spec term coleta l t n) as (a & Ha & _). by eapply IH.
Qed.

(** Rows that all conflict with the table leave it as it is. *)
Lemma save_rows_all_conflict term coleta l t n :
  (∀ r v, r ∈ l → bound r term coleta = Ok v → conflicts t v = true) →
  foldl (save_row term coleta) (t, n) l = (t, n).
Proof.
  induction l as [|r l IH]; intros Hall; [done|]. cbn [foldl].
  destruct (bound r term coleta) as [v|e] eqn:Hp.
  - rewrite (save_row_Ok _ _ _ _ _ _ Hp), (Hall r v); [|left|done].
    apply IH. intros r' w Hr'. apply Hall. by right.
  - rewrite (save_row_Raise _ _ _ _ _ Hp).
    apply IH. intros r' w Hr'. apply Hall. by right.
Qed.

Lemma save_jobs_rows df term coleta d :
  columns df ≠ [] →
  save_jobs df term coleta d = foldl (save_row term coleta) (init_db d, 0) (rows df).
Proof.
  intros Hc. unfold save_jobs, empty.
  destruct (rows df) as [|r l]; [done|]. by destruct (columns df).
Qed.

(** C1, as the code has it. A posting without a link is not skipped for
    that: when building its parameters does not raise and they can be bound,
    [save_jobs] inserts it with a NULL link, whatever the table holds, and
    counts it. Saving the frame is saving the rows before it, inserting it,
    and saving the rows after it, and the count is the sum of the three. A
    row is skipped when it cannot be bound (a text with a surrogate code
    point): the frame is then saved as if the row were not there. *)
Theorem save_jobs_inserts_row_without_link (df : DataFrame) (term coleta : pystr)
    (d : db) (before after : list (gmap string Cell)) (r : gmap string Cell) (v : vaga) :
  columns df ≠ [] →
  rows df = before ++ r :: after →
  _str (get r "link") = None →
  params r term coleta = Ok v →
  (bindable v = true →
   ∃ t1 n1 t2 n2,
     save_jobs (Df (columns df) before) term coleta d = (t1, n1) ∧
     save_jobs (Df (columns df) after) term coleta (Some (t1 ++ [v])) = (t2, n2) ∧
     save_jobs df term coleta d = (t2, n1 + 1 + n2) ∧
     v_link v = None ∧ v ∈ t2 ∧ total t2 = total t1 + 1 + n2) ∧
  (bindable v = false →
   save_jobs df term coleta d
   = save_jobs (Df (columns df) (before ++ after)) term coleta d).
Proof.
  intros Hc Hrows Hlink Hp. split; intros Hb.
  - assert (bound r term coleta = Ok v) as Hbound by (by apply bound_Ok).
    destruct (save_rows_spec term coleta before (init_db d) 0) as (a1 & H1 & _).
    destruct (save_rows_spec term coleta after ((init_db d ++ a1) ++ [v]) 0)
      as (a2 & H2 & _).
    assert (v_link v = None) as Hv.
    { apply params_Ok in Hp as (-> & _). done. }
    exists (init_db d ++ a1), (length a1), (((init_db d ++ a1) ++ [v]) ++ a2), (length a2).
    rewrite !save_jobs_rows by done. cbn [rows init_db default].
    split_and!; [done|done| |done| |].
    + rewrite Hrows, foldl_app, H1. cbn [foldl].
      rewrite (save_row_Ok _ _ _ _ _ _ Hbound). unfold conflicts. rewrite Hv.
      rewrite save_rows_count, H2. cbn [fst snd]. f_equal. lia.
    + rewrite !elem_of_app, list_elem_of_singleton. auto.
    + unfold total. rewrite !length_app. cbn. lia.
  - assert (bound r term coleta = Raise UnicodeEncodeError) as Hbound.
    { unfold bound. rewrite Hp. cbn. by rewrite Hb. }
    rewrite !save_jobs_rows by done. cbn [rows].
    rewrite Hrows, !foldl_app. cbn [foldl].
    by rewrite (save_row_Raise _ _ _ _ _ Hbound).
Qed.

(** The link a row is stored under: [None] when the row is skipped or has no
    link. *)
Definition row_link (term coleta : pystr) (r : gmap string Cell) : option pystr :=
  match bound r term coleta with
  | Ok v => v_link v
  | Raise _ => None
  end.

(** The links of a frame that a table does not hold yet, each once. *)
Definition new_links (df : DataFrame) (term coleta : pystr) (t : list vaga) : list pystr :=
  remove_dups (filter (fun x => Some x ∉ links t) (omap (row_link term coleta) (rows df))).

Lemma encodable_bindable r term coleta term' coleta' v :
  params r term coleta = Ok v → bindable v = true →
  encodable term' = true → encodable coleta' = true →
  ∃ v', bound r term' coleta' = Ok v' ∧ v_link v' = v_link v.
Proof.
  intros Hp Hb Ht Hc.
  destruct (params_any_stamp _ _ _ term' coleta' _ Hp) as (v' & Hp' & Hl & Htx).
  exists v'. split; [|done]. apply bound_Ok. split; [done|].
  apply params_Ok in Hp' as Hs. destruct Hs as (_ & Ht' & Hc' & _).
  unfold bindable in *. rewrite Htx, Ht', Hc', Ht, Hc, !andb_true_r.
  apply andb_true_iff in Hb as [Hb _]. by apply andb_true_iff in Hb as [Hb _].
Qed.

Lemma bound_encodable r term coleta v :
  bound r term coleta = Ok v → encodable term = true ∧ encodable coleta = true.
Proof.
  intros H. apply bound_Ok in H as [Hp Hb]. apply params_Ok in Hp as (_ & <- & <- & _).
  unfold bindable in Hb. apply andb_true_iff in Hb as [Hb Hc].
  by apply andb_true_iff in Hb as [_ Ht].
Qed.

(** C2, as the code has it. When every posting of the frame has a link,
    [save_jobs] returns the number of links of its rows (those that are not
    skipped for an exception) that the table did not hold yet, and the table
    grows by that number. Saving the same frame again with the same search
    term and at the same time returns 0 and leaves the table as it is; and
    so it does with any search term and at any time, when the first search
    term and time could be bound. *)
Theorem save_jobs_twice (df : DataFrame) (term coleta : pystr) (d : db) :
  columns df ≠ [] →
  Forall (fun r => _str (get r "link") ≠ None) (rows df) →
  ∃ t n,
    save_jobs df term coleta d = (t, n) ∧
    n = length (new_links df term coleta (init_db d)) ∧
    total t = total (init_db d) + n ∧
    save_jobs df term coleta (Some t) = (t, 0) ∧
    (encodable term = true → encodable coleta = true →
     ∀ term' coleta', save_jobs df term' coleta' (Some t) = (t, 0)).
Proof.
  intros Hc Hall. rewrite Forall_forall in Hall.
  destruct (save_rows_spec term coleta (rows df) (init_db d) 0)
    as (added & Hf & H1 & H2 & H3 & H4).
  assert (∀ v, v ∈ added → v_link v ≠ None) as Hlinks.
  { intros v Hv. destruct (H1 v Hv) as (r & Hr & Hp).
    apply bound_Ok in Hp as [Hp _]. apply params_Ok in Hp as (-> & _). by apply Hall. }
  exists (init_db d ++ added), (length added).
  rewrite !save_jobs_rows by done. cbn [init_db default] in *.
  split_and!; [done| |unfold total; by rewrite length_app| |].
  - assert (length added = length (omap v_link added)) as ->.
    { clear -Hlinks. induction added as [|v added IH]; [done|].
      change (omap v_link (v :: added))
        with (match v_link v with
              | Some y => y :: omap v_link added
              | None => omap v_link added
              end).
      destruct (v_link v) eqn:E.
      - cbn [length]. f_equal. apply IH. intros w Hw. apply Hlinks. by right.
      - exfalso. apply (Hlinks v); [left|done]. }
    apply Permutation_length, NoDup_Permutation;
      [done|apply NoDup_remove_dups|]. intros x.
    unfold new_links. rewrite elem_of_remove_dups, list_elem_of_filter, !list_elem_of_omap.
    split.
    + intros (v & Hv & Hx). split.
      * apply H3. unfold links. apply list_elem_of_fmap. by exists v.
      * destruct (H1 v Hv) as (r & Hr & Hp). exists r. split; [done|].
        unfold row_link. by rewrite Hp.
    + intros (Hnew & r & Hr & Hx). unfold row_link in Hx.
      destruct (bound r term coleta) as [v|] eqn:Hp; [|done].
      assert (conflicts (default [] d ++ added) v = true) as Hcf.
      { apply (H2 r v Hr Hp). by rewrite Hx. }
      apply conflicts_true in Hcf as (y & Hy & Hin).
      assert (y = x) as -> by congruence.
      unfold links in Hin. rewrite fmap_app in Hin.
      apply elem_of_app in Hin as [Hin|Hin]; [done|].
      apply list_elem_of_fmap in Hin as (w & Hw & Hin). by exists w.
  - apply save_rows_all_conflict. intros r v Hr Hp.
    apply (H2 r v Hr Hp). apply bound_Ok in Hp as [Hp _].
    apply params_Ok in Hp as (-> & _). by apply Hall.
  - intros Ht Hco term' coleta'. rewrite save_jobs_rows by done. cbn [init_db default].
    apply save_rows_all_conflict. intros r v' Hr Hp'.
    destruct (bound_encodable _ _ _ _ Hp') as [Ht' Hco'].
    apply bound_Ok in Hp' as [Hp' Hb'].
    destruct (encodable_bindable _ _ _ term coleta _ Hp' Hb' Ht Hco) as (v & Hp & Hv).
    assert (conflicts (default [] d ++ added) v = true) as Hcf.
    { apply (H2 r v Hr Hp). rewrite Hv. apply params_Ok in Hp' as (-> & _). by apply Hall. }
    unfold conflicts in *. by rewrite <- Hv.
Qed.


End Save.

(** *** Closed examples *)

Definition posting (link smin smax : Cell) : gmap string Cell :=
  <["link" := link]> (<["titulo" := CStr (py "Dev")]>
  (<["salario_min" := smin]> (<["salario_max" := smax]> ∅))).

Definition history_columns : list string :=
  ["link"; "titulo"; "salario_min"; "salario_max"].

(** Two postings without a link: one has none, the other a blank one. *)
Definition df_no_link : DataFrame :=
  Df history_columns [posting CNone CNone CNone; posting (CStr (py "  ")) CNone CNone].

(** C1, as stated, fails: both postings without a link are inserted, with a
    NULL link, and counted. *)
Lemma rows_without_link_are_inserted :
  let '(t, n) := @save_jobs simple_builtins df_no_link (py "python")
                            (py "2024-05-01 10:00:00") None in
  n = 2 ∧ total t = 2 ∧ v_link <$> t = [None; None].
Proof. by vm_compute. Qed.

(** C2, as stated, fails: saving the same postings again inserts them again. *)
Lemma saving_twice_inserts_twice :
  let '(t, n) := @save_jobs simple_builtins df_no_link (py "python")
                            (py "2024-05-01 10:00:00") None in
  let '(t', n') := @save_jobs simple_builtins df_no_link (py "python")
                              (py "2024-05-01 10:00:00") (Some t) in
  n = 2 ∧ n' = 2 ∧ total t = 2 ∧ total t' = 4.
Proof. by vm_compute. Qed.



(** The row [save_jobs] stores for the first posting of [df_no_link]. *)
Definition stored_no_link : vaga :=
  {| v_link := None; v_site := None; v_titulo := Some (py "Dev"); v_empresa := None;
     v_localizacao := None; v_remoto := 0; v_tipo_vaga := None;
     v_salario_min := None; v_salario_max := None; v_moeda := None;
     v_data_postagem := None; v_email_recrutador := None; v_nome_recrutador := None;
     v_termo_busca := py "python"; v_data_coleta := py "2024-05-01 10:00:00" |}.

(** A posting without a link whose title holds a surrogate code point, and
    the row its parameters make. *)
Definition posting_surrogate : gmap string Cell :=
  <["titulo" := CStr (py "Dev " ++ [55357]%N)]> (posting CNone CNone CNone).

Definition stored_surrogate : vaga :=
  {| v_link := None; v_site := None; v_titulo := Some (py "Dev " ++ [55357]%N);
     v_empresa := None; v_localizacao := None; v_remoto := 0; v_tipo_vaga := None;
     v_salario_min := None; v_salario_max := None; v_moeda := None;
     v_data_postagem := None; v_email_recrutador := None; v_nome_recrutador := None;
     v_termo_busca := py "python"; v_data_coleta := py "2024-05-01 10:00:00" |}.

Lemma save_jobs_inserts_row_without_link_witness :
  (columns df_no_link ≠ [] ∧
   rows df_no_link
   = [] ++ posting CNone CNone CNone :: [posting (CStr (py "  ")) CNone CNone] ∧
   @_str simple_builtins (get (posting CNone CNone CNone) "link") = None ∧
   @params simple_builtins (posting CNone CNone CNone) (py "python")
           (py "2024-05-01 10:00:00") = Ok stored_no_link ∧
   bindable stored_no_link = true ∧
   ∃ t1 n1 t2 n2,
     @save_jobs simple_builtins (Df (columns df_no_link) []) (py "python")
                (py "2024-05-01 10:00:00") None = (t1, n1) ∧
     @save_jobs simple_builtins
                (Df (columns df_no_link) [posting (CStr (py "  ")) CNone CNone])
                (py "python") (py "2024-05-01 10:00:00") (Some (t1 ++ [stored_no_link]))
     = (t2, n2) ∧
     @save_jobs simple_builtins df_no_link (py "python") (py "2024-05-01 10:00:00") None
     = (t2, n1 + 1 + n2) ∧
     v_link stored_no_link = None ∧ stored_no_link ∈ t2 ∧ total t2 = total t1 + 1 + n2) ∧
  (@params simple_builtins posting_surrogate (py "python") (py "2024-05-01 10:00:00")
   = Ok stored_surrogate ∧
   bindable stored_surrogate = false ∧
   @save_jobs simple_builtins
      (Df history_columns [posting CNone CNone CNone; posting_surrogate])
      (py "python") (py "2024-05-01 10:00:00") None
   = @save_jobs simple_builtins (Df history_columns ([posting CNone CNone CNone] ++ []))
       (py "python") (py "2024-05-01 10:00:00") None ∧
   @save_jobs simple_builtins
      (Df history_columns [posting CNone CNone CNone; posting_surrogate])
      (py "python") (py "2024-05-01 10:00:00") None
   = ([stored_no_link], 1)).
Proof.
  split.
  - split; [done|]. split; [reflexivity|]. split; [reflexivity|]. split; [reflexivity|].
    split; [reflexivity|].
    apply (proj1 (@save_jobs_inserts_row_without_link simple_builtins df_no_link
             (py "python") (py "2024-05-01 10:00:00") None []
             [posting (CStr (py "  ")) CNone CNone] (posting CNone CNone CNone)
             stored_no_link ltac:(done) eq_refl eq_refl eq_refl)).
    reflexivity.
  - split; [reflexivity|]. split; [reflexivity|]. split; [|by vm_compute].
    apply (proj2 (@save_jobs_inserts_row_without_link simple_builtins
             (Df history_columns [posting CNone CNone CNone; posting_surrogate])
             (py "python") (py "2024-05-01 10:00:00") None
             [posting CNone CNone CNone] [] posting_surrogate stored_surrogate
             ltac:(done) eq_refl eq_refl eq_refl)).
    reflexivity.
Defined.

(** Three postings with links, two of them under the same one. *)
Definition df_links : DataFrame :=
  Df history_columns
     [ posting (CStr (py "https://a.example/job/1")) CNone CNone;
       posting (CStr (py "https://a.example/job/2")) (CInt 3000) (CStr (py "4500.50"));
       posting (CStr (py " https://a.example/job/1 ")) CNone CNone ].

(** The rows [save_jobs] stores for [df_links]. *)
Definition stored_link (link : string) (smin smax : option pyfloat) : vaga :=
  {| v_link := Some (py link); v_site := None; v_titulo := Some (py "Dev");
     v_empresa := None; v_localizacao := None; v_remoto := 0; v_tipo_vaga := None;
     v_salario_min := smin; v_salario_max := smax; v_moeda := None;
     v_data_postagem := None; v_email_recrutador := None; v_nome_recrutador := None;
     v_termo_busca := py "python"; v_data_coleta := py "2024-05-01 10:00:00" |}.

Lemma save_jobs_twice_witness :
  columns df_links ≠ [] ∧
  Forall (fun r => @_str simple_builtins (get r "link") ≠ None) (rows df_links) ∧
  @save_jobs simple_builtins df_links (py "python") (py "2024-05-01 10:00:00") None
  = ([ stored_link "https://a.example/job/1" None None;
       stored_link "https://a.example/job/2" (Some (FFin 3000)) (Some (FFin (450050 # 100))) ],
     2) ∧
  ∃ t n,
    @save_jobs simple_builtins df_links (py "python") (py "2024-05-01 10:00:00") None
    = (t, n) ∧
    n = length (@new_links simple_builtins df_links (py "python")
                  (py "2024-05-01 10:00:00") (init_db None)) ∧
    total t = total (init_db None) + n ∧
    @save_jobs simple_builtins df_links (py "python") (py "2024-05-01 10:00:00") (Some t)
    = (t, 0) ∧
    (encodable (py "python") = true → encodable (py "2024-05-01 10:00:00") = true →
     ∀ term' coleta', @save_jobs simple_builtins df_links term' coleta' (Some t) = (t, 0)).
Proof.
  assert (Forall (fun r => @_str simple_builtins (get r "link") ≠ None) (rows df_links))
    as Hall.
  { repeat constructor; intros H; vm_compute in H; discriminate H. }
  split; [done|]. split; [exact Hall|]. split; [by vm_compute|].
  apply (@save_jobs_twice simple_builtins df_links (py "python")
           (py "2024-05-01 10:00:00") None); [done|exact Hall].
Defined.

(** The row [save_jobs] stores for the posting of [df_negative_salary]. *)
Definition stored_negative : vaga :=
  {| v_link := Some (py "https://a.example/job/1"); v_site := None;
     v_titulo := Some (py "Dev"); v_empresa := None;
     v_localizacao := None; v_remoto := 0; v_tipo_vaga := None;
     v_salario_min := Some (FFin (-5 # 1)); v_salario_max := Some (FFin (-15 # 2));
     v_moeda := None;
     v_data_postagem := None; v_email_recrutador := None; v_nome_recrutador := None;
     v_termo_busca := py "python"; v_data_coleta := py "2024-05-01 10:00:00" |}.


End DatabaseFacts.

(** ** What a match consists of *)

Module ReSound.
Local Close Scope N_scope.

(** [n] runs of a relation, one after the other. *)
Fixpoint iter (R : mstate → mstate → Prop) (n : nat) (s s' : mstate) : Prop :=
  match n with
  | O => s' = s
  | S n' => ∃ s1, R s s1 ∧ iter R n' s1 s'
  end.

(** The matcher passes text [w] between two positions, groups untouched. *)
Definition passes (w : pystr) (s s' : mstate) : Prop :=
  ahead s = w ++ ahead s' ∧ behind s' = rev w ++ behind s ∧ caps s' = caps s.

Section Sound.
Context {B : Builtins}.

(** [den ic r s s']: the pattern [r] can take the matcher from [s] to [s']. *)
Fixpoint den (ic : bool) (r : regex) (s s' : mstate) : Prop :=
  match r with
  | Eps => s' = s
  | Lit l => ∃ w, passes w s s' ∧ Forall2 (fun c x => char_eq ic c x = true) w l
  | In_ cs => ∃ c, passes [c] s s' ∧ cs_match ic cs c = true
  | Cat r1 r2 => ∃ s1, den ic r1 s s1 ∧ den ic r2 s1 s'
  | Or r1 r2 => den ic r1 s s' ∨ den ic r2 s s'
  | Many lo hi cs =>
      ∃ w, passes w s s' ∧ Forall (fun c => cs_match ic cs c = true) w ∧ lo ≤ length w
  | Upto lo hi r' => ∃ n, lo ≤ n ≤ hi ∧ iter (den ic r') n s s'
  | Group i r' =>
      ∃ s1, den ic r' s s1 ∧
            s' = MState (behind s1) (ahead s1) ((i, consumed s s1) :: caps s1)
  | Boundary => s' = s ∧ at_boundary s = true
  end.

Lemma many_sound {A} ic cs lo hi (k : mstate → option A) n bh ah g x :
  many ic cs lo hi k n bh ah g = Some x →
  ∃ w rest, ah = w ++ rest ∧ Forall (fun c => cs_match ic cs c = true) w ∧
            lo ≤ n + length w ∧ k (MState (rev w ++ bh) rest g) = Some x.
Proof.
  revert n bh. induction ah as [|c ah IH]; intros n bh H.
  - cbn in H. destruct (lo <=? n) eqn:E; [|done]. apply Nat.leb_le in E.
    exists [], []. split_and!; [done|constructor|cbn; lia|done].
  - cbn [many] in H.
    assert ((if lo <=? n then k (MState bh (c :: ah) g) else None) = Some x →
            ∃ w rest, c :: ah = w ++ rest ∧ Forall (fun c => cs_match ic cs c = true) w ∧
                      lo ≤ n + length w ∧ k (MState (rev w ++ bh) rest g) = Some x)
      as Hstop.
    { intros Hk. destruct (lo <=? n) eqn:E; [|done]. apply Nat.leb_le in E.
      exists [], (c :: ah). split_and!; [done|constructor|cbn; lia|done]. }
    destruct (cs_match ic cs c && _) eqn:Ec; [|by apply Hstop].
    destruct (many ic cs lo hi k (S n) (c :: bh) ah g) as [y|] eqn:Em; [|by apply Hstop].
    injection H as ->. apply IH in Em as (w & rest & -> & Hw & Hlo & Hk).
    apply andb_true_iff in Ec as [Ec _].
    exists (c :: w), rest. split_and!; [done|by constructor|cbn; lia|].
    cbn [rev]. by rewrite <- app_assoc.
Qed.

Lemma passes_refl s : passes [] s s.
Proof. by split_and!. Qed.

Theorem run_sound {A} ic r (k : mstate → option A) s x :
  run ic r k s = Some x → ∃ s', den ic r s s' ∧ k s' = Some x.
Proof.
  revert k s x. induction r as [|l|cs|r1 IH1 r2 IH2|r1 IH1 r2 IH2|lo hi cs|lo hi r IH|i r IH|];
    intros k s x H; cbn [run] in H.
  - by exists s.
  - destruct (eat ic l (behind s) (ahead s)) as [[bh ah]|] eqn:E; [|done].
    apply ReFacts.eat_Some in E as (w & Ha & Hb & Hw).
    exists (MState bh ah (caps s)). split; [|done]. exists w. by split.
  - destruct (ahead s) as [|c ah] eqn:Ea; [done|].
    destruct (cs_match ic cs c) eqn:Ec; [|done].
    exists (MState (c :: behind s) ah (caps s)). split; [|done].
    exists c. by split.
  - apply IH1 in H as (s1 & H1 & H). apply IH2 in H as (s2 & H2 & H).
    exists s2. split; [|done]. by exists s1.
  - destruct (run ic r1 k s) as [y|] eqn:E.
    + injection H as ->. apply IH1 in E as (s' & H1 & Hk).
      exists s'. split; [by left|done].
    + apply IH2 in H as (s' & H2 & Hk). exists s'. split; [by right|done].
  - apply many_sound in H as (w & rest & Ha & Hw & Hlo & Hk).
    exists (MState (rev w ++ behind s) rest (caps s)). split; [|done].
    exists w. split_and!; [by split_and!|done|cbn in Hlo; lia].
  - set (rep := fix rep (left done : nat) (s0 : mstate) {struct left} : option A :=
         let stop := if lo <=? done then k s0 else None in
         match left with
         | O => stop
         | S left' =>
             match run ic r (rep left' (S done)) s0 with
             | Some x => Some x
             | None => stop
             end
         end) in H.
    assert (∀ left done s0 y, rep left done s0 = Some y →
            ∃ m s', iter (den ic r) m s0 s' ∧ lo ≤ done + m ∧ m ≤ left ∧ k s' = Some y)
      as Hrep.
    { induction left as [|left IHl]; intros done s0 y Hy; cbn in Hy.
      - destruct (lo <=? done) eqn:E; [|done]. apply Nat.leb_le in E.
        exists 0, s0. split_and!; [done|lia|lia|done].
      - destruct (run ic r (rep left (S done)) s0) as [z|] eqn:Er.
        + injection Hy as ->. apply IH in Er as (s1 & H1 & Hr).
          apply IHl in Hr as (m & s' & Hit & Hlo & Hm & Hk).
          exists (S m), s'. split_and!; [by exists s1|lia|lia|done].
        + destruct (lo <=? done) eqn:E; [|done]. apply Nat.leb_le in E.
          exists 0, s0. split_and!; [done|lia|lia|done]. }
    apply Hrep in H as (m & s' & Hit & Hlo & Hm & Hk).
    exists s'. split; [|done]. exists m. split; [lia|done].
  - apply IH in H as (s1 & H1 & Hk). eexists. split; [|exact Hk]. by exists s1.
  - destruct (at_boundary s) eqn:E; [|done]. exists s. by split.
Qed.

Lemma match_here_sound ic r bh ah s' :
  match_here ic r bh ah = Some s' → den ic r (MState bh ah []) s'.
Proof.
  unfold match_here. intros H. apply run_sound in H as (s1 & H & [= ->]). done.
Qed.

(** A pattern without groups leaves the captured groups as they are. *)
Fixpoint group_free (r : regex) : bool :=
  match r with
  | Cat r1 r2 | Or r1 r2 => group_free r1 && group_free r2
  | Upto _ _ r' => group_free r'
  | Group _ _ => false
  | _ => true
  end.

Lemma den_group_free ic r s s' :
  group_free r = true → den ic r s s' → caps s' = caps s.
Proof.
  revert s s'. induction r as [|l|cs|r1 IH1 r2 IH2|r1 IH1 r2 IH2|lo hi cs|lo hi r IH|i r IH|];
    intros s s' Hg H; cbn [den group_free] in *.
  - by subst.
  - by destruct H as (w & (_ & _ & ?) & _).
  - by destruct H as (c & (_ & _ & ?) & _).
  - apply andb_true_iff in Hg as [Hg1 Hg2]. destruct H as (s1 & H1 & H2).
    rewrite (IH2 _ _ Hg2 H2). by apply IH1.
  - apply andb_true_iff in Hg as [Hg1 Hg2]. destruct H as [H|H]; auto.
  - by destruct H as (w & (_ & _ & ?) & _).
  - destruct H as (n & _ & H). revert s H. induction n as [|n IHn]; intros s H; cbn in H.
    + by subst.
    + destruct H as (s1 & H1 & H). rewrite (IHn _ H). by apply IH.
  - done.
  - by destruct H as [-> _].
Qed.

End Sound.

End ReSound.

(** ** White space and letter case *)

Module UnicodeFacts.

Section Facts.
Context {B : Builtins}.

Definition spaces : list N :=
  [9; 10; 11; 12; 13; 28; 29; 30; 31; 32; 133; 160; 5760; 8192; 8193; 8194; 8195; 8196;
   8197; 8198; 8199; 8200; 8201; 8202; 8232; 8233; 8239; 8287; 12288].

Lemma is_space_spaces c : is_space c = true → c ∈ spaces.
Proof.
  unfold is_space. rewrite !orb_true_iff, !andb_true_iff, !N.leb_le, !N.eqb_eq.
  intros H. unfold spaces. rewrite !elem_of_cons. lia.
Qed.

(** White space is its own lower case. *)
Lemma lower_space c : is_space c = true → lower c = c.
Proof.
  intros H. unfold lower. destruct (c <? 256) eqn:E; [|by apply lower_high_space].
  apply is_space_spaces in H. unfold spaces in H.
  rewrite !elem_of_cons, elem_of_nil in H. apply N.ltb_lt in E.
  assert (c ∈ [9; 10; 11; 12; 13; 28; 29; 30; 31; 32; 133; 160]) as Hc.
  { rewrite !elem_of_cons. lia. }
  repeat (apply elem_of_cons in Hc as [->|Hc]; [reflexivity|]). by apply elem_of_nil in Hc.
Qed.

(** A set that holds no white space does not match white space, letter case
    ignored or not. *)
Lemma space_not_matched cs c :
  forallb (fun d => negb (existsb (fun it => item_match true it d) cs)) spaces = true →
  is_space c = true → cs_match true cs c = false.
Proof.
  intros Hall Hc. unfold cs_match. rewrite (lower_space c Hc).
  rewrite forallb_forall in Hall. apply is_space_spaces, list_elem_of_In, Hall in Hc.
  apply negb_true_iff in Hc. by destruct (existsb item_cased cs).
Qed.

(** The lower-case code points a set compiled to ignore case holds. *)
Definition item_codes (it : cset_item) : list N :=
  match it with
  | CChar x => folds x
  | CRange lo hi => flat_map folds (range_codes lo hi)
  | CSpace | CDigit => []
  end.

Definition set_codes (cs : list cset_item) : list N := flat_map item_codes cs.

Definition plain_item (it : cset_item) : bool :=
  match it with
  | CChar _ | CRange _ _ => true
  | CSpace | CDigit => false
  end.

Lemma cs_match_codes cs c :
  forallb plain_item cs = true → existsb item_cased cs = true →
  cs_match true cs c = true → lower c ∈ set_codes cs.
Proof.
  intros Hplain Hcased. unfold cs_match. rewrite Hcased.
  rewrite existsb_exists. intros (it & Hit & Hm).
  rewrite forallb_forall in Hplain. specialize (Hplain it Hit).
  unfold set_codes. apply list_elem_of_In, in_flat_map. exists it. split; [done|].
  destruct it as [x|lo hi| |]; try done; cbn [item_match item_codes] in *.
  - apply bool_decide_eq_true in Hm. by apply list_elem_of_In.
  - apply existsb_exists in Hm as (x & Hx & Hm). apply bool_decide_eq_true in Hm.
    apply in_flat_map. exists x. split; [done|]. by apply list_elem_of_In.
Qed.

End Facts.

End UnicodeFacts.

(** ** Properties of the recruiter name *)

Module NameFacts.
Import Recruiter ReSound UnicodeFacts.
Local Close Scope N_scope.

Section Names.
Context {B : Builtins}.

(** *** Alternation and search *)

(** An alternation matches as its first branch that matches does. *)
Lemma match_here_alts_Some ic rs bh ah s' :
  match_here ic (alts rs) bh ah = Some s' →
  rs ≠ [] →
  ∃ i r, rs !! i = Some r ∧ match_here ic r bh ah = Some s' ∧
         ∀ j r', j < i → rs !! j = Some r' → match_here ic r' bh ah = None.
Proof.
  unfold match_here. induction rs as [|r rs IH]; [done|]. intros H _.
  destruct rs as [|r2 rs].
  - exists 0, r. split_and!; [done|done|]. intros j r' Hj. lia.
  - change (alts (r :: r2 :: rs)) with (Or r (alts (r2 :: rs))) in H.
    cbn [run] in H. destruct (run ic r Some (MState bh ah [])) as [y|] eqn:E.
    + injection H as ->. exists 0, r. split_and!; [done|done|]. intros j r' Hj. lia.
    + destruct (IH H) as (i & r0 & Hi & Hm & Hfirst); [done|].
      exists (S i), r0. split_and!; [done|done|].
      intros [|j] r' Hj Hr'.
      * cbn in Hr'. by injection Hr' as <-.
      * apply (Hfirst j); [lia|done].
Qed.

Lemma match_here_alts_None ic rs bh ah :
  rs ≠ [] →
  match_here ic (alts rs) bh ah = None ↔
  ∀ r, r ∈ rs → match_here ic r bh ah = None.
Proof.
  intros Hrs. rewrite eq_None_not_Some, (ReFacts.match_here_alts _ _ _ _ Hrs). split.
  - intros Hno r Hr. apply eq_None_not_Some. intros Hs. apply Hno. by exists r.
  - intros Hall (r & Hr & Hs). rewrite (Hall r Hr) in Hs. by destruct Hs.
Qed.

Lemma search_from_None ic r bh ah :
  search_from ic r bh ah = None ↔
  ∀ pre post, ah = pre ++ post → match_here ic r (rev pre ++ bh) post = None.
Proof.
  rewrite eq_None_not_Some, ReFacts.search_from_is_Some. split.
  - intros Hno pre post Hp. apply eq_None_not_Some. intros Hs. apply Hno.
    by exists pre, post.
  - intros Hall (pre & post & Hp & Hs). rewrite (Hall pre post Hp) in Hs.
    by destruct Hs.
Qed.

(** [search] returns the match at the first position that has one. *)
Lemma search_from_Some ic r bh ah m :
  search_from ic r bh ah = Some m →
  ∃ pre post s',
    ah = pre ++ post ∧ match_here ic r (rev pre ++ bh) post = Some s' ∧
    m_caps m = caps s' ∧
    ∀ pre' post', ah = pre' ++ post' → length pre' < length pre →
                  match_here ic r (rev pre' ++ bh) post' = None.
Proof.
  revert bh. induction ah as [|c ah IH]; intros bh; cbn [search_from].
  - destruct (match_here ic r bh []) as [s'|] eqn:E; [|done]. intros [= <-].
    exists [], [], s'. split_and!; [done|done|done|]. intros pre' post' _ Hl. cbn in Hl. lia.
  - destruct (match_here ic r bh (c :: ah)) as [s'|] eqn:E.
    + intros [= <-]. exists [], (c :: ah), s'. split_and!; [done|done|done|].
      intros pre' post' _ Hl. cbn in Hl. lia.
    + intros H. apply IH in H as (pre & post & s' & -> & Hm & Hc & Hfirst).
      exists (c :: pre), post, s'. split_and!; [done| |done|].
      * cbn [rev]. by rewrite <- app_assoc.
      * intros pre' post' Hp Hl. destruct pre' as [|c' pre'].
        -- cbn in Hp. subst post'. done.
        -- cbn in Hp. injection Hp as <- Hp. cbn [rev]. rewrite <- app_assoc.
           apply Hfirst; [done|]. cbn in Hl. lia.
Qed.

(** *** The shape of a captured name *)

(** A character that [[A-ZÀ-Ú]] matches and one that [[a-zà-ú]] matches, when
    letter case is ignored. *)
Definition initial (c : N) : Prop := cs_match true upper_set c = true.
Definition letter (c : N) : Prop := cs_match true lower_set c = true.

(** One word of a name: an initial and at least one more letter. *)
Definition name_word_text (w : pystr) : Prop :=
  ∃ c rest, w = c :: rest ∧ initial c ∧ rest ≠ [] ∧ Forall letter rest.

Definition blank (sp : pystr) : Prop :=
  sp ≠ [] ∧ Forall (fun c => is_space c = true) sp.

(** Two to four words, with white space between them. *)
Definition words_2_to_4 (w : pystr) : Prop :=
  ∃ first more,
    w = first ++ List.concat ((fun p : pystr * pystr => p.1 ++ p.2) <$> more) ∧
    name_word_text first ∧ 1 ≤ length more ≤ 3 ∧
    Forall (fun p : pystr * pystr => blank p.1 ∧ name_word_text p.2) more.

Lemma passes_trans w1 w2 s s1 s' :
  passes w1 s s1 → passes w2 s1 s' → passes (w1 ++ w2) s s'.
Proof.
  intros (Ha1 & Hb1 & Hc1) (Ha2 & Hb2 & Hc2). split_and!.
  - by rewrite Ha1, Ha2, app_assoc.
  - by rewrite Hb2, Hb1, rev_app_distr, app_assoc.
  - congruence.
Qed.

Lemma passes_consumed w s s' : passes w s s' → consumed s s' = w.
Proof.
  intros (Ha & _). unfold consumed. rewrite Ha, length_app.
  replace (length w + length (ahead s') - length (ahead s')) with (length w) by lia.
  by rewrite take_app_length.
Qed.

Lemma den_name_word s s' :
  den true name_word s s' → ∃ w, passes w s s' ∧ name_word_text w.
Proof.
  intros (s1 & (c & Hc & Hi) & (w & Hw & Hl & Hn)).
  exists ([c] ++ w). split; [by eapply passes_trans|].
  exists c, w. split_and!; [done|done| |done]. intros ->. cbn in Hn. lia.
Qed.

Lemma den_ws1 s s' : den true ws1 s s' → ∃ sp, passes sp s s' ∧ blank sp.
Proof.
  intros (w & Hw & Hall & Hn). exists w. split; [done|]. split.
  - intros ->. cbn in Hn. lia.
  - eapply Forall_impl; [exact Hall|]. intros c Hc. cbn in Hc.
    by rewrite orb_false_r in Hc.
Qed.

Lemma iter_more n s s' :
  iter (den true (Cat ws1 name_word)) n s s' →
  ∃ more : list (pystr * pystr),
    length more = n ∧
    Forall (fun p => blank p.1 ∧ name_word_text p.2) more ∧
    passes (List.concat ((fun p : pystr * pystr => p.1 ++ p.2) <$> more)) s s'.
Proof.
  revert s. induction n as [|n IH]; intros s H; cbn [iter] in H.
  - subst s'. exists []. split_and!; [done|constructor|apply passes_refl].
  - destruct H as (s1 & (s0 & Hsp & Hwd) & Hit).
    apply den_ws1 in Hsp as (sp & Hsp & Hb).
    apply den_name_word in Hwd as (wd & Hwd & Hn).
    apply IH in Hit as (more & Hlen & Hall & Hp).
    exists ((sp, wd) :: more). split_and!.
    + cbn. lia.
    + by constructor.
    + rewrite fmap_cons. cbn [List.concat fst snd].
      eapply passes_trans; [|exact Hp]. by eapply passes_trans.
Qed.

Lemma den_NAME i s s' :
  den true (NAME i) s s' →
  ∃ w, words_2_to_4 w ∧ caps s' = (i, w) :: caps s.
Proof.
  intros (s1 & (s0 & Hfirst & (n & Hn & Hit)) & ->).
  apply den_name_word in Hfirst as (first & Hfirst & Hw).
  apply iter_more in Hit as (more & Hlen & Hall & Hp).
  pose proof (passes_trans _ _ _ _ _ Hfirst Hp) as Hpass.
  exists (first ++ List.concat ((fun p : pystr * pystr => p.1 ++ p.2) <$> more)). split.
  - exists first, more. split_and!; [done|done|lia|lia|done].
  - cbn [caps]. rewrite (passes_consumed _ _ _ Hpass).
    destruct Hpass as (_ & _ & ->). done.
Qed.

(** *** The patterns: labels around one group *)

Lemma den_cat_cons ic r rs s s' :
  den ic (cat (r :: rs)) s s' → ∃ s1, den ic r s s1 ∧ den ic (cat rs) s1 s'.
Proof.
  destruct rs as [|r2 rs]; cbn [cat den].
  - intros H. by exists s'.
  - done.
Qed.

Lemma den_cat_group_free ic rs s s' :
  forallb group_free rs = true → den ic (cat rs) s s' → caps s' = caps s.
Proof.
  revert s. induction rs as [|r rs IH]; intros s Hg H.
  - cbn in H. by subst.
  - cbn [forallb] in Hg. apply andb_true_iff in Hg as [Hr Hrs].
    apply den_cat_cons in H as (s1 & H1 & H2).
    rewrite (IH _ Hrs H2). by eapply den_group_free.
Qed.

Lemma den_around_NAME rs_before i rs_after s s' :
  forallb group_free rs_before = true →
  forallb group_free rs_after = true →
  den true (cat (rs_before ++ NAME i :: rs_after)) s s' →
  ∃ w, words_2_to_4 w ∧ caps s' = (i, w) :: caps s.
Proof.
  revert s. induction rs_before as [|r rs IH]; intros s Hb Ha H.
  - cbn [app] in H. apply den_cat_cons in H as (s1 & H1 & H2).
    apply den_NAME in H1 as (w & Hw & Hc). exists w. split; [done|].
    by rewrite (den_cat_group_free _ _ _ _ Ha H2).
  - cbn [forallb] in Hb. apply andb_true_iff in Hb as [Hr Hrs].
    cbn [app] in H. apply den_cat_cons in H as (s1 & H1 & H2).
    destruct (IH _ Hrs Ha H2) as (w & Hw & Hc). exists w. split; [done|].
    by rewrite Hc, (den_group_free _ _ _ _ Hr H1).
Qed.

(** The labels before and after the group of each pattern. *)
Definition name_labels : list (list regex * list regex) :=
  [ ([Lit (py "recrut"); In_ [CChar (chr "a"); CChar (chr "o")]; Lit (py "dor");
      Upto 0 1 (In_ [CChar (chr "a")]); ws0; colon; ws0], []);
    ([Lit (py "contato"); ws0; colon; ws0], []);
    ([Lit (py "posted"); ws1; Lit (py "by"); ws1], []);
    ([Lit (py "hiring"); ws1; Lit (py "manager"); ws0; colon; ws0], []);
    ([Lit (py "contact"); ws1], [ws1; Lit (py "at"); Boundary]);
    ([Lit (py "recruiter"); ws0; colon; ws0], []);
    ([Lit (py "respons"); In_ [CChar (chr "a"); CChar 225%N]; Lit (py "vel");
      ws0; colon; ws0], []);
    ([Lit (py "apply"); ws1; Lit (py "to"); ws1], []) ].

Lemma _NAME_PATTERNS_labels :
  _NAME_PATTERNS
  = imap (fun i (p : list regex * list regex) => cat (p.1 ++ NAME (S i) :: p.2))
         name_labels.
Proof. reflexivity. Qed.

(** Every pattern captures its one group, and the group holds a name. *)
Lemma pattern_capture i r bh ah s' :
  _NAME_PATTERNS !! i = Some r →
  match_here true r bh ah = Some s' →
  ∃ w, words_2_to_4 w ∧ caps s' = [(S i, w)].
Proof.
  rewrite _NAME_PATTERNS_labels, list_lookup_imap. intros Hi Hm.
  destruct (name_labels !! i) as [[rs_before rs_after]|] eqn:El; [|done].
  cbn in Hi. injection Hi as <-.
  assert (Forall (fun p : list regex * list regex =>
                    forallb group_free p.1 = true ∧ forallb group_free p.2 = true)
                 name_labels) as Hfree.
  { repeat constructor. }
  rewrite Forall_forall in Hfree.
  destruct (Hfree (rs_before, rs_after)) as [Hb Ha].
  { by eapply list_elem_of_lookup_2. }
  apply match_here_sound in Hm.
  by apply den_around_NAME in Hm.
Qed.

(** *** A name has no white space at its ends *)

Lemma name_char_not_space c : initial c ∨ letter c → is_space c = false.
Proof.
  intros Hc. destruct (is_space c) eqn:Hs; [|done]. exfalso.
  destruct Hc as [Hc|Hc]; unfold initial, letter in Hc;
    rewrite space_not_matched in Hc; done.
Qed.

Lemma strip_id (w : pystr) c t t' c' :
  w = c :: t → w = t' ++ [c'] → is_space c = false → is_space c' = false →
  strip w = w.
Proof.
  intros Hw Hw' Hc Hc'. unfold strip, rstrip.
  assert (lstrip w = w) as ->.
  { rewrite Hw. cbn. by rewrite Hc. }
  rewrite Hw', rev_unit. cbn [lstrip]. rewrite Hc'. cbn [rev]. by rewrite rev_involutive.
Qed.

Lemma name_word_ends w :
  name_word_text w →
  ∃ c t t' c', w = c :: t ∧ w = t' ++ [c'] ∧ is_space c = false ∧ is_space c' = false.
Proof.
  intros (c & rest & -> & Hc & Hne & Hall).
  destruct (exists_last Hne) as (t' & c' & ->).
  exists c, (t' ++ [c']), (c :: t'), c'. split_and!; [done|done| |].
  - apply name_char_not_space. by left.
  - apply name_char_not_space. right.
    rewrite Forall_forall in Hall. apply Hall, elem_of_app. right. left.
Qed.

Lemma words_2_to_4_ends w :
  words_2_to_4 w →
  ∃ c t t' c', w = c :: t ∧ w = t' ++ [c'] ∧ is_space c = false ∧ is_space c' = false.
Proof.
  intros (first & more & -> & Hfirst & [Hlen _] & Hall).
  destruct (name_word_ends first Hfirst) as (c & t & _ & _ & -> & _ & Hc & _).
  assert (more ≠ []) as Hne by (intros ->; cbn in Hlen; lia).
  destruct (exists_last Hne) as (more' & [sp wd] & ->).
  apply Forall_app in Hall as [_ Hlast]. apply Forall_singleton in Hlast as [_ Hwd].
  destruct (name_word_ends wd Hwd) as (_ & _ & t' & c' & _ & -> & _ & Hc').
  rewrite fmap_app, concat_app. cbn [fmap list_fmap List.concat fst snd].
  eexists c, _, _, c'. split_and!; [done| |done|done].
  rewrite app_nil_r, !app_assoc. done.
Qed.

Lemma words_2_to_4_strip w : words_2_to_4 w → strip w = w.
Proof.
  intros H. destruct (words_2_to_4_ends w H) as (c & t & t' & c' & H1 & H2 & H3 & H4).
  by eapply strip_id.
Qed.

Lemma first_group_single i c w st tx :
  i < 8 → first_group (groups 8 (RMatch st tx [(S i, c :: w)])) = Some (strip (c :: w)).
Proof.
  intros Hi. destruct i as [|[|[|[|[|[|[|[|i]]]]]]]]; try lia; reflexivity.
Qed.

(** Every pattern fails on the empty text. *)
Lemma patterns_need_text :
  Forall (fun r => match_here true r [] [] = None) _NAME_PATTERNS.
Proof. repeat constructor. Qed.

Lemma search_name_Some text m :
  search true _NAME_RE text = Some m →
  ∃ pre post i r s' w,
    text = pre ++ post ∧ _NAME_PATTERNS !! i = Some r ∧
    match_here true r (rev pre) post = Some s' ∧
    caps s' = [(S i, w)] ∧ words_2_to_4 w ∧
    first_group (groups 8 m) = Some w ∧
    (∀ pre' post' r', text = pre' ++ post' → length pre' < length pre →
                      r' ∈ _NAME_PATTERNS → match_here true r' (rev pre') post' = None) ∧
    (∀ j r', j < i → _NAME_PATTERNS !! j = Some r' →
             match_here true r' (rev pre) post = None).
Proof.
  unfold search. intros H.
  apply search_from_Some in H as (pre & post & s' & -> & Hm & Hc & Hfirst).
  rewrite app_nil_r in Hm.
  apply match_here_alts_Some in Hm as (i & r & Hi & Hm & Hprio); [|done].
  destruct (pattern_capture i r _ _ _ Hi Hm) as (w & Hw & Hcaps).
  exists pre, post, i, r, s', w. split_and!; try done.
  - destruct m as [st tx g]. cbn in Hc. subst g. rewrite Hcaps.
    destruct (words_2_to_4_ends w Hw) as (c & t & _ & _ & Hct & _).
    rewrite Hct, first_group_single.
    + rewrite <- Hct. by rewrite words_2_to_4_strip.
    + apply lookup_lt_Some in Hi. cbn in Hi. lia.
  - intros pre' post' r' Hp Hl Hr'. specialize (Hfirst pre' post' Hp Hl).
    rewrite app_nil_r in Hfirst. unfold _NAME_RE in Hfirst.
    rewrite match_here_alts_None in Hfirst by done. by apply Hfirst.
Qed.

(** C4, as the code has it. The patterns are matched as one alternation:
    the name comes from the match that starts first in the text and, among
    the patterns that match there, from the first in the order of the list;
    it is the text of that pattern's group, two to four words with white
    space between them; when no pattern matches anywhere, the name is null. *)
Theorem recruiter_name_is_leftmost_match (text : pystr) :
  (_extract_name_from_text text = None ↔
   ∀ pre post r, text = pre ++ post → r ∈ _NAME_PATTERNS →
                 match_here true r (rev pre) post = None) ∧
  (∀ name,
     _extract_name_from_text text = Some name →
     ∃ pre post i r s',
       text = pre ++ post ∧ _NAME_PATTERNS !! i = Some r ∧
       match_here true r (rev pre) post = Some s' ∧
       group (S i) (caps s') = Some name ∧
       (∀ pre' post' r', text = pre' ++ post' → length pre' < length pre →
                         r' ∈ _NAME_PATTERNS →
                         match_here true r' (rev pre') post' = None) ∧
       (∀ j r', j < i → _NAME_PATTERNS !! j = Some r' →
                match_here true r' (rev pre) post = None) ∧
       words_2_to_4 name).
Proof.
  assert (_extract_name_from_text text
          = match search true _NAME_RE text with
            | Some m => first_group (groups 8 m)
            | None => None
            end) as Hdef.
  { destruct text; [|done]. reflexivity. }
  rewrite Hdef. destruct (search true _NAME_RE text) as [m|] eqn:Es.
  - destruct (search_name_Some text m Es)
      as (pre & post & i & r & s' & w & Ht & Hi & Hm & Hc & Hw & Hg & Hleft & Hprio).
    rewrite Hg. split.
    + split; [done|]. intros Hall. rewrite (Hall pre post r Ht) in Hm; [done|].
      by eapply list_elem_of_lookup_2.
    + intros name [= <-]. exists pre, post, i, r, s'. split_and!; try done.
      rewrite Hc. cbn. by rewrite Nat.eqb_refl.
  - split; [|done]. split; [|done]. intros _ pre post r Ht Hr.
    unfold search in Es. rewrite search_from_None in Es.
    specialize (Es pre post Ht). rewrite app_nil_r in Es. unfold _NAME_RE in Es.
    rewrite match_here_alts_None in Es by done. by apply Es.
Qed.

End Names.

Section Closed.
Existing Instance simple_builtins.

(** A description with two labels: the later one is first in the list. *)
Definition two_labels : pystr := py "apply to Ana Lima. recrutador: Joao Souza".

(** C4, as stated, fails: the first pattern of the list is satisfied, and
    captures Joao Souza, but the name is Ana Lima, which the last pattern
    captures at the start of the text. *)
Lemma first_pattern_does_not_win :
  List.map (fun r => search true r two_labels ≫= fun m => first_group (groups 8 m))
           _NAME_PATTERNS
  = [Some (py "Joao Souza"); None; None; None; None; None; None; Some (py "Ana Lima")] ∧
  _extract_name_from_text two_labels = Some (py "Ana Lima").
Proof. split; by vm_compute. Qed.

End Closed.

End NameFacts.

(** ** Text without white space at its ends *)

Module StripFacts.
Local Close Scope N_scope.

Lemma lstrip_spec s :
  ∃ sp, s = sp ++ lstrip s ∧ Forall (fun c => is_space c = true) sp.
Proof.
  induction s as [|c s (sp & Hs & Hsp)]; [by exists []|]. cbn [lstrip].
  destruct (is_space c) eqn:E.
  - exists (c :: sp). split; [cbn; congruence|by constructor].
  - by exists [].
Qed.

Lemma lstrip_head s c t : lstrip s = c :: t → is_space c = false.
Proof.
  induction s as [|d s IH]; [done|]. cbn [lstrip].
  destruct (is_space d) eqn:E; [done|]. by intros [= -> _].
Qed.

Lemma lstrip_cons c t : is_space c = false → lstrip (c :: t) = c :: t.
Proof. intros H. cbn. by rewrite H. Qed.

Lemma lstrip_lstrip s : lstrip (lstrip s) = lstrip s.
Proof.
  destruct (lstrip s) as [|c t] eqn:E; [done|].
  apply lstrip_cons. by eapply lstrip_head.
Qed.

Lemma lstrip_app_cons x c y :
  is_space c = false → lstrip (x ++ c :: y) = lstrip x ++ c :: y.
Proof.
  intros Hc. induction x as [|d x IH]; cbn [app lstrip]; [by rewrite Hc|].
  by destruct (is_space d).
Qed.

Lemma rstrip_rstrip s : rstrip (rstrip s) = rstrip s.
Proof. unfold rstrip. by rewrite rev_involutive, lstrip_lstrip. Qed.

Lemma rstrip_cons c t :
  is_space c = false → ∃ t', rstrip (c :: t) = c :: t'.
Proof.
  intros Hc. unfold rstrip. cbn [rev]. rewrite (lstrip_app_cons _ _ [] Hc).
  rewrite rev_unit. by eexists.
Qed.

(** [strip] leaves nothing for [lstrip] or [rstrip] to remove. *)
Lemma lstrip_strip s : lstrip (strip s) = strip s.
Proof.
  unfold strip. destruct (lstrip s) as [|c t] eqn:E; [done|].
  pose proof (lstrip_head _ _ _ E) as Hc.
  destruct (rstrip_cons c t Hc) as (t' & ->). by apply lstrip_cons.
Qed.

Lemma strip_strip s : strip (strip s) = strip s.
Proof.
  unfold strip at 1. rewrite lstrip_strip. unfold strip. apply rstrip_rstrip.
Qed.

Lemma strip_nonspace_ends c t t' c' :
  c :: t = t' ++ [c'] → is_space c = false → is_space c' = false →
  strip (c :: t) = c :: t.
Proof.
  intros Ht Hc Hc'. unfold strip, rstrip. rewrite (lstrip_cons _ _ Hc), Ht, rev_unit.
  rewrite (lstrip_cons _ _ Hc'). cbn [rev]. by rewrite rev_involutive.
Qed.

End StripFacts.

(** ** database.py: the rest of the module *)

Module History.
Import Database.
Local Close Scope N_scope.

(** Text in the order of SQLite's BINARY collation: by code point, a prefix
    before the texts it starts. *)
Fixpoint text_leb (a b : pystr) : bool :=
  match a, b with
  | [], _ => true
  | _ :: _, [] => false
  | x :: a', y :: b' => (x <? y)%N || ((x =? y)%N && text_leb a' b')
  end.

Definition text_le (a b : pystr) : Prop := text_leb a b = true.

#[global] Instance text_le_dec a b : Decision (text_le a b).
Proof. unfold text_le. apply _. Defined.

(** [DELETE FROM vagas], after [init_db]. *)
Definition delete_all (d : db) : list vaga := [].

(** [SELECT DISTINCT site FROM vagas WHERE site IS NOT NULL ORDER BY site] *)
Definition get_distinct_sites (d : db) : list pystr :=
  merge_sort text_le (remove_dups (omap v_site (init_db d))).

(** [MAX(data_coleta)]: NULL on an empty table. *)
Definition max_text (l : list pystr) : option pystr :=
  foldr (fun x acc => match acc with
                      | None => Some x
                      | Some y => Some (if text_leb x y then y else x)
                      end) None l.

(** The dictionary [get_stats] returns. The rows of [sites] come by
    descending count; among sites with the same count SQLite fixes no order:
    the model takes the order its sort gives them. *)
Record stats := Stats {
  st_total : nat;
  st_sites : list (option pystr * nat);
  st_last_search : option pystr;
  st_with_email : nat;
}.

Definition count_site (t : list vaga) (s : option pystr) : nat :=
  length (List.filter (fun v => bool_decide (v_site v = s)) t).

(** [ORDER BY n DESC] on the rows [(site, n)]. *)
Definition by_count_desc (a b : option pystr * nat) : Prop := b.2 ≤ a.2.

#[global] Instance by_count_desc_dec a b : Decision (by_count_desc a b).
Proof. unfold by_count_desc. apply _. Defined.

Definition get_stats (d : db) : stats :=
  let t := init_db d in
  {| st_total := length t;
     st_sites := merge_sort by_count_desc
                   ((fun s => (s, count_site t s)) <$> remove_dups (v_site <$> t));
     st_last_search := max_text (v_data_coleta <$> t);
     st_with_email :=
       length (List.filter
                 (fun v => match v_email_recrutador v with
                           | Some e => negb (pystr_eqb e [])
                           | None => false
                           end) t) |}.

End History.

(** ** Properties of the rest of database.py *)

Module HistoryFacts.
Import Database DatabaseFacts History StripFacts.
Local Close Scope N_scope.

(** *** The order of texts *)

Lemma text_leb_cons x a y b :
  text_leb (x :: a) (y :: b) = true ↔ (x < y)%N ∨ (x = y ∧ text_leb a b = true).
Proof.
  cbn. rewrite orb_true_iff, andb_true_iff, N.ltb_lt, N.eqb_eq. done.
Qed.

Lemma text_leb_refl a : text_leb a a = true.
Proof. induction a as [|x a IH]; [done|]. apply text_leb_cons. auto. Qed.

Lemma text_leb_total a b : text_leb a b = true ∨ text_leb b a = true.
Proof.
  revert b. induction a as [|x a IH]; intros [|y b]; try (cbn; by auto).
  rewrite !text_leb_cons. destruct (IH b); destruct (N.lt_total x y) as [?|[?|?]]; auto.
Qed.

Lemma text_leb_trans a b c :
  text_leb a b = true → text_leb b c = true → text_leb a c = true.
Proof.
  revert b c. induction a as [|x a IH]; intros [|y b] [|z c]; try done.
  rewrite !text_leb_cons. intros [H1|[-> H1]] [H2|[-> H2]]; [left; lia|by left..|].
  right. split; [done|]. by eapply IH.
Qed.

Lemma text_leb_antisym a b : text_leb a b = true → text_leb b a = true → a = b.
Proof.
  revert b. induction a as [|x a IH]; intros [|y b]; try done.
  rewrite !text_leb_cons. intros [H1|[-> H1]] [H2|[H2 H3]]; try lia.
  f_equal. by apply IH.
Qed.

#[local] Instance text_le_total : Total text_le.
Proof. intros a b. apply text_leb_total. Qed.

#[local] Instance text_le_trans : Transitive text_le.
Proof. intros a b c. apply text_leb_trans. Qed.

Lemma max_text_None l : max_text l = None ↔ l = [].
Proof.
  destruct l as [|x l]; [done|]. unfold max_text. cbn [foldr].
  destruct (foldr _ None l); split; intros H; discriminate H.
Qed.

Lemma max_text_Some l m :
  max_text l = Some m → m ∈ l ∧ ∀ x, x ∈ l → text_le x m.
Proof.
  revert m. induction l as [|x l IH]; intros m; [done|].
  change (max_text (x :: l))
    with (match max_text l with
          | None => Some x
          | Some y => Some (if text_leb x y then y else x)
          end).
  destruct (max_text l) as [y|] eqn:E.
  - destruct (IH y eq_refl) as [Hy Hmax]. intros [= <-].
    destruct (text_leb x y) eqn:Exy.
    + split; [by right|]. intros z Hz. apply elem_of_cons in Hz as [->|Hz]; auto.
    + assert (text_le y x) as Hyx.
      { destruct (text_leb_total x y) as [H|H]; [congruence|done]. }
      split; [left|]. intros z Hz. apply elem_of_cons in Hz as [->|Hz].
      * apply text_leb_refl.
      * eapply text_leb_trans; [by apply Hmax|done].
  - apply max_text_None in E as ->. intros [= <-]. split; [left|].
    intros z Hz. apply list_elem_of_singleton in Hz as ->. apply text_leb_refl.
Qed.

(** *** Counting by site *)

Lemma sum_indicator {A} `{EqDecision A} (ks : list A) (x : A) :
  NoDup ks → x ∈ ks →
  sum_list ((fun k => if bool_decide (x = k) then 1 else 0) <$> ks) = 1.
Proof.
  induction 1 as [|k ks Hk Hnd IH]; intros Hx; [by apply elem_of_nil in Hx|].
  rewrite fmap_cons. cbn [sum_list]. apply elem_of_cons in Hx as [->|Hx].
  - rewrite bool_decide_eq_true_2 by done.
    rewrite (sum_list_fmap_same 0); [cbn; lia|].
    apply Forall_forall. intros y Hy. rewrite bool_decide_eq_false_2; [done|].
    intros ->. done.
  - rewrite bool_decide_eq_false_2 by (intros ->; done). rewrite IH; [done|done].
Qed.

Lemma sum_list_fmap_add {A} (f g : A → nat) (l : list A) :
  sum_list ((fun x => f x + g x) <$> l) = sum_list (f <$> l) + sum_list (g <$> l).
Proof. induction l as [|x l IH]; cbn; [done|]. rewrite IH. lia. Qed.

Lemma count_site_cons t v s :
  count_site (v :: t) s = (if bool_decide (v_site v = s) then 1 else 0) + count_site t s.
Proof. unfold count_site. cbn. by destruct (bool_decide (v_site v = s)). Qed.

(** The rows of a table, counted site by site, are all its rows. *)
Lemma sum_count_site (t : list vaga) (ks : list (option pystr)) :
  NoDup ks → (∀ v, v ∈ t → v_site v ∈ ks) →
  sum_list (count_site t <$> ks) = length t.
Proof.
  intros Hnd. induction t as [|v t IH]; intros Hall.
  - rewrite (sum_list_fmap_same 0); [cbn; lia|]. by apply Forall_forall.
  - erewrite (list_fmap_ext _ (fun s => _ + count_site t s));
      [|intros i s _; apply count_site_cons].
    rewrite sum_list_fmap_add, IH by (intros w Hw; apply Hall; by right).
    rewrite sum_indicator; [done|done|]. apply Hall. left.
Qed.

Lemma sum_list_Permutation (l k : list nat) : l ≡ₚ k → sum_list l = sum_list k.
Proof. induction 1; cbn; lia. Qed.

#[local] Instance by_count_desc_total : Total by_count_desc.
Proof. intros a b. unfold by_count_desc. lia. Qed.

#[local] Instance by_count_desc_trans : Transitive by_count_desc.
Proof. intros a b c. unfold by_count_desc. lia. Qed.

Section Stored.
Context {B : Builtins}.

(** X1. What [_str] returns is never empty, never the text [nan] or [None],
    has no white space at its ends, and is returned as it is when it is
    given to [_str] again. *)
Theorem _str_normal_form (val : Cell) (s : pystr) :
  _str val = Some s →
  s = strip (str_ val) ∧ s ≠ [] ∧ s ≠ py "nan" ∧ s ≠ py "None" ∧
  strip s = s ∧ _str (CStr s) = Some s.
Proof.
  intros H.
  assert (s = strip (str_ val) ∧ s ∉ [py ""; py "nan"; py "None"]) as [Hs Hn].
  { unfold _str in H. destruct val; try done;
      (case_bool_decide as Hd; [done|]); injection H as <-; done. }
  assert (strip s = s) as Hstrip by (rewrite Hs; apply strip_strip).
  rewrite !not_elem_of_cons in Hn. destruct Hn as (H1 & H2 & H3 & _).
  split_and!; try done.
  unfold _str. cbn [str_]. rewrite Hstrip.
  rewrite bool_decide_eq_false_2; [done|].
  rewrite !not_elem_of_cons. split_and!; try done. apply not_elem_of_nil.
Qed.

Lemma params_fields r term coleta v :
  params r term coleta = Ok v →
  (v_remoto v = 0 ∨ v_remoto v = 1)%Z ∧
  v_salario_min v ≠ Some FNan ∧ v_salario_max v ≠ Some FNan.
Proof.
  unfold params. destruct (_float (get r "salario_min")) as [smin|e]; [|done].
  destruct (_float (get r "salario_max")) as [smax|e]; [|done].
  cbn. intros [= <-]. cbn. split_and!.
  - destruct (truthy _); auto.
  - by destruct smin as [[]|].
  - by destruct smax as [[]|].
Qed.

Lemma save_rows_bound term coleta l t n :
  (foldl (save_row term coleta) (t, n) l).2 ≤ n + length l.
Proof.
  revert t n. induction l as [|r l IH]; intros t n; cbn [foldl length]; [cbn; lia|].
  destruct (bound r term coleta) as [v|e] eqn:Hp.
  - rewrite (save_row_Ok _ _ _ _ _ _ Hp). destruct (conflicts t v).
    + specialize (IH t n). lia.
    + specialize (IH (t ++ [v]) (S n)). lia.
  - rewrite (save_row_Raise _ _ _ _ _ Hp). specialize (IH t n). lia.
Qed.

(** X2. [save_jobs] only appends: the table it leaves is the table it found
    followed by the rows it inserted, the number it returns is the number of
    these rows and at most the number of rows of the frame, and each of them
    comes from a row of the frame, carries the search term and the collection
    time of the call, has 0 or 1 as [remoto] and no NaN as a salary. *)
Theorem save_jobs_appends (df : DataFrame) (term coleta : pystr) (d : db) :
  ∃ added,
    save_jobs df term coleta d = (init_db d ++ added, length added) ∧
    length added ≤ length (rows df) ∧
    ∀ v, v ∈ added →
         (∃ r, r ∈ rows df ∧ params r term coleta = Ok v) ∧
         v_termo_busca v = term ∧ v_data_coleta v = coleta ∧
         (v_remoto v = 0 ∨ v_remoto v = 1)%Z ∧
         v_salario_min v ≠ Some FNan ∧ v_salario_max v ≠ Some FNan.
Proof.
  unfold save_jobs. destruct (empty df).
  { exists []. rewrite app_nil_r. split_and!; [done|cbn; lia|].
    intros v Hv. by apply elem_of_nil in Hv. }
  destruct (save_rows_spec term coleta (rows df) (init_db d) 0)
    as (added & Hf & H1 & _).
  exists added. rewrite Hf. split_and!; [done| |].
  - pose proof (save_rows_bound term coleta (rows df) (init_db d) 0) as Hb.
    rewrite Hf in Hb. cbn in Hb. lia.
  - intros v Hv. destruct (H1 v Hv) as (r & Hr & Hp).
    apply bound_Ok in Hp as [Hp _]. split; [by exists r|].
    destruct (params_Ok _ _ _ _ Hp) as (_ & Ht & Hc & _).
    destruct (params_fields _ _ _ _ Hp) as (Hr' & Hmin & Hmax). by split_and!.
Qed.

(** X3. [save_jobs] keeps the links of the table unique: when no two stored
    rows have the same link (NULL apart), none have after the call. *)
Theorem save_jobs_keeps_links_unique (df : DataFrame) (term coleta : pystr) (d : db) :
  NoDup (omap v_link (init_db d)) →
  NoDup (omap v_link (save_jobs df term coleta d).1).
Proof.
  intros Hnd. unfold save_jobs. destruct (empty df); [done|].
  destruct (save_rows_spec term coleta (rows df) (init_db d) 0)
    as (added & Hf & _ & _ & H3 & H4).
  rewrite Hf. cbn [fst]. rewrite omap_app. apply NoDup_app. split_and!; [done| |done].
  intros x Hx Hx'.
  apply list_elem_of_omap in Hx as (v & Hv & Hvx).
  apply list_elem_of_omap in Hx' as (w & Hw & Hwx).
  apply (H3 x).
  - unfold links. apply list_elem_of_fmap. by exists w.
  - unfold links. apply list_elem_of_fmap. by exists v.
Qed.

End Stored.

(** X4. [get_distinct_sites] returns the sites of the stored rows, NULL left
    out, each once and in ascending order. *)
Theorem get_distinct_sites_sorted_distinct (d : db) :
  StronglySorted text_le (get_distinct_sites d) ∧
  NoDup (get_distinct_sites d) ∧
  ∀ s, s ∈ get_distinct_sites d ↔ ∃ v, v ∈ init_db d ∧ v_site v = Some s.
Proof.
  unfold get_distinct_sites. split_and!.
  - apply StronglySorted_merge_sort; apply _.
  - rewrite merge_sort_Permutation. apply NoDup_remove_dups.
  - intros s. rewrite merge_sort_Permutation, elem_of_remove_dups, list_elem_of_omap.
    done.
Qed.

(** X5. In the statistics, the rows of [sites] name each site of the table
    once (NULL is one of them), give the number of stored rows of that site,
    which is at least 1, come by descending count, and their counts add up to
    [total]. *)
Theorem get_stats_sites_partition (d : db) :
  NoDup (st_sites (get_stats d)).*1 ∧
  (∀ s n, (s, n) ∈ st_sites (get_stats d) ↔
          n = count_site (init_db d) s ∧ ∃ v, v ∈ init_db d ∧ v_site v = s) ∧
  (∀ s n, (s, n) ∈ st_sites (get_stats d) → 1 ≤ n) ∧
  StronglySorted by_count_desc (st_sites (get_stats d)) ∧
  sum_list (st_sites (get_stats d)).*2 = st_total (get_stats d).
Proof.
  unfold get_stats. cbn [st_sites st_total]. set (t := init_db d).
  set (groups := (fun s => (s, count_site t s)) <$> remove_dups (v_site <$> t)).
  assert (groups.*1 = remove_dups (v_site <$> t)) as Hfst.
  { unfold groups. rewrite <- list_fmap_compose.
    rewrite <- (list_fmap_id (remove_dups _)) at 2. by apply list_fmap_ext. }
  assert (∀ s n, (s, n) ∈ groups ↔
                 n = count_site t s ∧ ∃ v, v ∈ t ∧ v_site v = s) as Hin.
  { intros s n. unfold groups. rewrite list_elem_of_fmap. split.
    - intros (s' & [= -> ->] & Hs). split; [done|].
      apply elem_of_remove_dups, list_elem_of_fmap in Hs as (v & -> & Hv). by exists v.
    - intros (-> & v & Hv & <-). exists (v_site v). split; [done|].
      apply elem_of_remove_dups, list_elem_of_fmap. by exists v. }
  split_and!.
  - rewrite merge_sort_Permutation, Hfst. apply NoDup_remove_dups.
  - intros s n. by rewrite merge_sort_Permutation.
  - intros s n. rewrite merge_sort_Permutation, Hin. intros (-> & v & Hv & <-).
    unfold count_site. apply list_elem_of_In in Hv.
    assert (In v (List.filter (fun w => bool_decide (v_site w = v_site v)) t)) as Hf.
    { apply filter_In. split; [done|]. by apply bool_decide_eq_true. }
    destruct (List.filter _ t); [done|cbn; lia].
  - apply StronglySorted_merge_sort; apply _.
  - rewrite (sum_list_Permutation _ (groups.*2));
      [|by rewrite merge_sort_Permutation].
    unfold groups. rewrite <- list_fmap_compose.
    apply sum_count_site; [apply NoDup_remove_dups|].
    intros v Hv. apply elem_of_remove_dups, list_elem_of_fmap. by exists v.
Qed.

(** X6. In the statistics, [last_search] is null exactly when the table is
    empty and otherwise the latest collection time of a stored row, and
    [with_email] never exceeds [total]. *)
Theorem get_stats_last_search_and_emails (d : db) :
  (st_last_search (get_stats d) = None ↔ st_total (get_stats d) = 0) ∧
  (∀ m, st_last_search (get_stats d) = Some m →
        (∃ v, v ∈ init_db d ∧ v_data_coleta v = m) ∧
        ∀ v, v ∈ init_db d → text_le (v_data_coleta v) m) ∧
  st_with_email (get_stats d) ≤ st_total (get_stats d).
Proof.
  unfold get_stats. cbn [st_last_search st_total st_with_email]. split_and!.
  - rewrite max_text_None. destruct (init_db d); split; done.
  - intros m Hm. apply max_text_Some in Hm as [Hin Hmax]. split.
    + apply list_elem_of_fmap in Hin as (v & -> & Hv). by exists v.
    + intros v Hv. apply Hmax, list_elem_of_fmap. by exists v.
  - apply sublist_length, FiltersFacts.filter_sublist.
Qed.

End HistoryFacts.

(** ** How the filters compose *)

Module PipelineFacts.
Import Filters ReFacts FiltersFacts.
Local Close Scope N_scope.

Lemma filter_true {A} (l : list A) : List.filter (fun _ => true) l = l.
Proof. induction l; cbn; congruence. Qed.

Lemma filter_filter {A} (f g : A → bool) (l : list A) :
  List.filter f (List.filter g l) = List.filter (fun x => g x && f x) l.
Proof.
  induction l as [|x l IH]; [done|]. cbn. destruct (g x); cbn; [|done].
  destruct (f x); by rewrite IH.
Qed.

Lemma select_select f g df :
  select f (select g df) = select (fun r => g r && f r) df.
Proof. unfold select. cbn. by rewrite filter_filter. Qed.

Lemma select_ext f g df : (∀ r, f r = g r) → select f df = select g df.
Proof. intros H. unfold select. f_equal. by apply List.filter_ext. Qed.

Lemma select_true df : select (fun _ => true) df = df.
Proof. destruct df. unfold select. cbn. by rewrite filter_true. Qed.

Lemma select_empty f df : empty df = true → columns df ≠ [] → select f df = df.
Proof.
  intros He Hc. pose proof (empty_true _ He Hc) as Hr.
  destruct df as [cols rs]. unfold select. cbn in *. by subst rs.
Qed.

(** A stage that, on the frames with given columns, selects the rows that
    pass one test. *)
Definition masklike (st : DataFrame → DataFrame) : Prop :=
  ∀ cols, ∃ m : gmap string Cell → bool,
    ∀ y, columns y = cols → st y = select m y.

Lemma masklike_id : masklike (fun y => y).
Proof. intros cols. exists (fun _ => true). intros y _. by rewrite select_true. Qed.

Lemma masklike_compose f g : masklike f → masklike g → masklike (fun y => g (f y)).
Proof.
  intros Hf Hg cols. destruct (Hf cols) as (mf & Hmf). destruct (Hg cols) as (mg & Hmg).
  exists (fun r => mf r && mg r). intros y Hy.
  rewrite (Hmf y Hy), (Hmg (select mf y)) by done. apply select_select.
Qed.

(** A stage that is the identity on empty frames and a selection, by a test
    that reads the frame's columns only, on the others. *)
Lemma masklike_guarded (st : DataFrame → DataFrame) (m : DataFrame → gmap string Cell → bool) :
  (∀ y, empty y = true → st y = y) →
  (∀ y, empty y = false → st y = select (m y) y) →
  (∀ y y' r, columns y = columns y' → m y r = m y' r) →
  masklike st.
Proof.
  intros Hempty Hsel Hcols cols. destruct cols as [|c cols].
  - exists (fun _ => true). intros y Hy. rewrite select_true. apply Hempty.
    unfold empty. rewrite Hy. by destruct (rows y).
  - exists (m (Df (c :: cols) [])). intros y Hy. destruct (empty y) eqn:E.
    + rewrite (Hempty y E). symmetry. apply select_empty; [done|]. by rewrite Hy.
    + rewrite (Hsel y E). apply select_ext. intros r. by apply Hcols.
Qed.

Lemma contains_mask_columns {B : Builtins} re y y' r :
  columns y = columns y' → contains_mask re y r = contains_mask re y' r.
Proof.
  intros H. rewrite !contains_mask_unfold. unfold has_column. by rewrite H.
Qed.

Section Stages.
Context {B : Builtins}.

Lemma masklike_filter_remote : masklike filter_remote.
Proof.
  apply (masklike_guarded _
           (fun y r => negb (has_column "remoto" y) || eq_true (get r "remoto"))).
  - intros y E. unfold filter_remote. by rewrite E.
  - intros y E. unfold filter_remote. rewrite E.
    destruct (has_column "remoto" y); cbn [negb orb]; [done|]. by rewrite select_true.
  - intros y y' r H. unfold has_column. by rewrite H.
Qed.

Lemma masklike_filter_by_skills ks : masklike (fun y => filter_by_skills y ks).
Proof.
  destruct (decide (List.map (fun s => escape (strip s))
              (List.filter (fun s => negb (pystr_eqb (strip s) [])) ks) = [])) as [Hp|Hp].
  { intros cols. exists (fun _ => true). intros y _. rewrite select_true.
    unfold filter_by_skills. rewrite Hp. by destruct (_ || _). }
  assert (ks ≠ []) as Hks by (intros ->; by apply Hp).
  apply (masklike_guarded _
           (fun y => contains_mask
                       (alts (List.map (fun s => escape (strip s))
                                (List.filter (fun s => negb (pystr_eqb (strip s) [])) ks)))
                       y)).
  - intros y E. unfold filter_by_skills. by rewrite E.
  - intros y E. unfold filter_by_skills.
    rewrite E, (bool_decide_eq_false_2 _ Hks). cbn [orb].
    by destruct (List.map _ _).
  - intros y y' r H. by apply contains_mask_columns.
Qed.

Lemma masklike_filter_by_seniority ls : masklike (fun y => filter_by_seniority y ls).
Proof.
  destruct (decide (seniority_patterns ls = [])) as [Hp|Hp].
  { intros cols. exists (fun _ => true). intros y _. rewrite select_true.
    unfold filter_by_seniority. rewrite Hp. by destruct (_ || _). }
  assert (ls ≠ []) as Hls by (intros ->; by apply Hp).
  apply (masklike_guarded _ (fun y => contains_mask (alts (seniority_patterns ls)) y)).
  - intros y E. unfold filter_by_seniority. by rewrite E.
  - intros y E. unfold filter_by_seniority.
    rewrite E, (bool_decide_eq_false_2 _ Hls). cbn [orb].
    by destruct (seniority_patterns ls).
  - intros y y' r H. by apply contains_mask_columns.
Qed.

(** The part of [apply_all_filters] after the deduplication. *)
Definition narrow (skills : option (list pystr)) (remote_only : bool)
    (seniority : option (list pystr)) (df : DataFrame) : DataFrame :=
  let df := if remote_only then filter_remote df else df in
  let df := match active skills with
            | Some ks => filter_by_skills df ks
            | None => df
            end in
  match active seniority with
  | Some ls => filter_by_seniority df ls
  | None => df
  end.

Lemma apply_all_filters_narrow df skills remote_only seniority :
  apply_all_filters df skills remote_only seniority
  = narrow skills remote_only seniority (dedup_stage df).
Proof. reflexivity. Qed.

Lemma masklike_narrow skills remote_only seniority :
  masklike (narrow skills remote_only seniority).
Proof.
  unfold narrow.
  apply (masklike_compose
           (fun y => match active skills with
                     | Some ks => filter_by_skills (if remote_only then filter_remote y else y) ks
                     | None => if remote_only then filter_remote y else y
                     end)
           (fun y => match active seniority with
                     | Some ls => filter_by_seniority y ls
                     | None => y
                     end)).
  - apply (masklike_compose
             (fun y => if remote_only then filter_remote y else y)
             (fun y => match active skills with
                       | Some ks => filter_by_skills y ks
                       | None => y
                       end)).
    + destruct remote_only; [apply masklike_filter_remote|apply masklike_id].
    + destruct (active skills); [apply masklike_filter_by_skills|apply masklike_id].
  - destruct (active seniority); [apply masklike_filter_by_seniority|apply masklike_id].
Qed.

Lemma masklike_idempotent st y : masklike st → st (st y) = st y.
Proof.
  intros H. destruct (H (columns y)) as (m & Hm).
  rewrite (Hm y eq_refl), (Hm (select m y) eq_refl), select_select.
  apply select_ext. intros r. apply andb_diag.
Qed.

Lemma masklike_commute f g y : masklike f → masklike g → f (g y) = g (f y).
Proof.
  intros Hf Hg. destruct (Hf (columns y)) as (mf & Hmf).
  destruct (Hg (columns y)) as (mg & Hmg).
  rewrite (Hmg y eq_refl), (Hmf y eq_refl).
  rewrite (Hmf (select mg y) eq_refl), (Hmg (select mf y) eq_refl), !select_select.
  apply select_ext. intros r. apply andb_comm.
Qed.

(** X7. The optional filters commute: remote-only, skills and seniority give
    the same frame in whatever order they are applied. *)
Theorem optional_filters_commute (df : DataFrame) (ks ls : list pystr) :
  filter_by_skills (filter_remote df) ks = filter_remote (filter_by_skills df ks) ∧
  filter_by_seniority (filter_remote df) ls = filter_remote (filter_by_seniority df ls) ∧
  filter_by_seniority (filter_by_skills df ks) ls
  = filter_by_skills (filter_by_seniority df ls) ks.
Proof.
  split_and!.
  - apply (masklike_commute (fun y => filter_by_skills y ks) filter_remote);
      [apply masklike_filter_by_skills|apply masklike_filter_remote].
  - apply (masklike_commute (fun y => filter_by_seniority y ls) filter_remote);
      [apply masklike_filter_by_seniority|apply masklike_filter_remote].
  - apply (masklike_commute (fun y => filter_by_seniority y ls)
             (fun y => filter_by_skills y ks));
      [apply masklike_filter_by_seniority|apply masklike_filter_by_skills].
Qed.

(** *** Frames that are already deduplicated *)

(** No row of [l] has a key that is in [seen] or on a row before it. *)
Fixpoint distinct_keys (c : string) (seen : list Cell) (l : list (gmap string Cell))
    : Prop :=
  match l with
  | [] => True
  | r :: l' =>
      existsb (same_key (get r c)) seen = false ∧ distinct_keys c (get r c :: seen) l'
  end.

Lemma drop_duplicates_distinct c seen l : distinct_keys c seen (drop_duplicates c seen l).
Proof.
  revert seen. induction l as [|r l IH]; intros seen; [done|]. cbn [drop_duplicates].
  destruct (existsb (same_key (get r c)) seen) eqn:E; [apply IH|].
  split; [done|apply IH].
Qed.

Lemma distinct_drop_duplicates c seen l :
  distinct_keys c seen l → drop_duplicates c seen l = l.
Proof.
  revert seen. induction l as [|r l IH]; intros seen; [done|].
  intros [Hr Hl]. cbn [drop_duplicates]. rewrite Hr. f_equal. by apply IH.
Qed.

Lemma distinct_weaken c seen seen' l :
  (∀ k, existsb (same_key k) seen' = true → existsb (same_key k) seen = true) →
  distinct_keys c seen l → distinct_keys c seen' l.
Proof.
  revert seen seen'. induction l as [|r l IH]; intros seen seen' Hsub; [done|].
  intros [Hr Hl]. split.
  - destruct (existsb (same_key (get r c)) seen') eqn:E; [|done].
    apply Hsub in E. congruence.
  - apply (IH (get r c :: seen)); [|done]. intros k. cbn [existsb].
    rewrite !orb_true_iff. intros [?|?]; auto.
Qed.

Lemma distinct_sublist c seen l l' :
  l' `sublist_of` l → distinct_keys c seen l → distinct_keys c seen l'.
Proof.
  intros Hsub. revert seen. induction Hsub as [|r l1 l2 _ IH|r l1 l2 _ IH]; intros seen.
  - done.
  - intros [Hr Hl]. split; [done|by apply IH].
  - intros [Hr Hl]. apply (distinct_weaken c (get r c :: seen)); [|by apply IH].
    intros k Hk. cbn [existsb]. rewrite Hk. apply orb_true_r.
Qed.

Lemma Forall_sublist {A} (P : A → Prop) (l l' : list A) :
  Forall P l → l' `sublist_of` l → Forall P l'.
Proof.
  intros H Hsub. induction Hsub as [|x l1 l2 _ IH|x l1 l2 _ IH].
  - done.
  - apply Forall_cons in H as [Hx H]. constructor; auto.
  - apply Forall_cons in H as [_ H]. auto.
Qed.

Lemma filter_all {A} (f : A → bool) (l : list A) :
  Forall (fun x => f x = true) l → List.filter f l = l.
Proof. induction 1 as [|x l Hx _ IH]; [done|]. cbn. by rewrite Hx, IH. Qed.

Lemma filter_none {A} (f : A → bool) (l : list A) :
  Forall (fun x => f x = false) l → List.filter f l = [].
Proof. induction 1 as [|x l Hx _ IH]; [done|]. cbn. by rewrite Hx. Qed.

Lemma Forall_filter_true {A} (f : A → bool) (l : list A) :
  Forall (fun x => f x = true) (List.filter f l).
Proof. apply Forall_forall. intros x Hx. by apply list_elem_of_In, filter_In in Hx as [_ ?]. Qed.

(** The rows a frame keeps in [deduplicate]. *)
Definition kept (df : DataFrame) (l : list (gmap string Cell)) : list (gmap string Cell) :=
  if has_column "link" df then drop_duplicates "link" [] l else l.

Lemma deduplicate_kept df : deduplicate df = Df (columns df) (kept df (rows df)).
Proof.
  unfold kept. destruct (has_column "link" df) eqn:Hl.
  - by apply deduplicate_rows.
  - unfold deduplicate. rewrite Hl. destruct df. by destruct (empty _).
Qed.

Lemma kept_sublist df l : kept df l `sublist_of` l.
Proof. unfold kept. destruct (has_column "link" df); [apply drop_duplicates_sublist|done]. Qed.

Lemma kept_columns df df' l : columns df = columns df' → kept df l = kept df' l.
Proof. intros H. unfold kept, has_column. by rewrite H. Qed.

Lemma kept_filter_kept df m l :
  kept df (List.filter m (kept df l)) = List.filter m (kept df l).
Proof.
  unfold kept. destruct (has_column "link" df); [|done].
  apply distinct_drop_duplicates.
  eapply distinct_sublist; [apply filter_sublist|apply drop_duplicates_distinct].
Qed.

(** [dedup_stage], with the columns and the rows of its result apart. *)
Lemma dedup_stage_kept df :
  dedup_stage df
  = Df (columns df)
       (if has_column "site" df
        then kept df (List.filter (fun r => negb (is_post (get r "site"))) (rows df))
             ++ kept df (List.filter (fun r => is_post (get r "site")) (rows df))
        else kept df (rows df)).
Proof.
  unfold dedup_stage. destruct (has_column "site" df).
  - rewrite !deduplicate_kept. by rewrite concat_same_columns.
  - apply deduplicate_kept.
Qed.

Lemma dedup_stage_fixed_parts x J Q :
  has_column "site" x = true →
  rows x = J ++ Q →
  Forall (fun r => is_post (get r "site") = false) J →
  Forall (fun r => is_post (get r "site") = true) Q →
  kept x J = J → kept x Q = Q →
  dedup_stage x = x.
Proof.
  intros Hs Hr HJ HQ HkJ HkQ. rewrite dedup_stage_kept, Hs, Hr, !List.filter_app.
  rewrite (filter_all (fun r => negb (is_post (get r "site"))) J),
          (filter_none (fun r => negb (is_post (get r "site"))) Q),
          (filter_none (fun r => is_post (get r "site")) J),
          (filter_all (fun r => is_post (get r "site")) Q); try done.
  - rewrite app_nil_r. cbn [app]. rewrite HkJ, HkQ, <- Hr. by destruct x.
  - eapply Forall_impl; [exact HQ|]. intros r Hp. cbv beta in Hp. by rewrite Hp.
  - eapply Forall_impl; [exact HJ|]. intros r Hp. cbv beta in Hp. by rewrite Hp.
Qed.

Lemma dedup_stage_fixed_whole x :
  has_column "site" x = false → kept x (rows x) = rows x → dedup_stage x = x.
Proof.
  intros Hs Hk. rewrite dedup_stage_kept, Hs, Hk. by destruct x.
Qed.

(** Selecting rows of a deduplicated frame leaves it deduplicated. *)
Lemma dedup_stage_select m df :
  dedup_stage (select m (dedup_stage df)) = select m (dedup_stage df).
Proof.
  set (x := select m (dedup_stage df)).
  assert (columns x = columns df) as Hc by (unfold x; by rewrite dedup_stage_kept).
  assert (∀ l, kept x l = kept df l) as Hk by (intros l; by apply kept_columns).
  assert (has_column "site" x = has_column "site" df) as Hsx.
  { unfold has_column. by rewrite Hc. }
  destruct (has_column "site" df) eqn:Hs.
  - set (J := kept df (List.filter (fun r => negb (is_post (get r "site"))) (rows df))).
    set (Q := kept df (List.filter (fun r => is_post (get r "site")) (rows df))).
    apply (dedup_stage_fixed_parts x (List.filter m J) (List.filter m Q)).
    + by rewrite Hsx.
    + unfold x. rewrite dedup_stage_kept, Hs. unfold select. cbn [rows].
      apply List.filter_app.
    + eapply Forall_sublist; [|apply filter_sublist].
      eapply Forall_sublist; [|apply kept_sublist].
      eapply Forall_impl;
        [apply (Forall_filter_true (fun r => negb (is_post (get r "site"))))|].
      intros r. apply negb_true_iff.
    + eapply Forall_sublist; [|apply filter_sublist].
      eapply Forall_sublist; [|apply kept_sublist].
      apply (Forall_filter_true (fun r => is_post (get r "site"))).
    + rewrite Hk. apply kept_filter_kept.
    + rewrite Hk. apply kept_filter_kept.
  - apply dedup_stage_fixed_whole; [by rewrite Hsx|].
    rewrite Hk. unfold x. rewrite dedup_stage_kept, Hs. unfold select. cbn [rows].
    apply kept_filter_kept.
Qed.

Lemma dedup_stage_columns df : columns (dedup_stage df) = columns df.
Proof. by rewrite dedup_stage_kept. Qed.

(** X8. [apply_all_filters] is idempotent: a frame that went through the
    pipeline comes out of it unchanged when it is put through again with the
    same options. *)
Theorem apply_all_filters_idempotent (df : DataFrame) (skills seniority : option (list pystr))
    (remote_only : bool) :
  apply_all_filters (apply_all_filters df skills remote_only seniority)
                    skills remote_only seniority
  = apply_all_filters df skills remote_only seniority.
Proof.
  rewrite !apply_all_filters_narrow.
  destruct (masklike_narrow skills remote_only seniority (columns df)) as (m & Hm).
  rewrite (Hm (dedup_stage df)) by apply dedup_stage_columns.
  rewrite dedup_stage_select.
  rewrite (Hm (select m (dedup_stage df))) by apply dedup_stage_columns.
  rewrite select_select. apply select_ext. intros r. apply andb_diag.
Qed.

(** X9. [filter_remote] keeps the rows whose [remoto] equals [True] (the
    numbers 1 and 1.0 do): a row whose [remoto] is missing, [None], NaN or a
    text, even the text [True], goes. Without a [remoto] column the frame is
    returned as it is, and filtering twice is filtering once. *)
Theorem filter_remote_keeps_true (df : DataFrame) :
  (has_column "remoto" df = false → filter_remote df = df) ∧
  (has_column "remoto" df = true →
   columns (filter_remote df) = columns df ∧
   rows (filter_remote df)
   = List.filter (fun r => eq_true (get r "remoto")) (rows df)) ∧
  (∀ r, eq_true (get r "remoto") = true ↔
        ∃ q, num_of (get r "remoto") = Some (FFin q) ∧ (q == 1)%Q) ∧
  (∀ r, r !! "remoto" = None ∨ (∃ s, r !! "remoto" = Some (CStr s))
        ∨ r !! "remoto" = Some CNone ∨ r !! "remoto" = Some (CFloat FNan) →
        eq_true (get r "remoto") = false) ∧
  filter_remote (filter_remote df) = filter_remote df.
Proof.
  split_and!.
  - intros H. unfold filter_remote. rewrite H. by destruct (empty df).
  - intros H. unfold filter_remote. rewrite H. cbn [negb].
    destruct (empty df) eqn:E; [|done]. split; [done|].
    rewrite (empty_true df E); [done|].
    unfold has_column in H. apply bool_decide_eq_true in H. intros Hc.
    rewrite Hc in H. by apply elem_of_nil in H.
  - intros r. unfold eq_true. destruct (num_of (get r "remoto")) as [[|n|q]|]; cbn.
    + split; [done|]. by intros (q & [= ] & _).
    + split; [done|]. by intros (q & [= ] & _).
    + rewrite Qeq_bool_iff. split; [by exists q|]. by intros (q' & [= <-] & ?).
    + split; [done|]. by intros (q & [= ] & _).
  - intros r [H|[(s & H)|[H|H]]]; unfold get; by rewrite H.
  - apply (masklike_idempotent filter_remote), masklike_filter_remote.
Qed.

(** *** The filters read their lists as sets *)

Lemma search_alts ic rs t :
  rs ≠ [] →
  is_Some (search ic (alts rs) t) ↔ ∃ r, r ∈ rs ∧ is_Some (search ic r t).
Proof.
  intros Hrs. unfold search. rewrite search_from_is_Some. split.
  - intros (pre & post & Ht & H). apply match_here_alts in H as (r & Hr & H); [|done].
    exists r. split; [done|]. apply search_from_is_Some. by exists pre, post.
  - intros (r & Hr & H). apply search_from_is_Some in H as (pre & post & Ht & H).
    exists pre, post. split; [done|]. apply match_here_alts; [done|]. by exists r.
Qed.

Lemma contains_mask_le re re' df r :
  (∀ t, is_Some (search true re t) → is_Some (search true re' t)) →
  contains_mask re df r = true → contains_mask re' df r = true.
Proof.
  intros H. rewrite !contains_mask_true. intros (col & Hcol & Hin & Hs).
  exists col. split_and!; [done|done|by apply H].
Qed.

Lemma contains_mask_same re re' df r :
  (∀ t, is_Some (search true re t) ↔ is_Some (search true re' t)) →
  contains_mask re df r = contains_mask re' df r.
Proof.
  intros H. apply eq_true_iff_eq. split; apply contains_mask_le; intros t; apply H.
Qed.

Lemma filter_sublist_le {A} (f g : A → bool) (l : list A) :
  (∀ x, f x = true → g x = true) → List.filter f l `sublist_of` List.filter g l.
Proof.
  intros H. induction l as [|x l IH]; [done|]. cbn.
  destruct (f x) eqn:E.
  - rewrite (H x E). by constructor.
  - destruct (g x); [by constructor|done].
Qed.

(** X10. [filter_by_skills] reads the skills as a set of keywords: two lists
    that give the same keywords once trimmed and rid of empty entries, in
    whatever order and however often, select the same rows. *)
Theorem filter_by_skills_set (df : DataFrame) (ks ks' : list pystr) :
  (∀ k, k ∈ keywords ks ↔ k ∈ keywords ks') →
  filter_by_skills df ks = filter_by_skills df ks'.
Proof.
  intros Hset. unfold filter_by_skills. rewrite !skills_pattern.
  destruct (keywords ks) as [|k kw] eqn:Ek.
  { assert (keywords ks' = []) as ->.
    { destruct (keywords ks') as [|k' kw'] eqn:Ek'; [done|].
      assert (k' ∈ []) as H by (apply Hset; left). by apply elem_of_nil in H. }
    cbn. by destruct (_ || _), (_ || _). }
  destruct (keywords ks') as [|k' kw'] eqn:Ek'.
  { assert (k ∈ []) as H by (apply Hset; left). by apply elem_of_nil in H. }
  assert (ks ≠ []) as Hks by (intros ->; done).
  assert (ks' ≠ []) as Hks' by (intros ->; done).
  rewrite (bool_decide_eq_false_2 _ Hks), (bool_decide_eq_false_2 _ Hks'), !orb_false_r.
  destruct (empty df); [done|]. cbn [List.map].
  apply select_ext. intros r. apply contains_mask_same. intros t.
  change (escape k :: List.map escape kw) with (List.map escape (k :: kw)).
  change (escape k' :: List.map escape kw') with (List.map escape (k' :: kw')).
  rewrite !search_escaped by done. split; intros (x & Hx & Ho); exists x; (split; [|done]).
  - by apply Hset.
  - by apply Hset.
Qed.

Lemma seniority_patterns_elem p ls :
  p ∈ seniority_patterns ls ↔
  ∃ level, level ∈ ls ∧ p ∈ default [] (SENIORITY_KEYWORDS !! level).
Proof.
  unfold seniority_patterns. induction ls as [|l ls IH]; cbn [List.map List.concat].
  - split; [intros H; by apply elem_of_nil in H|]. intros (l & H & _).
    by apply elem_of_nil in H.
  - rewrite elem_of_app, IH. split.
    + intros [H|(l' & Hl' & H)]; [exists l; split; [left|done]|].
      exists l'. split; [by right|done].
    + intros (l' & Hl' & H). apply elem_of_cons in Hl' as [->|Hl']; [by left|].
      right. by exists l'.
Qed.

(** X11. [filter_by_seniority] reads the levels as a set: lists with the
    same levels select the same rows. Once a requested level contributes a
    pattern, asking for more levels only adds rows. *)
Theorem filter_by_seniority_set (df : DataFrame) (ls ls' : list pystr) :
  ((∀ level, level ∈ ls ↔ level ∈ ls') →
   filter_by_seniority df ls = filter_by_seniority df ls') ∧
  (seniority_patterns ls ≠ [] → (∀ level, level ∈ ls → level ∈ ls') →
   rows (filter_by_seniority df ls) `sublist_of` rows (filter_by_seniority df ls')).
Proof.
  split.
  - intros Hset.
    assert (∀ p, p ∈ seniority_patterns ls ↔ p ∈ seniority_patterns ls') as Hp.
    { intros p. rewrite !seniority_patterns_elem.
      split; intros (l & Hl & H); exists l; (split; [by apply Hset|done]). }
    assert (bool_decide (ls = []) = bool_decide (ls' = [])) as Hnil.
    { apply bool_decide_ext. split; intros ->.
      - destruct ls' as [|l ?]; [done|].
        assert (l ∈ []) as H by (apply Hset; left). by apply elem_of_nil in H.
      - destruct ls as [|l ?]; [done|].
        assert (l ∈ []) as H by (apply Hset; left). by apply elem_of_nil in H. }
    unfold filter_by_seniority. rewrite Hnil.
    destruct (empty df || bool_decide (ls' = [])); [done|].
    destruct (seniority_patterns ls) as [|p ps] eqn:E.
    { assert (seniority_patterns ls' = []) as ->; [|done].
      destruct (seniority_patterns ls') as [|p' ?]; [done|].
      assert (p' ∈ []) as H by (apply Hp; left). by apply elem_of_nil in H. }
    destruct (seniority_patterns ls') as [|p' ps'] eqn:E'.
    { assert (p ∈ []) as H by (apply Hp; left). by apply elem_of_nil in H. }
    apply select_ext. intros r. apply contains_mask_same. intros t.
    rewrite !search_alts by done.
    split; intros (x & Hx & Ho); exists x; (split; [by apply Hp|done]).
  - intros Hne Hsub.
    assert (∀ p, p ∈ seniority_patterns ls → p ∈ seniority_patterns ls') as Hp.
    { intros p. rewrite !seniority_patterns_elem.
      intros (l & Hl & H). exists l. split; [by apply Hsub|done]. }
    assert (ls ≠ []) as Hls by (intros ->; by apply Hne).
    assert (ls' ≠ []) as Hls'.
    { intros ->. destruct ls as [|l ?]; [done|].
      assert (l ∈ []) as H by (apply Hsub; left). by apply elem_of_nil in H. }
    unfold filter_by_seniority.
    rewrite (bool_decide_eq_false_2 _ Hls), (bool_decide_eq_false_2 _ Hls'), !orb_false_r.
    destruct (empty df); [done|].
    destruct (seniority_patterns ls) as [|p ps] eqn:E; [done|].
    destruct (seniority_patterns ls') as [|p' ps'] eqn:E'.
    { assert (p ∈ []) as H by (apply Hp; left). by apply elem_of_nil in H. }
    cbn [select rows]. apply filter_sublist_le. intros r.
    apply contains_mask_le. intros t. rewrite !search_alts by done.
    intros (x & Hx & Ho). exists x. split; [by apply Hp|done].
Qed.

End Stages.

End PipelineFacts.

(** ** The shape of an extracted address *)

Module EmailFacts.
Import Recruiter ReSound RecruiterFacts StripFacts UnicodeFacts.
Local Close Scope N_scope.

Section Addresses.
Context {B : Builtins}.

(** Every text [findall] returns is the text of a match somewhere. *)
Lemma findall_from_elem ic r skip bh ah w :
  w ∈ findall_from ic r skip bh ah →
  ∃ bh' ah' s', match_here ic r bh' ah' = Some s' ∧ w = consumed (MState bh' ah' []) s'.
Proof.
  revert skip bh. induction ah as [|c ah IH]; intros skip bh.
  - destruct skip as [|skip]; cbn [findall_from].
    + destruct (match_here ic r bh []) as [s'|] eqn:E.
      * intros H. apply list_elem_of_singleton in H as ->. by exists bh, [], s'.
      * intros H. by apply elem_of_nil in H.
    + intros H. by apply elem_of_nil in H.
  - destruct skip as [|skip]; cbn [findall_from].
    + destruct (match_here ic r bh (c :: ah)) as [s'|] eqn:E.
      * intros H. apply elem_of_cons in H as [->|H]; [by exists bh, (c :: ah), s'|].
        by apply IH in H.
      * apply IH.
    + apply IH.
Qed.

(** The letters of an address, in lower case: [a] to [z] and the two extra
    cases of [i] and [s], the dotless i and the long s. *)
Definition letters : list N := py "abcdefghijklmnopqrstuvwxyz" ++ [305; 383]%N.

(** The characters of the three parts of an address: those whose lower case
    is a letter, a digit or one of the signs of the part. *)
Definition local_char (c : N) : Prop := lower c ∈ letters ++ py "0123456789._%+-".
Definition domain_char (c : N) : Prop := lower c ∈ letters ++ py "0123456789.-".
Definition tld_char (c : N) : Prop := lower c ∈ letters.

(** [local@domain.tld] *)
Definition address_shape (e : pystr) : Prop :=
  ∃ loc dom tld,
    e = loc ++ [chr "@"] ++ dom ++ [chr "."] ++ tld ∧
    loc ≠ [] ∧ Forall local_char loc ∧
    dom ≠ [] ∧ Forall domain_char dom ∧
    2 ≤ length tld ∧ Forall tld_char tld.

Lemma codes_included cs (codes : list N) c :
  forallb plain_item cs = true → existsb item_cased cs = true →
  forallb (fun x => bool_decide (x ∈ codes)) (set_codes cs) = true →
  cs_match true cs c = true → lower c ∈ codes.
Proof.
  intros Hp Hc Hall Hm. apply (cs_match_codes cs c Hp Hc) in Hm.
  rewrite forallb_forall in Hall. apply list_elem_of_In, Hall in Hm.
  by apply bool_decide_eq_true in Hm.
Qed.

Lemma char_eq_at c : char_eq true c (chr "@") = true → c = chr "@".
Proof. unfold char_eq. cbn. by intros H%N.eqb_eq. Qed.

Lemma char_eq_dot c : char_eq true c (chr ".") = true → c = chr ".".
Proof. unfold char_eq. cbn. by intros H%N.eqb_eq. Qed.

Lemma passes_app w1 w2 s s1 s' :
  passes w1 s s1 → passes w2 s1 s' → passes (w1 ++ w2) s s'.
Proof. apply NameFacts.passes_trans. Qed.

Lemma den_email s s' :
  den true _EMAIL_RE s s' → ∃ e, passes e s s' ∧ address_shape e.
Proof.
  intros (s1 & (loc & Hloc & Hlc & Hln) & s2 & (at_ & Hat & Hatc) & s3 &
          (dom & Hdom & Hdc & Hdn) & s4 & (dot & Hdot & Hdotc) & (tld & Htld & Htc & Htn)).
  apply Forall2_length in Hatc as Hlat. destruct at_ as [|a [|? ?]]; try done.
  apply Forall2_cons_1 in Hatc as [Ha _]. apply char_eq_at in Ha as ->.
  apply Forall2_length in Hdotc as Hldot. destruct dot as [|b [|? ?]]; try done.
  apply Forall2_cons_1 in Hdotc as [Hb _]. apply char_eq_dot in Hb as ->.
  exists (loc ++ [chr "@"] ++ dom ++ [chr "."] ++ tld). split.
  - repeat (eapply passes_app; [eassumption|]). done.
  - exists loc, dom, tld. split_and!; try done.
    + intros ->. cbn in Hln. lia.
    + eapply Forall_impl; [exact Hlc|]. intros c. by apply codes_included.
    + intros ->. cbn in Hdn. lia.
    + eapply Forall_impl; [exact Hdc|]. intros c. by apply codes_included.
    + eapply Forall_impl; [exact Htc|]. intros c. by apply codes_included.
Qed.

Lemma findall_email_shape text e :
  e ∈ findall true _EMAIL_RE text → address_shape e.
Proof.
  intros H. apply findall_from_elem in H as (bh & ah & s' & Hm & ->).
  apply match_here_sound, den_email in Hm as (e & Hp & Hshape).
  by rewrite (NameFacts.passes_consumed _ _ _ Hp).
Qed.

Lemma incl_check (l l' : list N) x :
  forallb (fun y => bool_decide (y ∈ l')) l = true → x ∈ l → x ∈ l'.
Proof.
  intros H Hx. rewrite forallb_forall in H.
  apply list_elem_of_In, H in Hx. by apply bool_decide_eq_true in Hx.
Qed.

Lemma address_char_not_space c : local_char c ∨ domain_char c ∨ tld_char c → is_space c = false.
Proof.
  intros Hc. destruct (is_space c) eqn:Hs; [|done]. exfalso.
  assert (lower c ∈ letters ++ py "0123456789._%+-") as Hl.
  { destruct Hc as [H|[H|H]]; [done| |].
    - by apply (incl_check (letters ++ py "0123456789.-")).
    - apply elem_of_app. by left. }
  rewrite (lower_space c Hs) in Hl. apply is_space_spaces in Hs.
  assert (forallb (fun x => negb (bool_decide (x ∈ letters ++ py "0123456789._%+-")))
                  spaces = true) as Hno by reflexivity.
  rewrite forallb_forall in Hno. apply list_elem_of_In, Hno, negb_true_iff in Hs.
  by apply bool_decide_eq_false in Hs.
Qed.

Lemma address_no_space e : address_shape e → Forall (fun c => is_space c = false) e.
Proof.
  intros (loc & dom & tld & -> & _ & Hl & _ & Hd & _ & Ht).
  rewrite !Forall_app. split_and!.
  - eapply Forall_impl; [exact Hl|]. intros c H. apply address_char_not_space. auto.
  - by repeat constructor.
  - eapply Forall_impl; [exact Hd|]. intros c H. apply address_char_not_space. auto.
  - by repeat constructor.
  - eapply Forall_impl; [exact Ht|]. intros c H. apply address_char_not_space. auto.
Qed.

Lemma no_space_strip e : Forall (fun c => is_space c = false) e → strip e = e.
Proof.
  intros H. destruct e as [|c t]; [done|].
  destruct (exists_last (l := c :: t)) as (t' & c' & Ht); [done|].
  apply (strip_nonspace_ends c t t' c' Ht).
  - by apply Forall_cons in H as [? _].
  - rewrite Ht in H. apply Forall_app in H as [_ H]. by inversion H.
Qed.

Lemma extracted_address text e :
  _extract_email_from_text text = Some e → address_shape e.
Proof.
  intros H. apply _extract_email_Some in H as (l1 & l2 & Hf & _ & _).
  apply (findall_email_shape text). rewrite Hf. apply elem_of_app. right. left.
Qed.

Lemma address_at e : address_shape e → chr "@" ∈ e.
Proof.
  intros (loc & dom & tld & -> & _). rewrite !elem_of_app. right. left. left.
Qed.

Lemma address_not_missing e : address_shape e → e ∉ [py ""; py "nan"; py "None"].
Proof.
  intros Hs Hin. apply address_at in Hs as Hat.
  repeat (apply elem_of_cons in Hin as [->|Hin]);
    try (by apply elem_of_nil in Hin);
    vm_compute in Hat; repeat (apply elem_of_cons in Hat as [Hat|Hat]; [discriminate Hat|]);
    by apply elem_of_nil in Hat.
Qed.

(** X12. An address [_extract_email_from_text] returns has the shape
    [local@domain.tld]: a local part and a domain that are not empty and a
    last part of at least two characters, each made of characters whose
    lower case is a letter ([a] to [z], the dotless i or the long s), a
    digit or one of the signs of the part. It holds no white space, so
    trimming leaves it as it is, and it is none of the texts that stand for
    a missing value. *)
Theorem extracted_email_shape (text e : pystr) :
  _extract_email_from_text text = Some e →
  address_shape e ∧ Forall (fun c => is_space c = false) e ∧ strip e = e ∧
  chr "@" ∈ e ∧ e ∉ [py ""; py "nan"; py "None"].
Proof.
  intros H. apply extracted_address in H as Hs.
  split_and!; [done|by apply address_no_space|by apply no_space_strip, address_no_space
               |by apply address_at|by apply address_not_missing].
Qed.

End Addresses.

End EmailFacts.

(** ** More of [str] *)

Module Text.

(** [s.split(sep)] for a separator of one character. *)
Fixpoint split_on (sep : N) (s : pystr) : list pystr :=
  match s with
  | [] => [[]]
  | c :: t =>
      if c =? sep then [] :: split_on sep t
      else match split_on sep t with
           | h :: r => (c :: h) :: r
           | [] => [[c]]
           end
  end.

(** [sep.join(parts)] *)
Fixpoint join (sep : pystr) (parts : list pystr) : pystr :=
  match parts with
  | [] => []
  | [p] => p
  | p :: ps => p ++ sep ++ join sep ps
  end.

(** [s.replace(c, new)] for one character [c]. *)
Definition replace (c : N) (new : pystr) (s : pystr) : pystr :=
  flat_map (fun x => if x =? c then new else [x]) s.

End Text.
Export Text.

(** ** posts_scraper.py *)

Module Posts.

(* The package [ddgs] is taken as installed: the ImportError of a missing
   package is outside the model. *)

(** [PLATFORMS]: for each key, the label and the site filter. *)
Definition PLATFORMS : gmap pystr (pystr * pystr) :=
  <[py "linkedin_posts" :=
      (py "LinkedIn Posts",
       py "(site:linkedin.com/posts OR site:linkedin.com/pulse) -site:linkedin.com/jobs")]>
  (<[py "twitter" := (py "Twitter / X", py "site:twitter.com OR site:x.com")]>
  (<[py "instagram" := (py "Instagram", py "site:instagram.com")]>
  (<[py "facebook" := (py "Facebook", py "site:facebook.com")]> ∅))).

Definition _JOB_PHRASES : list pystr :=
  [ py "estamos contratando"; py "vaga aberta"; py "vagas abertas";
    py "oportunidade de emprego"; py "estou contratando";
    py "vagas dispon" ++ [237] ++ py "veis"; py "processo seletivo";
    py "we are hiring"; py "job opening"; py "now hiring"; py "join our team";
    py "looking for"; py "procurando profissional"; py "buscamos profissional" ].

(** [[a-zA-Z0-9._%+\-]+@[a-zA-Z0-9.\-]+\.[a-zA-Z]{2,}], with [re.IGNORECASE] *)
Definition _EMAIL_RE : regex :=
  cat [ Many 1 None [CRange (chr "a") (chr "z"); CRange (chr "A") (chr "Z");
                     CRange (chr "0") (chr "9"); CChar (chr "."); CChar (chr "_");
                     CChar (chr "%"); CChar (chr "+"); CChar (chr "-")];
        Lit (py "@");
        Many 1 None [CRange (chr "a") (chr "z"); CRange (chr "A") (chr "Z");
                     CRange (chr "0") (chr "9"); CChar (chr "."); CChar (chr "-")];
        Lit (py ".");
        Many 2 None [CRange (chr "a") (chr "z"); CRange (chr "A") (chr "Z")] ].

Definition _build_query (search_term location site_filter : pystr) : pystr :=
  let phrases :=
    (* 34 is the double quote *)
    join (py " OR ") (List.map (fun p => [34] ++ p ++ [34]) (take 6 _JOB_PHRASES)) in
  let loc := strip (default [] (head (split_on (chr ",") location))) in
  py "(" ++ phrases ++ py ") " ++ search_term ++ py " " ++ loc ++ py " " ++ site_filter.

Section Search.
Context {B : Builtins}.

(** [text] is a text or [None]; [text or ""] is searched. *)
Definition _extract_email (text : option pystr) : option pystr :=
  let found := findall true _EMAIL_RE (default [] text) in
  let filtered :=
    List.filter
      (fun e => negb (existsb (fun suf => endswith suf e)
                              [py ".png"; py ".jpg"; py ".gif"; py ".svg"])) found in
  head filtered.

(** One result of the search engine: the values under [body], [title],
    [href] and [published], a text or nothing. *)
Record hit := Hit {
  body : option pystr;
  title : option pystr;
  href : option pystr;
  published : option pystr;
}.

(** [datetime.fromisoformat(s).strftime("%Y-%m-%d")]; [None] is the
    ValueError. *)
Variable isoformat_day : pystr → option pystr.
(** [list(ddgs.text(query, max_results=n))], or the exception it raises. *)
Variable ddgs_text : pystr → Z → result (list hit).

Definition post_date (date_str : pystr) : option pystr :=
  match date_str with
  | [] => None
  | _ =>
      match isoformat_day (replace (chr "Z") (py "+00:00") date_str) with
      | Some day => Some day
      | None => if (10 <=? length date_str)%nat then Some (take 10 date_str) else None
      end
  end.

(** The dictionary appended to [all_rows] for one result. *)
Definition post_row (platform_key : pystr) (r : hit) : gmap string Cell :=
  let snippet := default [] (body r) in
  let title := default [] (title r) in
  let link := default [] (href r) in
  let date_str := default [] (published r) in
  list_to_map
    [ ("site", CStr (py "post_" ++ platform_key));
      ("titulo", CStr title);
      ("empresa", CNone);
      ("localizacao", CNone);
      ("remoto", CBool false);
      ("tipo_vaga", CStr (py "Post"));
      ("salario_min", CNone);
      ("salario_max", CNone);
      ("moeda", CNone);
      ("data_postagem", of_option (post_date date_str));
      ("link", CStr link);
      ("emails", of_option (_extract_email (Some snippet)));
      ("descricao", CStr snippet) ].

Definition post_columns : list string :=
  [ "site"; "titulo"; "empresa"; "localizacao"; "remoto"; "tipo_vaga";
    "salario_min"; "salario_max"; "moeda"; "data_postagem"; "link"; "emails";
    "descricao" ].

(** The rows one platform contributes: none when the search raises. *)
Definition platform_rows (search_term location : pystr) (results_per_platform : Z)
    (platform_key : pystr) : list (gmap string Cell) :=
  match PLATFORMS !! platform_key with
  | None => []
  | Some (_, site_filter) =>
      match ddgs_text (_build_query search_term location site_filter)
                      results_per_platform with
      | Ok results => List.map (post_row platform_key) results
      | Raise _ => []
      end
  end.

Definition search_posts (search_term location : pystr)
    (platforms : option (list pystr)) (results_per_platform : Z) : result DataFrame :=
  let platforms := default [py "linkedin_posts"; py "twitter"] platforms in
  let invalid :=
    List.filter (fun p => bool_decide (PLATFORMS !! p = None)) platforms in
  match invalid with
  | _ :: _ => Raise ValueError
  | [] =>
      let all_rows :=
        List.concat (List.map (platform_rows search_term location results_per_platform)
                              platforms) in
      match all_rows with
      | [] => Ok (Df [] [])
      | _ => Ok (Df post_columns all_rows)
      end
  end.

End Search.

End Posts.

(** ** Properties of posts_scraper.py *)

Module PostsFacts.
Import Recruiter RecruiterFacts EmailFacts Posts Filters.
Local Close Scope N_scope.

Section Search.
Context {B : Builtins}.

Lemma _EMAIL_RE_same : Posts._EMAIL_RE = Recruiter._EMAIL_RE.
Proof. reflexivity. Qed.

(** [posts_scraper._extract_email] and [recruiter._extract_email_from_text]
    return the same address for every text, the empty one included; [None]
    in place of a text gives no address. *)
Lemma _extract_email_agrees (text : pystr) :
  _extract_email (Some text) = _extract_email_from_text text ∧
  _extract_email None = None.
Proof.
  split; [|reflexivity]. destruct text as [|c text]; reflexivity.
Qed.

Variable isoformat_day : pystr → option pystr.
Variable ddgs_text : pystr → Z → result (list hit).

Lemma post_row_lookup key r :
  post_row isoformat_day key r !! "site" = Some (CStr (py "post_" ++ key)) ∧
  post_row isoformat_day key r !! "remoto" = Some (CBool false) ∧
  post_row isoformat_day key r !! "tipo_vaga" = Some (CStr (py "Post")) ∧
  post_row isoformat_day key r !! "emails"
  = Some (of_option (_extract_email (Some (default [] (body r))))) ∧
  post_row isoformat_day key r !! "descricao" = Some (CStr (default [] (body r))) ∧
  post_row isoformat_day key r !! "link" = Some (CStr (default [] (href r))).
Proof. unfold post_row. cbn [list_to_map foldr uncurry]. by simplify_map_eq. Qed.

Lemma post_row_columns key r c :
  c ∈ post_columns ↔ is_Some (post_row isoformat_day key r !! c).
Proof.
  unfold post_row, post_columns. cbn [list_to_map foldr uncurry fst snd]. split.
  - intros H. repeat (apply elem_of_cons in H as [->|H]; [by simplify_map_eq|]).
    by apply elem_of_nil in H.
  - intros [v H]. rewrite !elem_of_cons.
    repeat (apply lookup_insert_Some in H as [[<- _]|[_ H]]; [by auto 20|]).
    by apply lookup_empty_Some in H.
Qed.

(** A hint that [_extract_email_from_text] found in the description is
    what [_get_email] returns. *)
Lemma hint_of_description (t : pystr) :
  let raw := of_option (_extract_email_from_text t) in
  of_option
    (if truthy raw && negb (bool_decide (str_ raw ∈ [py ""; py "nan"; py "None"]))
     then Some (strip (str_ raw))
     else _extract_email_from_text (str_ (if truthy (CStr t) then CStr t else CStr [])))
  = raw.
Proof.
  cbv zeta.
  assert (str_ (if truthy (CStr t) then CStr t else CStr []) = t) as ->.
  { cbn [truthy]. unfold pystr_eqb. case_bool_decide as Hn; cbn [negb str_]; done. }
  destruct (_extract_email_from_text t) as [e|] eqn:E; [|reflexivity].
  pose proof (extracted_address _ _ E) as Hs.
  pose proof (no_space_strip _ (address_no_space _ Hs)) as Hstrip.
  pose proof (address_not_missing _ Hs) as Hnot.
  cbn [of_option truthy str_].
  assert (e ≠ []) as Hne.
  { intros ->. apply Hnot. left. }
  unfold pystr_eqb. rewrite (bool_decide_eq_false_2 _ Hne).
  rewrite (bool_decide_eq_false_2 _ Hnot). cbn [negb andb of_option]. by rewrite Hstrip.
Qed.

(** The enrichment gives a post the address its scraper found. *)
Lemma post_row_email key r :
  of_option (_get_email (post_row isoformat_day key r))
  = get (post_row isoformat_day key r) "emails".
Proof.
  destruct (post_row_lookup key r) as (_ & _ & _ & He & Hd & _).
  unfold _get_email, description_text, get. rewrite He, Hd. cbn [default id].
  destruct (body r) as [[|c t]|]; cbn [default].
  - reflexivity.
  - exact (hint_of_description (c :: t)).
  - reflexivity.
Qed.

Lemma platform_rows_elem term loc n key r :
  r ∈ platform_rows isoformat_day ddgs_text term loc n key →
  ∃ h, r = post_row isoformat_day key h.
Proof.
  unfold platform_rows. destruct (PLATFORMS !! key) as [[label filter]|];
    [|intros H; by apply elem_of_nil in H].
  destruct (ddgs_text _ n) as [results|e]; [|intros H; by apply elem_of_nil in H].
  intros H. apply list_elem_of_In, in_map_iff in H as (h & <- & _). by exists h.
Qed.

Lemma search_posts_rows term loc platforms n df r :
  search_posts isoformat_day ddgs_text term loc platforms n = Ok df →
  r ∈ rows df → ∃ key h, r = post_row isoformat_day key h.
Proof.
  unfold search_posts. destruct (List.filter _ _); [|done].
  destruct (List.concat _) as [|r0 l] eqn:E.
  - intros [= <-] H. by apply elem_of_nil in H.
  - intros [= <-] H. cbn [rows] in H. rewrite <- E in H.
    apply list_elem_of_In, in_concat in H as (rs & Hrs & Hr).
    apply in_map_iff in Hrs as (key & <- & _).
    apply list_elem_of_In, platform_rows_elem in Hr as (h & ->). by exists key, h.
Qed.

(** X13. Every row of the frame [search_posts] returns has the thirteen
    columns of the schema, a site that starts with [post_] (so the filters
    deduplicate it among the posts), [remoto] false and the type [Post]; and
    the enrichment gives it as [email_recrutador] the very address the
    scraper put in [emails]. *)
Theorem search_posts_rows_are_posts (term loc : pystr) (platforms : option (list pystr))
    (n : Z) (df : DataFrame) :
  search_posts isoformat_day ddgs_text term loc platforms n = Ok df →
  (rows df = [] ∧ columns df = [] ∨ rows df ≠ [] ∧ columns df = post_columns) ∧
  ∀ r, r ∈ rows df →
       (∀ c, c ∈ post_columns ↔ is_Some (r !! c)) ∧
       is_post (get r "site") = true ∧
       get r "remoto" = CBool false ∧
       get r "tipo_vaga" = CStr (py "Post") ∧
       of_option (_get_email r) = get r "emails".
Proof.
  intros H. split.
  - unfold search_posts in H. destruct (List.filter _ _); [|done].
    destruct (List.concat _); injection H as <-; [by left|by right].
  - intros r Hr. destruct (search_posts_rows _ _ _ _ _ _ H Hr) as (key & h & ->).
    destruct (post_row_lookup key h) as (Hs & Hrem & Ht & _).
    split_and!.
    + intros c. apply post_row_columns.
    + unfold get. rewrite Hs. reflexivity.
    + unfold get. by rewrite Hrem.
    + unfold get. by rewrite Ht.
    + apply post_row_email.
Qed.

(** X14. [search_posts] raises exactly when a requested platform is not one
    of [linkedin_posts], [twitter], [instagram] and [facebook], and then a
    ValueError; a search that fails on every platform gives the empty
    frame. *)
Theorem search_posts_validates_platforms (term loc : pystr) (platforms : list pystr) (n : Z) :
  (∀ e, search_posts isoformat_day ddgs_text term loc (Some platforms) n = Raise e ↔
        e = ValueError ∧
        ∃ p, p ∈ platforms ∧
             p ∉ [py "linkedin_posts"; py "twitter"; py "instagram"; py "facebook"]) ∧
  ((∀ q k, ∃ e, ddgs_text q k = Raise e) →
   Forall (fun p => p ∈ [py "linkedin_posts"; py "twitter"; py "instagram"; py "facebook"])
          platforms →
   search_posts isoformat_day ddgs_text term loc (Some platforms) n = Ok (Df [] [])).
Proof.
  assert (∀ p, PLATFORMS !! p = None ↔
               p ∉ [py "linkedin_posts"; py "twitter"; py "instagram"; py "facebook"])
    as Hkeys.
  { intros p. unfold PLATFORMS. rewrite !not_elem_of_cons. split.
    - intros H. split_and!; try (intros ->; by vm_compute in H). apply not_elem_of_nil.
    - intros (H1 & H2 & H3 & H4 & _). rewrite !lookup_insert_ne by done.
      apply lookup_empty. }
  split.
  - intros e. unfold search_posts. cbn [default id].
    destruct (List.filter (fun p => bool_decide (PLATFORMS !! p = None)) platforms)
      as [|p l] eqn:E.
    + split.
      * intros H. by case_match.
      * intros (_ & p & Hp & Hn). exfalso.
        assert (In p (List.filter (fun p => bool_decide (PLATFORMS !! p = None)) platforms))
          as Hin.
        { apply filter_In. split; [by apply list_elem_of_In|].
          apply bool_decide_eq_true. by apply Hkeys. }
        by rewrite E in Hin.
    + split.
      * intros [= <-]. split; [done|]. exists p.
        assert (In p (List.filter (fun p => bool_decide (PLATFORMS !! p = None)) platforms))
          as Hin by (rewrite E; left; done).
        apply filter_In in Hin as [Hin Hp]. apply bool_decide_eq_true in Hp.
        split; [by apply list_elem_of_In|by apply Hkeys].
      * by intros [-> _].
  - intros Hfail Hall. unfold search_posts. cbn [default id].
    rewrite (PipelineFacts.filter_none _ platforms).
    + assert (List.concat (List.map (platform_rows isoformat_day ddgs_text term loc n)
                             platforms) = []) as ->; [|done].
      clear Hall. induction platforms as [|p ps IH]; [done|]. cbn [List.map List.concat].
      rewrite IH. unfold platform_rows.
      destruct (PLATFORMS !! p) as [[label filter]|]; [|done].
      by destruct (Hfail (_build_query term loc filter) n) as [e ->].
    + eapply Forall_impl; [exact Hall|]. intros p Hp. cbv beta.
      apply bool_decide_eq_false. rewrite Hkeys. by intros Hn.
Qed.

End Search.

End PostsFacts.

(** ** Enrichment and filters *)

Module OrderFacts.
Import Py Re Frame Recruiter Filters FiltersFacts RecruiterFacts PipelineFacts.
Local Close Scope N_scope.

(** The columns the filters read. *)
Definition key_columns : list string := ["link"; "site"; "remoto"; "titulo"; "descricao"].

Lemma filter_map_compat {A} (g : A → A) (m m' : A → bool) (l : list A) :
  (∀ r, m' (g r) = m r) → List.filter m' (List.map g l) = List.map g (List.filter m l).
Proof.
  intros H. induction l as [|r l IH]; [done|]. cbn [List.map List.filter].
  rewrite H. destruct (m r); cbn [List.map]; by rewrite IH.
Qed.

Lemma drop_duplicates_map (g : gmap string Cell → gmap string Cell) c seen l :
  (∀ r, get (g r) c = get r c) →
  drop_duplicates c seen (List.map g l) = List.map g (drop_duplicates c seen l).
Proof.
  intros H. revert seen. induction l as [|r l IH]; intros seen; [done|].
  cbn [List.map drop_duplicates]. rewrite H.
  destruct (existsb _ seen); cbn [List.map]; by rewrite IH.
Qed.

Lemma remote_shape c l :
  c ≠ [] →
  filter_remote (Df c l)
  = if negb (has_column "remoto" (Df c [])) then Df c l
    else Df c (List.filter (fun r => eq_true (get r "remoto")) l).
Proof.
  intros Hc. unfold filter_remote, empty, has_column, select. cbn [rows columns].
  destruct l as [|r l], c as [|c0 c]; try done.
  by destruct (bool_decide _).
Qed.

Section Shapes.
Context {B : Builtins}.

Lemma mask_shape (re : regex) c l :
  select (contains_mask re (Df c l)) (Df c l)
  = Df c (List.filter (contains_mask re (Df c [])) l).
Proof.
  reflexivity.
Qed.

Lemma skills_shape c l ks :
  c ≠ [] →
  filter_by_skills (Df c l) ks
  = if bool_decide (ks = []) || bool_decide (List.map (fun s => escape (strip s))
         (List.filter (fun s => negb (pystr_eqb (strip s) [])) ks) = [])
    then Df c l
    else Df c (List.filter
                 (contains_mask
                    (alts (List.map (fun s => escape (strip s))
                             (List.filter (fun s => negb (pystr_eqb (strip s) [])) ks)))
                    (Df c [])) l).
Proof.
  intros Hc. unfold filter_by_skills.
  destruct (bool_decide (ks = [])) eqn:Hks.
  { by rewrite orb_true_r. }
  rewrite !orb_false_r. cbn [orb].
  destruct (List.map _ _) as [|p ps] eqn:Hp.
  { by destruct (empty _). }
  rewrite bool_decide_eq_false_2 by done.
  destruct l as [|r l]; [by destruct c|].
  assert (empty (Df c (r :: l)) = false) as -> by (by destruct c).
  apply mask_shape.
Qed.

Lemma seniority_shape c l ls :
  c ≠ [] →
  filter_by_seniority (Df c l) ls
  = if bool_decide (ls = []) || bool_decide (seniority_patterns ls = [])
    then Df c l
    else Df c (List.filter (contains_mask (alts (seniority_patterns ls)) (Df c [])) l).
Proof.
  intros Hc. unfold filter_by_seniority.
  destruct (bool_decide (ls = [])) eqn:Hls.
  { by rewrite orb_true_r. }
  rewrite !orb_false_r. cbn [orb].
  destruct (seniority_patterns ls) as [|p ps] eqn:Hp.
  { by destruct (empty _). }
  rewrite bool_decide_eq_false_2 by done.
  destruct l as [|r l]; [by destruct c|].
  assert (empty (Df c (r :: l)) = false) as -> by (by destruct c).
  apply mask_shape.
Qed.

End Shapes.

Section Natural.
Context {B : Builtins}.
Variable g : gmap string Cell → gmap string Cell.
Variables cols cols' : list string.
Hypothesis g_keys : ∀ r c, c ∈ key_columns → get (g r) c = get r c.
Hypothesis cols_keys : ∀ c, c ∈ key_columns → c ∈ cols ↔ c ∈ cols'.
Hypothesis cols_ne : cols ≠ [].
Hypothesis cols'_ne : cols' ≠ [].

(** A stage that gives the same rows whether [g] is applied before or after
    it. *)
Definition natural (st : DataFrame → DataFrame) : Prop :=
  ∀ l, columns (st (Df cols l)) = cols ∧
       st (Df cols' (List.map g l)) = Df cols' (List.map g (rows (st (Df cols l)))).

Lemma natural_id : natural (fun y => y).
Proof using Type. by intros l. Qed.

Lemma natural_compose f h : natural f → natural h → natural (fun y => h (f y)).
Proof using Type.
  intros Hf Hh l. destruct (Hf l) as [Hc Hr].
  assert (f (Df cols l) = Df cols (rows (f (Df cols l)))) as Hshape.
  { destruct (f (Df cols l)) as [c rs]. cbn in Hc. by subst c. }
  destruct (Hh (rows (f (Df cols l)))) as [Hc' Hr'].
  rewrite Hr, Hr'. by rewrite <- Hshape in *.
Qed.

Lemma natural_mask (st : DataFrame → DataFrame) (skip : bool)
    (m m' : gmap string Cell → bool) :
  (∀ l, st (Df cols l) = if skip then Df cols l else Df cols (List.filter m l)) →
  (∀ l, st (Df cols' l) = if skip then Df cols' l else Df cols' (List.filter m' l)) →
  (∀ r, m' (g r) = m r) → natural st.
Proof using Type.
  intros H H' Hm l. rewrite H, H'. destruct skip; [done|].
  cbn [columns rows]. by rewrite (filter_map_compat g m m').
Qed.

Lemma has_key c : c ∈ key_columns →
  has_column c (Df cols' []) = has_column c (Df cols []).
Proof using cols_keys.
  intros Hc. unfold has_column. cbn [columns]. apply bool_decide_ext.
  symmetry. by apply cols_keys.
Qed.

Lemma contains_mask_natural re r :
  contains_mask re (Df cols' []) (g r) = contains_mask re (Df cols []) r.
Proof using g_keys cols_keys.
  unfold contains_mask. cbn [foldl].
  rewrite !has_key by (unfold key_columns; rewrite !elem_of_cons; auto 10).
  rewrite !g_keys by (unfold key_columns; rewrite !elem_of_cons; auto 10). done.
Qed.

Lemma natural_filter_remote : natural filter_remote.
Proof using g_keys cols_keys cols_ne cols'_ne.
  apply (natural_mask _ (negb (has_column "remoto" (Df cols [])))
           (fun r => eq_true (get r "remoto")) (fun r => eq_true (get r "remoto"))).
  - intros l. by apply remote_shape.
  - intros l. rewrite <- has_key by (unfold key_columns; rewrite !elem_of_cons; auto 10).
    by apply remote_shape.
  - intros r. by rewrite g_keys by (unfold key_columns; rewrite !elem_of_cons; auto 10).
Qed.

Lemma natural_filter_by_skills ks : natural (fun y => filter_by_skills y ks).
Proof using g_keys cols_keys cols_ne cols'_ne.
  eapply (natural_mask _ _ _ _).
  - intros l. by apply skills_shape.
  - intros l. by apply skills_shape.
  - intros r. apply contains_mask_natural.
Qed.

Lemma natural_filter_by_seniority ls : natural (fun y => filter_by_seniority y ls).
Proof using g_keys cols_keys cols_ne cols'_ne.
  eapply (natural_mask _ _ _ _).
  - intros l. by apply seniority_shape.
  - intros l. by apply seniority_shape.
  - intros r. apply contains_mask_natural.
Qed.

Lemma natural_dedup_stage : natural dedup_stage.
Proof using g_keys cols_keys.
  assert (∀ c, c ∈ key_columns → ∀ x x', has_column c (Df cols' x) = has_column c (Df cols x'))
    as Hhas.
  { intros c Hc x x'. exact (has_key c Hc). }
  assert ("site" ∈ key_columns ∧ "link" ∈ key_columns) as [Hsite Hlink].
  { unfold key_columns. rewrite !elem_of_cons. auto 10. }
  intros l. split; [apply dedup_stage_columns|].
  rewrite !dedup_stage_kept. cbn [columns rows]. f_equal. unfold kept.
  rewrite (Hhas "site" Hsite _ l), (Hhas "link" Hlink _ l).
  assert (∀ r, is_post (get (g r) "site") = is_post (get r "site")) as Hpost.
  { intros r. by rewrite g_keys. }
  assert (∀ r, negb (is_post (get (g r) "site")) = negb (is_post (get r "site"))) as Hjob.
  { intros r. by rewrite g_keys. }
  destruct (has_column "site" _), (has_column "link" _);
    rewrite ?List.map_app,
      ?(filter_map_compat g _ (fun r => is_post (get r "site")) l Hpost),
      ?(filter_map_compat g _ (fun r => negb (is_post (get r "site"))) l Hjob),
      ?drop_duplicates_map by (intros r; by apply g_keys); done.
Qed.

Lemma natural_narrow skills remote_only seniority :
  natural (narrow skills remote_only seniority).
Proof using g_keys cols_keys cols_ne cols'_ne.
  unfold narrow.
  apply (natural_compose
           (fun y => match active skills with
                     | Some ks => filter_by_skills (if remote_only then filter_remote y else y) ks
                     | None => if remote_only then filter_remote y else y
                     end)
           (fun y => match active seniority with
                     | Some ls => filter_by_seniority y ls
                     | None => y
                     end)).
  - apply (natural_compose
             (fun y => if remote_only then filter_remote y else y)
             (fun y => match active skills with
                       | Some ks => filter_by_skills y ks
                       | None => y
                       end)).
    + destruct remote_only; [apply natural_filter_remote|apply natural_id].
    + destruct (active skills); [apply natural_filter_by_skills|apply natural_id].
  - destruct (active seniority); [apply natural_filter_by_seniority|apply natural_id].
Qed.

Lemma natural_apply_all_filters skills remote_only seniority :
  natural (fun y => apply_all_filters y skills remote_only seniority).
Proof using g_keys cols_keys cols_ne cols'_ne.
  intros l. rewrite !apply_all_filters_narrow.
  exact (natural_compose dedup_stage (narrow skills remote_only seniority)
           natural_dedup_stage (natural_narrow _ _ _) l).
Qed.

End Natural.

Lemma assign_columns_elem k f df c : c ∈ columns (assign k f df) ↔ c ∈ columns df ∨ c = k.
Proof.
  unfold assign, has_column. cbn [columns]. case_bool_decide as Hk.
  - split; [by left|]. by intros [?| ->].
  - by rewrite elem_of_app, list_elem_of_singleton.
Qed.

Lemma drop_columns_elem k df c : c ∈ columns (drop k df) ↔ c ∈ columns df ∧ c ≠ k.
Proof.
  unfold drop. cbn [columns].
  rewrite list_elem_of_In, filter_In, <- list_elem_of_In, negb_true_iff, bool_decide_eq_false.
  done.
Qed.

Section Enrich.
Context {B : Builtins}.

(** The columns of the enriched frame. *)
Definition enriched_columns (cols : list string) : list string :=
  columns (enrich_recruiter_info (Df cols [])).

Lemma enrich_shape df :
  enrich_recruiter_info df
  = Df (enriched_columns (columns df)) (List.map (enrich_row (columns df)) (rows df)).
Proof.
  pose proof (enrich_rows df) as Hr.
  assert (columns (enrich_recruiter_info df) = enriched_columns (columns df)) as Hc.
  { destruct df as [c l]. unfold enriched_columns, enrich_recruiter_info.
    change (has_column "emails" (assign "nome_recrutador" _ (assign "email_recrutador" _
              (Df c l))))
      with (has_column "emails" (assign "nome_recrutador" (fun r => of_option (_get_name r))
              (assign "email_recrutador" (fun r => of_option (_get_email r)) (Df c [])))).
    by destruct (has_column "emails" _). }
  destruct (enrich_recruiter_info df) as [c' l']. cbn [columns rows] in *. subst.
  reflexivity.
Qed.

Lemma enriched_columns_elem cols c :
  c ∈ enriched_columns cols ↔
  c ≠ "emails" ∧ (c ∈ cols ∨ c = "email_recrutador" ∨ c = "nome_recrutador").
Proof.
  unfold enriched_columns, enrich_recruiter_info.
  set (d := assign "nome_recrutador" _ (assign "email_recrutador" _ (Df cols []))).
  assert (c ∈ columns d ↔ c ∈ cols ∨ c = "email_recrutador" ∨ c = "nome_recrutador") as Hd.
  { unfold d. rewrite !assign_columns_elem. cbn [columns]. tauto. }
  destruct (has_column "emails" d) eqn:He.
  - rewrite drop_columns_elem, Hd. tauto.
  - rewrite Hd. split; [|tauto]. intros H. split; [|done]. intros ->.
    apply bool_decide_eq_false in He. apply He, Hd. destruct H as [H|[H|H]]; by auto.
Qed.

Lemma key_columns_other c :
  c ∈ key_columns →
  c ≠ "emails" ∧ c ≠ "email_recrutador" ∧ c ≠ "nome_recrutador".
Proof.
  unfold key_columns. rewrite !elem_of_cons.
  intros [->|[->|[->|[->|[->|H]]]]]; [done..|by apply elem_of_nil in H].
Qed.

(** X15. The enrichment and the filters can be run in either order: on a
    frame that has columns, filtering the enriched frame gives the frame that
    enriching the filtered one gives. *)
Theorem enrich_commutes_with_filters (df : DataFrame) (skills seniority : option (list pystr))
    (remote_only : bool) :
  columns df ≠ [] →
  apply_all_filters (enrich_recruiter_info df) skills remote_only seniority
  = enrich_recruiter_info (apply_all_filters df skills remote_only seniority).
Proof.
  intros Hc. destruct df as [cols l]. cbn [columns] in Hc.
  rewrite (enrich_shape (Df cols l)). cbn [columns rows].
  assert (∀ r c, c ∈ key_columns → get (enrich_row cols r) c = get r c) as Hg.
  { intros r c Hk. destruct (key_columns_other c Hk) as (H1 & H2 & H3).
    unfold get. rewrite enrich_row_other; [done|].
    rewrite !not_elem_of_cons. split_and!; [done..|apply not_elem_of_nil]. }
  assert (∀ c, c ∈ key_columns → c ∈ cols ↔ c ∈ enriched_columns cols) as Hk.
  { intros c Hk. destruct (key_columns_other c Hk) as (H1 & H2 & H3).
    rewrite enriched_columns_elem. tauto. }
  assert (enriched_columns cols ≠ []) as Hc'.
  { intros E. assert ("nome_recrutador" ∈ enriched_columns cols) as Hn.
    { apply enriched_columns_elem. split; [done|by auto]. }
    rewrite E in Hn. by apply elem_of_nil in Hn. }
  destruct (natural_apply_all_filters (enrich_row cols) cols (enriched_columns cols)
              Hg Hk Hc Hc' skills remote_only seniority l) as [Hcol Hrows].
  rewrite Hrows.
  rewrite (enrich_shape (apply_all_filters (Df cols l) skills remote_only seniority)).
  by rewrite Hcol.
Qed.

End Enrich.

End OrderFacts.

(** ** The skills option of the command line and of the window *)

(** main.py, [cmd_search]: the list passed as [skills], from the value of
    [--skills] ([None] when the option is absent). *)
Module Main.
Import Py Text.

Definition skills (arg : option pystr) : option (list pystr) :=
  match arg with
  | Some (c :: s) => Some (List.map strip (split_on (chr ",") (c :: s)))
  | _ => None
  end.

End Main.

(** gui.py, [_start_search]: the list passed as [skills], from the text of
    the entry. *)
Module Gui.
Import Py Text.

Definition skills (entry : pystr) : option (list pystr) :=
  let skills_raw := strip entry in
  match List.map strip
          (List.filter (fun s => negb (pystr_eqb (strip s) []))
                       (split_on (chr ",") skills_raw)) with
  | [] => None
  | l => Some l
  end.

End Gui.

Module SkillsFacts.
Import Py Re Frame Filters FiltersFacts StripFacts PipelineFacts Text.
Local Close Scope N_scope.

Lemma split_on_cons sep s : ∃ h r, split_on sep s = h :: r.
Proof.
  induction s as [|c t (h & r & IH)]; [by exists [], []|]. cbn [split_on].
  destruct (c =? sep)%N; [by eauto|]. rewrite IH. by eauto.
Qed.

Lemma split_on_none sep s : Forall (fun c => c ≠ sep) s → split_on sep s = [s].
Proof.
  induction 1 as [|c t Hc _ IH]; [done|]. cbn [split_on].
  rewrite (proj2 (N.eqb_neq c sep) Hc). by rewrite IH.
Qed.

(** [y] appended to the last text of a list. *)
Fixpoint app_last (l : list pystr) (y : pystr) : list pystr :=
  match l with
  | [] => []
  | [h] => [h ++ y]
  | h :: r => h :: app_last r y
  end.

Lemma split_on_app sep x y :
  Forall (fun c => c ≠ sep) y → split_on sep (x ++ y) = app_last (split_on sep x) y.
Proof.
  intros Hy. induction x as [|c t IH]; [by apply split_on_none|].
  cbn [app split_on]. rewrite IH. destruct (split_on_cons sep t) as (h & r & E). rewrite E.
  destruct (c =? sep)%N; [done|]. by destruct r.
Qed.

Lemma lstrip_spaces sp : Forall (fun c => is_space c = true) sp → lstrip sp = [].
Proof. induction 1 as [|c t Hc _ IH]; [done|]. cbn [lstrip]. by rewrite Hc. Qed.

Lemma lstrip_spaces_app sp w :
  Forall (fun c => is_space c = true) sp → lstrip (sp ++ w) = lstrip w.
Proof. induction 1 as [|c t Hc _ IH]; [done|]. cbn [app lstrip]. by rewrite Hc. Qed.

Lemma strip_space_cons c h : is_space c = true → strip (c :: h) = strip h.
Proof. intros Hc. unfold strip. cbn [lstrip]. by rewrite Hc. Qed.

Lemma strip_app_spaces h sp :
  Forall (fun c => is_space c = true) sp → strip (h ++ sp) = strip h.
Proof.
  intros Hsp. induction h as [|c t IH].
  - unfold strip. cbn [app]. by rewrite lstrip_spaces.
  - cbn [app]. destruct (is_space c) eqn:Hc.
    + by rewrite !strip_space_cons.
    + unfold strip. cbn [lstrip]. rewrite Hc.
      change (c :: t ++ sp) with ((c :: t) ++ sp). unfold rstrip.
      rewrite rev_app_distr, lstrip_spaces_app; [done|].
      by apply Forall_rev.
Qed.

Lemma map_strip_app_last l sp :
  Forall (fun c => is_space c = true) sp →
  List.map strip (app_last l sp) = List.map strip l.
Proof.
  intros Hsp. induction l as [|h [|h' r] IH]; [done| |].
  - cbn. by rewrite strip_app_spaces.
  - change (app_last (h :: h' :: r) sp) with (h :: app_last (h' :: r) sp).
    cbn [List.map]. by rewrite IH.
Qed.

Section Split.
Variable sep : N.
Hypothesis sep_not_space : is_space sep = false.

Lemma spaces_not_sep sp :
  Forall (fun c => is_space c = true) sp → Forall (fun c => c ≠ sep) sp.
Proof using sep_not_space.
  intros H. eapply Forall_impl; [exact H|]. intros c Hc ->.
  by rewrite sep_not_space in Hc.
Qed.

Lemma split_lstrip s :
  List.map strip (split_on sep (lstrip s)) = List.map strip (split_on sep s).
Proof using sep_not_space.
  induction s as [|c t IH]; [done|]. cbn [lstrip].
  destruct (is_space c) eqn:Hc; [|done]. rewrite IH. cbn [split_on].
  assert ((c =? sep)%N = false) as ->.
  { apply N.eqb_neq. intros ->. by rewrite sep_not_space in Hc. }
  destruct (split_on_cons sep t) as (h & r & E). rewrite E. cbn [List.map].
  by rewrite strip_space_cons.
Qed.

Lemma split_rstrip s :
  List.map strip (split_on sep (rstrip s)) = List.map strip (split_on sep s).
Proof using sep_not_space.
  destruct (lstrip_spec (rev s)) as (sp & Hs & Hsp).
  assert (s = rstrip s ++ rev sp) as Hs'.
  { unfold rstrip. rewrite <- rev_app_distr, <- Hs. by rewrite rev_involutive. }
  rewrite Hs' at 2. rewrite split_on_app by (apply spaces_not_sep; by apply Forall_rev).
  rewrite map_strip_app_last; [done|by apply Forall_rev].
Qed.

Lemma split_strip s :
  List.map strip (split_on sep (strip s)) = List.map strip (split_on sep s).
Proof using sep_not_space. unfold strip. by rewrite split_rstrip, split_lstrip. Qed.

End Split.

Lemma keywords_map_strip l :
  keywords l = List.filter (fun s => negb (pystr_eqb s [])) (List.map strip l).
Proof.
  unfold keywords. induction l as [|s l IH]; [done|]. cbn [List.map List.filter].
  destruct (negb _); cbn [List.map]; by rewrite IH.
Qed.

Lemma keywords_strip l : keywords (List.map strip l) = keywords l.
Proof.
  rewrite !keywords_map_strip, List.map_map. f_equal.
  apply map_ext. intros s. apply strip_strip.
Qed.

Lemma keywords_keywords l : keywords (keywords l) = keywords l.
Proof.
  rewrite (keywords_map_strip (keywords l)). unfold keywords at 1.
  rewrite List.map_map. rewrite (map_ext _ strip) by (intros s; apply strip_strip).
  fold (keywords l). rewrite keywords_map_strip.
  induction (List.map strip l) as [|s m IH]; [done|]. cbn [List.filter].
  destruct (negb (pystr_eqb s [])) eqn:E; [|done]. cbn [List.filter]. rewrite E.
  by rewrite IH.
Qed.

Section Parse.
Context {B : Builtins}.

Lemma filter_by_skills_no_keywords df ks : keywords ks = [] → filter_by_skills df ks = df.
Proof.
  intros H. unfold filter_by_skills. rewrite skills_pattern, H. cbn [List.map].
  by destruct (_ || _).
Qed.

Lemma filter_by_skills_keywords df ks ks' :
  keywords ks = keywords ks' → filter_by_skills df ks = filter_by_skills df ks'.
Proof.
  intros H. destruct (keywords ks') as [|k kw] eqn:E.
  { by rewrite !filter_by_skills_no_keywords. }
  unfold filter_by_skills. rewrite !skills_pattern, H, E.
  assert (ks ≠ []) as Hks by (intros ->; done).
  assert (ks' ≠ []) as Hks' by (intros ->; done).
  by rewrite (bool_decide_eq_false_2 _ Hks), (bool_decide_eq_false_2 _ Hks').
Qed.

(** X16. The command line and the window read a skills text alike: for the
    same frame and the same text, [apply_all_filters] gives the same frame
    with the list [cmd_search] builds as with the one [_start_search]
    builds, although the first keeps the empty entries and the second
    leaves the filter out when no entry is left. *)
Theorem skills_text_read_alike (df : DataFrame) (text : pystr) (remote_only : bool)
    (seniority : option (list pystr)) :
  apply_all_filters df (Main.skills (Some text)) remote_only seniority
  = apply_all_filters df (Gui.skills text) remote_only seniority.
Proof.
  assert (is_space (chr ",") = false) as Hsep by reflexivity.
  unfold apply_all_filters.
  set (y := if remote_only then filter_remote (dedup_stage df) else dedup_stage df).
  enough (match active (Main.skills (Some text)) with
          | Some ks => filter_by_skills y ks
          | None => y
          end
          = match active (Gui.skills text) with
            | Some ks => filter_by_skills y ks
            | None => y
            end) as -> by done.
  destruct text as [|c t]; [reflexivity|]. set (text := c :: t).
  unfold Gui.skills. fold (keywords (split_on (chr ",") (strip text))).
  assert (keywords (split_on (chr ",") (strip text))
          = keywords (List.map strip (split_on (chr ",") text))) as Hk.
  { rewrite keywords_strip, !keywords_map_strip. by rewrite split_strip. }
  change (Main.skills (Some text)) with (Some (List.map strip (split_on (chr ",") text))).
  assert (active (Some (List.map strip (split_on (chr ",") text)))
          = Some (List.map strip (split_on (chr ",") text))) as ->.
  { destruct (split_on_cons (chr ",") text) as (h & r & E). by rewrite E. }
  destruct (keywords (split_on (chr ",") (strip text))) as [|k kw] eqn:Ek.
  - cbn [active]. by apply filter_by_skills_no_keywords.
  - cbn [active]. apply filter_by_skills_keywords. rewrite <- Hk, <- Ek.
    by rewrite keywords_keywords.
Qed.

End Parse.

End SkillsFacts.

(** ** Scenarios *)

Module Scenarios.
Import Py Re Frame Recruiter Filters Database History Posts.
Import FiltersFacts.
Local Close Scope N_scope.

Section Closed.
Existing Instance simple_builtins.

Definition jane : pystr := py "jane@acme.com".

Lemma _str_normal_form_witness :
  @_str simple_builtins (CStr (py "  jane@acme.com ")) = Some jane ∧
  jane = strip (@str_ simple_builtins (CStr (py "  jane@acme.com "))) ∧
  jane ≠ [] ∧ jane ≠ py "nan" ∧ jane ≠ py "None" ∧ strip jane = jane ∧
  @_str simple_builtins (CStr jane) = Some jane.
Proof.
  assert (@_str simple_builtins (CStr (py "  jane@acme.com ")) = Some jane) as H
    by reflexivity.
  split; [exact H|].
  exact (@HistoryFacts._str_normal_form simple_builtins _ _ H).
Defined.

(** A stored row with a given link. *)
Definition stored (link : option pystr) : vaga :=
  {| v_link := link; v_site := Some (py "gupy"); v_titulo := Some (py "Dev");
     v_empresa := None; v_localizacao := None; v_remoto := 0; v_tipo_vaga := None;
     v_salario_min := None; v_salario_max := None; v_moeda := None;
     v_data_postagem := None; v_email_recrutador := None; v_nome_recrutador := None;
     v_termo_busca := py "python"; v_data_coleta := py "2024-04-30 09:00:00" |}.

Definition offer (link : Cell) : gmap string Cell :=
  <["link" := link]> (<["titulo" := CStr (py "Dev")]> ∅).

(** A table with one link and two rows without, and a frame that brings the
    stored link again, a new link twice and a row without link. *)
Definition table : db :=
  Some [stored (Some (py "https://a.example/1")); stored None; stored None].

Definition offers : DataFrame :=
  Df ["link"; "titulo"]
     [ offer (CStr (py "https://a.example/1")); offer (CStr (py "https://a.example/2"));
       offer CNone; offer (CStr (py " https://a.example/2 ")) ].

Lemma save_jobs_keeps_links_unique_witness :
  NoDup (omap v_link (init_db table)) ∧
  NoDup (omap v_link
           (@save_jobs simple_builtins offers (py "python") (py "2024-05-01 10:00:00")
                       table).1).
Proof.
  assert (NoDup (omap v_link (init_db table))) as H.
  { apply (bool_decide_unpack _). vm_compute. exact I. }
  split; [exact H|].
  exact (@HistoryFacts.save_jobs_keeps_links_unique simple_builtins offers _ _ table H).
Defined.

Definition vacancies : DataFrame :=
  Df ["site"; "link"; "titulo"; "descricao"; "remoto"; "emails"]
     [ <["site" := CStr (py "gupy")]> (<["link" := CStr (py "https://a.example/1")]>
       (<["titulo" := CStr (py "Python Developer Senior")]>
       (<["descricao" := CStr (py "Django. Fale com: Ana Souza, ana@acme.com")]>
       (<["remoto" := CBool true]> (<["emails" := CNone]> ∅)))));
       <["site" := CStr (py "post_twitter")]> (<["link" := CStr (py "https://a.example/1")]>
       (<["titulo" := CStr (py "Vaga junior")]>
       (<["descricao" := CStr (py "React")]>
       (<["remoto" := CBool false]> (<["emails" := CStr (py " rh@acme.com ")]> ∅)))));
       <["site" := CStr (py "gupy")]> (<["link" := CStr (py "https://a.example/1")]>
       (<["titulo" := CStr (py "Backend")]>
       (<["descricao" := CStr (py "python")]>
       (<["remoto" := CBool true]> (<["emails" := CNone]> ∅))))) ].

Lemma filter_by_skills_set_witness :
  (∀ k, k ∈ keywords [py " python "; py "django"; py "python"] ↔
        k ∈ keywords [py "django"; py ""; py "python"]) ∧
  @filter_by_skills simple_builtins vacancies [py " python "; py "django"; py "python"]
  = @filter_by_skills simple_builtins vacancies [py "django"; py ""; py "python"].
Proof.
  assert (∀ k, k ∈ keywords [py " python "; py "django"; py "python"] ↔
               k ∈ keywords [py "django"; py ""; py "python"]) as H.
  { intros k.
    change (keywords [py " python "; py "django"; py "python"])
      with [py "python"; py "django"; py "python"].
    change (keywords [py "django"; py ""; py "python"]) with [py "django"; py "python"].
    rewrite !elem_of_cons. tauto. }
  split; [exact H|].
  exact (@PipelineFacts.filter_by_skills_set simple_builtins vacancies _ _ H).
Defined.

Lemma filter_by_seniority_set_witness :
  (∀ level, level ∈ [py "junior"; py "senior"] ↔
            level ∈ [py "senior"; py "junior"; py "junior"]) ∧
  @filter_by_seniority simple_builtins vacancies [py "junior"; py "senior"]
  = @filter_by_seniority simple_builtins vacancies [py "senior"; py "junior"; py "junior"] ∧
  @seniority_patterns [py "senior"] ≠ [] ∧
  (∀ level, level ∈ [py "senior"] → level ∈ [py "junior"; py "senior"]) ∧
  rows (@filter_by_seniority simple_builtins vacancies [py "senior"])
    `sublist_of` rows (@filter_by_seniority simple_builtins vacancies
                         [py "junior"; py "senior"]).
Proof.
  assert (∀ level, level ∈ [py "junior"; py "senior"] ↔
                   level ∈ [py "senior"; py "junior"; py "junior"]) as H.
  { intros level. rewrite !elem_of_cons. tauto. }
  assert (@seniority_patterns [py "senior"] ≠ []) as Hp by done.
  assert (∀ level, level ∈ [py "senior"] → level ∈ [py "junior"; py "senior"]) as Hs.
  { intros level. rewrite !elem_of_cons. tauto. }
  split; [exact H|]. split.
  { exact (proj1 (@PipelineFacts.filter_by_seniority_set simple_builtins vacancies _ _) H). }
  split; [exact Hp|]. split; [exact Hs|].
  exact (proj2 (@PipelineFacts.filter_by_seniority_set simple_builtins vacancies _ _) Hp Hs).
Defined.

Lemma extracted_email_shape_witness :
  _extract_email_from_text (py "logo@2x.png - escreva para Jane@Acme.com hoje")
  = Some (py "Jane@Acme.com") ∧
  EmailFacts.address_shape (py "Jane@Acme.com") ∧
  Forall (fun c => is_space c = false) (py "Jane@Acme.com") ∧
  strip (py "Jane@Acme.com") = py "Jane@Acme.com" ∧
  chr "@" ∈ py "Jane@Acme.com" ∧
  py "Jane@Acme.com" ∉ [py ""; py "nan"; py "None"].
Proof.
  assert (_extract_email_from_text (py "logo@2x.png - escreva para Jane@Acme.com hoje")
          = Some (py "Jane@Acme.com")) as H by reflexivity.
  split; [exact H|].
  exact (EmailFacts.extracted_email_shape _ _ H).
Defined.

(** A search engine that answers every query with the same two results,
    and a calendar that reads no date. *)
Definition two_hits (query : pystr) (n : Z) : result (list hit) :=
  Ok [ {| body := Some (py "Estamos contratando! Envie para rh@acme.com");
          title := Some (py "Vaga Python"); href := Some (py "https://x.com/acme/1");
          published := Some (py "2024-05-01T10:00:00Z") |};
       {| body := None; title := Some (py "Vaga aberta"); href := None;
          published := None |} ].

Definition offline (query : pystr) (n : Z) : result (list hit) := Raise OverflowError.

Definition no_calendar (s : pystr) : option pystr := None.

Definition posts_found : DataFrame :=
  Df post_columns
     [ Posts.post_row no_calendar (py "twitter") {|
         body := Some (py "Estamos contratando! Envie para rh@acme.com");
         title := Some (py "Vaga Python"); href := Some (py "https://x.com/acme/1");
         published := Some (py "2024-05-01T10:00:00Z") |};
       Posts.post_row no_calendar (py "twitter") {|
         body := None; title := Some (py "Vaga aberta"); href := None;
         published := None |} ].

Lemma search_posts_rows_are_posts_witness :
  search_posts no_calendar two_hits (py "python") (py "Rio de Janeiro, Brazil")
               (Some [py "twitter"]) 15 = Ok posts_found ∧
  ∀ r, r ∈ rows posts_found →
       is_post (get r "site") = true ∧ get r "remoto" = CBool false ∧
       of_option (@_get_email simple_builtins r) = get r "emails".
Proof.
  assert (search_posts no_calendar two_hits (py "python") (py "Rio de Janeiro, Brazil")
                       (Some [py "twitter"]) 15 = Ok posts_found) as H by reflexivity.
  split; [exact H|]. intros r Hr.
  destruct (proj2 (@PostsFacts.search_posts_rows_are_posts simple_builtins no_calendar
                     two_hits _ _ _ _ _ H) r Hr) as (_ & Hs & Hrem & _ & He).
  by split_and!.
Defined.

Lemma search_posts_validates_platforms_witness :
  search_posts no_calendar offline (py "python") (py "Brazil")
               (Some [py "twitter"; py "tiktok"]) 15 = Raise ValueError ∧
  (∀ q k, ∃ e, offline q k = Raise e) ∧
  Forall (fun p => p ∈ [py "linkedin_posts"; py "twitter"; py "instagram"; py "facebook"])
         [py "twitter"; py "facebook"] ∧
  search_posts no_calendar offline (py "python") (py "Brazil")
               (Some [py "twitter"; py "facebook"]) 15 = Ok (Df [] []).
Proof.
  assert (∀ q k, ∃ e, offline q k = Raise e) as Hoff by (intros q k; by eexists).
  assert (Forall (fun p => p ∈ [py "linkedin_posts"; py "twitter"; py "instagram";
                                 py "facebook"])
                 [py "twitter"; py "facebook"]) as Hall.
  { repeat constructor. }
  split.
  { apply (proj1 (PostsFacts.search_posts_validates_platforms no_calendar offline
                    (py "python") (py "Brazil") [py "twitter"; py "tiktok"] 15)).
    split; [done|]. exists (py "tiktok"). split.
    - rewrite !elem_of_cons. by auto.
    - rewrite !not_elem_of_cons. split_and!; [done..|apply not_elem_of_nil]. }
  split; [exact Hoff|]. split; [exact Hall|].
  exact (proj2 (PostsFacts.search_posts_validates_platforms no_calendar offline
                  (py "python") (py "Brazil") [py "twitter"; py "facebook"] 15) Hoff Hall).
Defined.

Lemma enrich_commutes_with_filters_witness :
  columns vacancies ≠ [] ∧
  @apply_all_filters simple_builtins (@enrich_recruiter_info simple_builtins vacancies)
    (Some [py "python"]) true (Some [py "senior"])
  = @enrich_recruiter_info simple_builtins
      (@apply_all_filters simple_builtins vacancies (Some [py "python"]) true
         (Some [py "senior"])).
Proof.
  assert (columns vacancies ≠ []) as H by done.
  split; [exact H|].
  exact (@OrderFacts.enrich_commutes_with_filters simple_builtins vacancies _ _ _ H).
Defined.

End Closed.

End Scenarios.
